(** * A shallow embedding of the 168.se search engine

    The development follows the layout of the Python sources:

    - [PyStr]      the [str] methods the components rely on
                   ([lower], [in], [find], [count], [split]);
    - [Ranking]    [components/ranking.py]  (class [SearchRanking]);
    - [Indexer]    [components/indexer.py]  (class [SearchIndexer], over a
                   small model of the Whoosh index writer);
    - [Crawler]    [components/crawler.py]  (class [WebCrawler]; the run
                   with its requests and with the exception of
                   [time.sleep] is [Crawler.Traced]);
    - [Scheduler]  [components/scheduler.py] (class [CrawlScheduler]: the
                   job list, with [datetime] and [int] as far as it uses
                   them);
    - [Engine]     [SearchEngine.crawl_and_index] of [search_engine.py]
                   and [CrawlScheduler.execute_crawl_job], which compose
                   the components;
    - [Texts]      [WebParser.clean_text] of [components/parser.py],
                   [preprocess_query] and the snippet of
                   [components/query_engine.py];
    - [Search]     [QueryEngine.search] and [SearchEngine.search], over
                   the Whoosh searcher as a function.

    Logging and the rewriting of the job file after each change of the
    job list return nothing to the caller and are left out.

    Python [int] is [Z].  Python [float] is idealised as a real number
    of [R] as far as rounding goes; where a double gives an exception or
    an exact zero instead of a rounded value ([math.exp] out of its
    range, an [int] too large for a [float]) the definitions say so.
    [str] is [string]: the strings of characters below 256, on which
    [lower], white space and the word characters of a pattern are as
    Python has them.  A [dict] with string keys is a [gmap string _], a
    [set] of strings a [gset string].  Reading the clock ([time.time()],
    [datetime.now()]) is made explicit as an argument [now]. *)

From Stdlib Require Import ZArith Reals Lra Lia List Ascii String Bool.
From Equations Require Import Equations.
From stdpp Require Import gmap strings list fin_maps sorting.

(* ===================================================================== *)
(** ** Python string methods *)
(* ===================================================================== *)

Module PyStr.

(** [c.lower()] on one character: the capitals below 256, which are
    the 26 of ASCII and the 30 from 192 to 222 without the
    multiplication sign 215, are shifted by 32. *)
Definition lower_ascii (c : ascii) : ascii :=
  let n := nat_of_ascii c in
  if ((65 <=? n)%nat && (n <=? 90)%nat)
     || ((192 <=? n)%nat && (n <=? 222)%nat && negb (n =? 215)%nat)
  then ascii_of_nat (n + 32) else c.

(** [s.lower()] *)
Fixpoint lower (s : string) : string :=
  match s with
  | EmptyString => EmptyString
  | String c s' => String (lower_ascii c) (lower s')
  end.

(** [s.startswith(p)] *)
Fixpoint startswith (p s : string) : bool :=
  match p, s with
  | EmptyString, _ => true
  | String _ _, EmptyString => false
  | String a p', String b s' => if Ascii.eqb a b then startswith p' s' else false
  end.

(** [s.find(sub)]: the least offset at which [sub] occurs, [None] for
    Python's [-1]. *)
Fixpoint find (sub s : string) : option nat :=
  if startswith sub s then Some 0%nat
  else match s with
       | EmptyString => None
       | String _ s' => match find sub s' with
                        | Some i => Some (S i)
                        | None => None
                        end
       end.

(** [sub in s] *)
Definition contains (sub s : string) : bool :=
  match find sub s with Some _ => true | None => false end.

(** [s.count(sub)]: the number of non-overlapping occurrences, scanning
    from the left; [skip] characters of the last match are still to be
    passed over.  For the empty [sub] this is [len(s) + 1]. *)
Fixpoint count_from (skip : nat) (sub s : string) : nat :=
  match s with
  | EmptyString =>
      match skip, sub with
      | O, EmptyString => 1
      | _, _ => 0
      end
  | String _ s' =>
      match skip with
      | S k => count_from k sub s'
      | O => if startswith sub s
             then S (count_from (String.length sub - 1) sub s')
             else count_from 0 sub s'
      end
  end.

Definition count (sub s : string) : nat := count_from 0 sub s.

(** The characters [str.split()], [str.strip()] and the class of white
    space of a pattern treat as white space, below 256: TAB, LF, VT, FF,
    CR, FS, GS, RS, US, the blank, NEL (133) and the no-break space
    (160). *)
Definition isspace (c : ascii) : bool :=
  let n := nat_of_ascii c in
  ((9 <=? n)%nat && (n <=? 13)%nat) || ((28 <=? n)%nat && (n <=? 32)%nat)
  || (n =? 133)%nat || (n =? 160)%nat.

(** [s.split()]: maximal runs of non-blank characters; [cur] is the
    word being read, in reverse. *)
Fixpoint split_go (cur : option string) (s : string) : list string :=
  match s with
  | EmptyString =>
      match cur with
      | Some w => [String.rev w]
      | None => []
      end
  | String c s' =>
      if isspace c then
        match cur with
        | Some w => String.rev w :: split_go None s'
        | None => split_go None s'
        end
      else
        match cur with
        | Some w => split_go (Some (String c w)) s'
        | None => split_go (Some (String c EmptyString)) s'
        end
  end.

Definition split (s : string) : list string := split_go None s.

(** Truth value of a string: [not s] holds of the empty string only. *)
Definition truthy (s : string) : bool :=
  match s with EmptyString => false | String _ _ => true end.

End PyStr.

(* ===================================================================== *)
(** ** components/ranking.py *)
(* ===================================================================== *)

Module Ranking.

(** The exceptions the scoring code can raise. *)
Inductive exn : Type :=
| ZeroDivisionError
| ValueError
| KeyError (key : string)
| OverflowError.

Inductive result (A : Type) : Type :=
| Ok (a : A)
| Raise (e : exn).
Arguments Ok {A} a.
Arguments Raise {A} e.

(** Sequencing: an exception ends the computation. *)
#[global] Instance result_bind : MBind result :=
  fun A B (k : A -> result B) (m : result A) =>
    match m with
    | Ok a => k a
    | Raise e => Raise e
    end.

(** [self.weights]: a dictionary from weight names to floats. *)
Abbreviation weights := (gmap string R).

(** [self.weights[key]] *)
Definition weight (w : weights) (key : string) : result R :=
  match w !! key with
  | Some x => Ok x
  | None => Raise (KeyError key)
  end.

Local Open Scope R_scope.

(** The dictionary built by [SearchRanking.__init__]. *)
Definition initial_weights : weights :=
  <["title_match" := 3]>
  (<["content_match" := 1]>
  (<["meta_description_match" := 2]>
  (<["heading_match" := 5 / 2]>
  (<["url_match" := 3 / 2]>
  (<["freshness" := 1]>
  (<["content_length" := 1 / 2]>
  (<["depth_penalty" := - (1 / 5)]> ∅))))))).

(** The value stored under ['crawl_time']: absent (or [None]), a number
    of seconds since the epoch, or a [datetime] object whose
    [.timestamp()] is [t]. *)
Inductive crawl_stamp : Type :=
| NoTime
| Timestamp (t : R)
| DateTime (t : R).

(** A search hit, as built by [QueryEngine.search].  A text field that
    is missing from the dictionary reads as the empty string, which is
    what [result.get(key, '')] gives. *)
Record hit : Type := {
  url : string;
  title : string;
  content : string;
  meta_description : string;
  headings : string;
  score : option R;
  content_length : Z;
  crawl_time : crawl_stamp;
  depth : Z
}.

Record breakdown : Type := {
  title_score : Z;
  content_score : R;
  meta_score : Z;
  heading_score : Z;
  url_score : Z;
  freshness_score : R;
  content_length_score : R;
  depth_penalty : R
}.

(** A hit after [rank_results] has stored ['ranking_score'] and
    ['score_breakdown'] in it. *)
Record ranked : Type := {
  ranked_hit : hit;
  ranking_score : R;
  score_breakdown : breakdown
}.

(** [calculate_tf_idf] *)
Definition df (term : string) (all_documents : list string) : nat :=
  length (filter (fun doc => Is_true (PyStr.contains (PyStr.lower term) (PyStr.lower doc)))
                 all_documents).

Definition calculate_tf_idf (term document : string) (all_documents : list string)
  : result R :=
  match length (PyStr.split document) with
  | O => Raise ZeroDivisionError
  | S _ as words =>
      let tf := INR (PyStr.count (PyStr.lower term) (PyStr.lower document)) / INR words in
      match all_documents with
      | [] => Raise ValueError
      | _ :: _ =>
          let idf := ln (INR (length all_documents) / INR (df term all_documents + 1)) in
          Ok (tf * idf)
      end
  end.

(** One round of the loop of [calculate_title_score]. *)
Definition title_term_score (title_lower term : string) : Z :=
  let term_lower := PyStr.lower term in
  if PyStr.contains term_lower title_lower then
    if String.eqb term_lower title_lower then 10
    else if PyStr.contains (" " +:+ term_lower +:+ " ") (" " +:+ title_lower +:+ " ") then 5
    else 2
  else 0.

(** [calculate_title_score] *)
Definition calculate_title_score (query_terms : list string) (title : string) : Z :=
  if PyStr.truthy title then
    let title_lower := PyStr.lower title in
    fold_left (fun score term => (score + title_term_score title_lower term)%Z)
              query_terms 0%Z
  else 0%Z.

(** One round of the loop of [calculate_content_score]. *)
Definition content_term_score (content term : string) (all_contents : list string)
  : result R :=
  let content_lower := PyStr.lower content in
  let term_lower := PyStr.lower term in
  let occurrences := PyStr.count term_lower content_lower in
  tf_idf ← calculate_tf_idf term content all_contents;
  let position_bonus :=
    match PyStr.find term_lower content_lower with
    | Some first_occurrence =>
        1 - (INR first_occurrence / INR (String.length content)) * (1 / 2)
    | None => 1
    end in
  Ok (INR occurrences * tf_idf * position_bonus).

(** [calculate_content_score] *)
Fixpoint content_loop (score : R) (query_terms : list string) (content : string)
    (all_contents : list string) : result R :=
  match query_terms with
  | [] => Ok score
  | term :: rest =>
      s ← content_term_score content term all_contents;
      content_loop (score + s) rest content all_contents
  end.

Definition calculate_content_score (query_terms : list string) (content : string)
    (all_contents : list string) : result R :=
  if PyStr.truthy content then content_loop 0 query_terms content all_contents
  else Ok 0.

(** [calculate_url_score] *)
Definition calculate_url_score (query_terms : list string) (u : string) : Z :=
  if PyStr.truthy u then
    let url_lower := PyStr.lower u in
    fold_left (fun score term =>
                 if PyStr.contains (PyStr.lower term) url_lower then (score + 1)%Z else score)
              query_terms 0%Z
  else 0%Z.

(** The seconds that [calculate_freshness_score] reads off the crawl
    time; [None] where [not crawl_time] holds. *)
Definition stamp_seconds (c : crawl_stamp) : option R :=
  match c with
  | NoTime => None
  | Timestamp t => if Req_dec_T t 0 then None else Some t
  | DateTime t => Some t
  end.

(** [math.exp] on a double: [OverflowError] for an argument above
    709.782712893384, whose exponential is the last below the greatest
    double; 0.0 for an argument below -745.1332191019411, whose
    exponential is the last that does not round to zero; between the
    two the exponential, idealised as a real number. *)
Definition exp_overflows : R := 709782712893384 / 1000000000000.
Definition exp_vanishes : R := - (74513321910194115 / 100000000000000).

Definition math_exp (x : R) : result R :=
  if Rlt_dec exp_overflows x then Raise OverflowError
  else if Rlt_dec x exp_vanishes then Ok 0
  else Ok (exp x).

(** [calculate_freshness_score]; [now] is the value of [time.time()]. *)
Definition calculate_freshness_score (now : R) (c : crawl_stamp) : result R :=
  match stamp_seconds c with
  | None => Ok 0
  | Some crawl_timestamp =>
      let age_days := (now - crawl_timestamp) / (24 * 3600) in
      math_exp (- age_days / 30)
  end.

(** [calculate_content_length_score].  The argument of [math.exp] lies
    from -65 to 0 here, where it is the exponential. *)
Definition optimal_length : Z := 1500.

Definition calculate_content_length_score (length : Z) : R :=
  if (length =? 0)%Z then 0
  else if (length <? 100)%Z then 1 / 10
  else if (10000 <? length)%Z then 3 / 10
  else
    let diff := Z.abs (length - optimal_length) in
    exp (- IZR (diff ^ 2) / (2 * (IZR optimal_length / 2) ^ 2)).

(** An [int] as an operand of a [float]: [OverflowError] for an integer
    that rounds to no double, which are those from [2^1024 - 2^970] on
    and their opposites. *)
Definition float_of_int (n : Z) : result R :=
  if (Z.abs n <? 2 ^ 1024 - 2 ^ 970)%Z then Ok (IZR n) else Raise OverflowError.

(** [calculate_depth_penalty] *)
Definition calculate_depth_penalty (d : Z) : result R :=
  x ← float_of_int d; Ok (x * (1 / 10)).

(** The body of the loop of [rank_results] for one hit. *)
Definition score_hit (w : weights) (now : R) (query_terms all_contents : list string)
    (h : hit) : result ranked :=
  let title_score := calculate_title_score query_terms (title h) in
  content_score ← calculate_content_score query_terms (content h) all_contents;
  let url_score := calculate_url_score query_terms (url h) in
  freshness_score ← calculate_freshness_score now (crawl_time h);
  let content_length_score := calculate_content_length_score (content_length h) in
  depth_penalty ← calculate_depth_penalty (depth h);
  let meta_score := calculate_title_score query_terms (meta_description h) in
  let heading_score := calculate_title_score query_terms (headings h) in
  w_title ← weight w "title_match";
  w_content ← weight w "content_match";
  w_meta ← weight w "meta_description_match";
  w_heading ← weight w "heading_match";
  w_url ← weight w "url_match";
  w_fresh ← weight w "freshness";
  w_length ← weight w "content_length";
  w_depth ← weight w "depth_penalty";
  let total_score :=
    IZR title_score * w_title +
    content_score * w_content +
    IZR meta_score * w_meta +
    IZR heading_score * w_heading +
    IZR url_score * w_url +
    freshness_score * w_fresh +
    content_length_score * w_length -
    depth_penalty * Rabs w_depth in
  let total_score :=
    match score h with
    | Some s => total_score + s
    | None => total_score
    end in
  Ok {| ranked_hit := h;
        ranking_score := total_score;
        score_breakdown :=
          {| title_score := title_score;
             content_score := content_score;
             meta_score := meta_score;
             heading_score := heading_score;
             url_score := url_score;
             freshness_score := freshness_score;
             content_length_score := content_length_score;
             depth_penalty := depth_penalty |} |}.

Fixpoint score_all (w : weights) (now : R) (query_terms all_contents : list string)
    (results : list hit) : result (list ranked) :=
  match results with
  | [] => Ok []
  | h :: rest =>
      r ← score_hit w now query_terms all_contents h;
      rs ← score_all w now query_terms all_contents rest;
      Ok (r :: rs)
  end.

(** [list.sort(key=lambda x: x['ranking_score'], reverse=True)]: a
    stable sort into descending order.  An element is put in front of
    the first element whose key is not greater than its own. *)
Fixpoint insert_desc (x : ranked) (l : list ranked) : list ranked :=
  match l with
  | [] => [x]
  | y :: l' =>
      if Rlt_dec (ranking_score x) (ranking_score y)
      then y :: insert_desc x l'
      else x :: y :: l'
  end.

Definition sort_desc (l : list ranked) : list ranked :=
  fold_right insert_desc [] l.

(** [rank_results] *)
Definition rank_results (w : weights) (now : R) (results : list hit)
    (query_string : string) : result (list ranked) :=
  match results with
  | [] => Ok []
  | _ :: _ =>
      let query_terms := PyStr.split (PyStr.lower query_string) in
      let all_contents := map content results in
      ranked_results ← score_all w now query_terms all_contents results;
      Ok (sort_desc ranked_results)
  end.

(** [update_weights]: [dict.update] keeps the old entry of a key only
    when the argument has none. *)
Definition update_weights (w new_weights : weights) : weights :=
  new_weights ∪ w.

(** [get_weights]: a copy of the dictionary. *)
Definition get_weights (w : weights) : weights := w.

End Ranking.

(* ===================================================================== *)
(** ** components/indexer.py *)
(* ===================================================================== *)

Module Indexer.

(** A parsed page, the dictionary [WebParser.parse_page] builds.  The
    key ['url'] is read with [parsed_page['url']], which raises when
    the key is absent; the other keys are read with [.get] and a
    default, so an absent key and its default are the same value. *)
Record heading : Type := {
  level : Z;
  text : string
}.

Record parsed_page : Type := {
  url : option string;
  title : string;
  content : string;
  meta_description : string;
  headings : list heading;
  content_length : Z;
  crawl_time : Z;
  depth : Z
}.

(** A stored document, with the fields of the index schema. *)
Record document : Type := {
  doc_url : string;
  doc_title : string;
  doc_content : string;
  doc_meta_description : string;
  doc_headings : string;
  doc_content_length : Z;
  doc_crawl_time : Z;
  doc_depth : Z
}.

(** The committed documents of the index. *)
Abbreviation index := (list document).

(** *** The Whoosh writer

    A writer works on the documents that were committed when it was
    opened.  [add_document] buffers a document and looks at no unique
    field (only Whoosh's own [update_document] does); [delete_by_term]
    marks the committed documents carrying the term; [commit] publishes
    the survivors followed by the buffered documents; [cancel] publishes
    nothing. *)
Record writer : Type := {
  segment : index;
  deleted : list string;
  added : list document
}.

Definition open_writer (ix : index) : writer :=
  {| segment := ix; deleted := []; added := [] |}.

Definition writer_add_document (w : writer) (d : document) : writer :=
  {| segment := segment w; deleted := deleted w; added := added w ++ [d] |}.

Definition delete_by_term (w : writer) (u : string) : writer :=
  {| segment := segment w; deleted := u :: deleted w; added := added w |}.

Definition is_deleted (w : writer) (d : document) : bool :=
  existsb (String.eqb (doc_url d)) (deleted w).

Definition commit (w : writer) : index :=
  List.filter (fun d => negb (is_deleted w d)) (segment w) ++ added w.

Definition cancel (w : writer) : index := segment w.

(** *** SearchIndexer *)

Inductive exn : Type :=
| KeyError (key : string)
| OverflowError
| ValueError
| CommitError.

(** What a method hands back to its caller. *)
Inductive outcome : Type :=
| Returned
| Raised (e : exn).

(** [datetime.fromtimestamp(t)] on a machine whose local time is UTC:
    it accepts the seconds of the years 1 to 9999 without those of the
    first day of the year 1, for which looking one day back for a
    repeated hour leaves the calendar. *)
Definition fromtimestamp (t : Z) : option Z :=
  if ((-62135510400 <=? t) && (t <=? 253402300799))%Z then Some t else None.

(** The numbers a [NUMERIC] field of the schema takes: the integers of
    32 signed bits.  The writer raises [ValueError] for any other. *)
Definition int32 (n : Z) : bool :=
  ((-2147483648 <=? n) && (n <=? 2147483647))%Z.

(** [" ".join(texts)] *)
Fixpoint join (texts : list string) : string :=
  match texts with
  | [] => ""
  | [t] => t
  | t :: rest => t +:+ " " +:+ join rest
  end.

(** The document that [add_document] hands to the writer and the writer
    takes, or the exception raised on the way: by [fromtimestamp], by
    [parsed_page['url']], or by the writer for a number that does not
    fit its field.  The exception of [fromtimestamp] is a [ValueError],
    an [OSError] or an [OverflowError] by the size of the number; it is
    written [OverflowError] here, and [add_document] catches the three
    alike. *)
Definition build_document (p : parsed_page) : exn + document :=
  let headings_text := join (map text (headings p)) in
  match fromtimestamp (crawl_time p) with
  | None => inl OverflowError
  | Some crawl_datetime =>
      match url p with
      | None => inl (KeyError "url")
      | Some u =>
          if int32 (content_length p) && int32 (depth p) then
            inr {| doc_url := u;
                   doc_title := title p;
                   doc_content := content p;
                   doc_meta_description := meta_description p;
                   doc_headings := headings_text;
                   doc_content_length := content_length p;
                   doc_crawl_time := crawl_datetime;
                   doc_depth := depth p |}
          else inl ValueError
      end
  end.

(** [add_document]: every exception of the body is caught by its
    [except Exception] clause, which writes to the log and falls
    through; the caller gets the writer back, changed or not. *)
Definition add_document (w : writer) (p : parsed_page) : writer :=
  match build_document p with
  | inr d => writer_add_document w d
  | inl _ => w
  end.

(** [index_pages].  [commit_ok] tells whether [writer.commit()] goes
    through; the [except] clause cancels the writer and re-raises. *)
Definition index_pages (commit_ok : bool) (ix : index) (parsed_pages : list parsed_page)
  : index * outcome :=
  let w := fold_left add_document parsed_pages (open_writer ix) in
  if commit_ok then (commit w, Returned)
  else (cancel w, Raised CommitError).

(** [update_document].  [parsed_page['url']] is evaluated in the [try]
    block of the method itself, outside [add_document]. *)
Definition update_document (commit_ok : bool) (ix : index) (p : parsed_page)
  : index * outcome :=
  let w := open_writer ix in
  match url p with
  | None => (cancel w, Raised (KeyError "url"))
  | Some u =>
      let w := delete_by_term w u in
      let w := add_document w p in
      if commit_ok then (commit w, Returned)
      else (cancel w, Raised CommitError)
  end.

(** [delete_document] *)
Definition delete_document (commit_ok : bool) (ix : index) (u : string)
  : index * outcome :=
  let w := delete_by_term (open_writer ix) u in
  if commit_ok then (commit w, Returned)
  else (cancel w, Raised CommitError).

(** The number of records the index holds for a URL, and
    [get_index_stats]'s document count. *)
Definition records_for (u : string) (ix : index) : nat :=
  length (List.filter (fun d => String.eqb (doc_url d) u) ix).

Definition doc_count (ix : index) : nat := length ix.

End Indexer.

(* ===================================================================== *)
(** ** components/crawler.py *)
(* ===================================================================== *)

Module Crawler.

(** What the network gives for one URL at one moment: [robots.txt]
    forbids it; the request or [raise_for_status] raises; the answer is
    not [text/html]; or an HTML page, given by its text and by the
    absolute http(s) links that [extract_links] finds in it. *)
Inductive response : Type :=
| Disallowed
| Unreachable
| NotHtml
| Html (body : string) (hrefs : list string).

(** The network, as seen at each tick of the clock. *)
Definition internet : Type := nat -> string -> response.

Record page_data : Type := {
  url : string;
  title : string;
  content : string;
  links : list string;
  depth : Z;
  crawl_time : nat
}.

Record WebCrawler : Type := {
  max_pages : Z;
  delay : Z;
  max_depth : Z;
  visited_urls : gset string;
  url_queue : list (string * Z);
  crawled_pages : list page_data
}.

(** [WebCrawler.__init__] *)
Definition init (max_pages delay max_depth : Z) : WebCrawler :=
  {| max_pages := max_pages;
     delay := delay;
     max_depth := max_depth;
     visited_urls := ∅;
     url_queue := [];
     crawled_pages := [] |}.

(** Assignments to the attributes of a crawler. *)
Definition set_limits (c : WebCrawler) (pages depth_limit : Z) : WebCrawler :=
  {| max_pages := pages;
     delay := delay c;
     max_depth := depth_limit;
     visited_urls := visited_urls c;
     url_queue := url_queue c;
     crawled_pages := crawled_pages c |}.

Definition set_queue (c : WebCrawler) (q : list (string * Z)) : WebCrawler :=
  {| max_pages := max_pages c;
     delay := delay c;
     max_depth := max_depth c;
     visited_urls := visited_urls c;
     url_queue := q;
     crawled_pages := crawled_pages c |}.

(** [crawl_page]: the crawler afterwards and the value returned. *)
Definition crawl_page (web : internet) (now : nat) (c : WebCrawler)
    (u : string) (d : Z) : WebCrawler * option page_data :=
  if bool_decide (u ∈ visited_urls c)
     || (max_pages c <=? Z.of_nat (length (crawled_pages c)))%Z
     || (max_depth c <? d)%Z
  then (c, None)
  else
    match web now u with
    | Disallowed | Unreachable | NotHtml => (c, None)
    | Html body hrefs =>
        let visited := {[u]} ∪ visited_urls c in
        let page := {| url := u; title := ""; content := body; links := hrefs;
                       depth := d; crawl_time := now |} in
        let fresh := List.filter (fun l => negb (bool_decide (l ∈ visited))) hrefs in
        ({| max_pages := max_pages c;
            delay := delay c;
            max_depth := max_depth c;
            visited_urls := visited;
            url_queue := url_queue c ++ map (fun l => (l, (d + 1)%Z)) fresh;
            crawled_pages := crawled_pages c ++ [page] |},
         Some page)
    end.

(** One round of the [while] loop of [crawl], [None] when the loop
    condition fails.  The clock advances with every call of
    [crawl_page] and the [time.sleep] after it.  This is the round for a
    [delay] that is not negative, as the crawlers of [SearchEngine] and
    of [execute_crawl_job] have (their delay is 1); what [time.sleep]
    does for a negative one, and which requests [crawl_page] sends, is
    in [Traced] below. *)
Definition crawl_round (web : internet) (s : WebCrawler * nat)
  : option (WebCrawler * nat) :=
  let (c, now) := s in
  match url_queue c with
  | [] => None
  | (u, d) :: rest =>
      if (Z.of_nat (length (crawled_pages c)) <? max_pages c)%Z then
        let c := set_queue c rest in
        if bool_decide (u ∈ visited_urls c) then Some (c, now)
        else Some (fst (crawl_page web now c u d), S now)
      else None
  end.

(** The loop ends: a round either collects a page, of which at most
    [max_pages] fit, or only shortens the queue. *)
Definition budget (s : WebCrawler * nat) : nat * nat :=
  (Z.to_nat (max_pages (fst s) - Z.of_nat (length (crawled_pages (fst s)))),
   length (url_queue (fst s))).

Definition inspect {A : Type} (a : A) : {b : A | a = b} := exist _ a eq_refl.

Equations? crawl_loop (web : internet) (s : WebCrawler * nat) : WebCrawler * nat
  by wf (budget s) (Subterm.lexprod nat nat lt lt) :=
  crawl_loop web s with inspect (crawl_round web s) := {
    | exist _ (Some s') _ => crawl_loop web s'
    | exist _ None _ => s }.
Proof.
  match goal with
  | |- Subterm.lexprod _ _ _ _ (budget ?a) (budget ?b) =>
      assert (E : crawl_round web b = Some a) by assumption;
      clear - E; destruct b as [c now]; revert E
  end.
  unfold crawl_round.
  destruct (url_queue c) as [|[u d] rest] eqn:Hq; [done|].
  destruct (Z.ltb_spec (Z.of_nat (length (crawled_pages c))) (max_pages c)) as [Hlt|]; [|done].
  case_bool_decide.
  - intros [= <-]. unfold budget. simpl. rewrite Hq. right. simpl. lia.
  - intros [= <-]. unfold crawl_page.
    destruct (_ || _ || _).
    + unfold budget. simpl. rewrite Hq. right. simpl. lia.
    + destruct (web now u); unfold budget; simpl; rewrite ?Hq;
        try (right; simpl; lia).
      left. rewrite length_app. simpl. lia.
Qed.

(** [crawl]: the crawler afterwards, the clock, and the list returned,
    which is the crawler's own [crawled_pages]. *)
Definition crawl (web : internet) (now : nat) (c : WebCrawler) (seed_urls : list string)
  : WebCrawler * nat * list page_data :=
  let c := set_queue c (url_queue c ++ map (fun u => (u, 0%Z)) seed_urls) in
  let (c, now) := crawl_loop web (c, now) in
  (c, now, crawled_pages c).

(** [get_crawled_data] *)
Definition get_crawled_data (c : WebCrawler) : list page_data := crawled_pages c.

(** *** The run with its requests

    The loop of [crawl] once more, with the two things the loop above
    leaves out: the requests for pages that [crawl_page] sends
    ([session.get(url)]; the reading of [robots.txt] is no request for
    the page), and the [ValueError] that [time.sleep] raises for a
    negative delay, which leaves [crawl] without a list returned. *)
Module Traced.

(** A request for a page: the tick of the clock and the URL. *)
Abbreviation request := (nat * string)%type.

(** What [crawl_page] requests: nothing when it returns at its first
    test or when [robots.txt] forbids the URL, and the URL else, whether
    the request then fails, brings something that is not HTML, or brings
    a page. *)
Definition sent (web : internet) (now : nat) (c : WebCrawler) (u : string) (d : Z)
  : list request :=
  if bool_decide (u ∈ visited_urls c)
     || (max_pages c <=? Z.of_nat (length (crawled_pages c)))%Z
     || (max_depth c <? d)%Z
  then []
  else
    match web now u with
    | Disallowed => []
    | Unreachable | NotHtml | Html _ _ => [(now, u)]
    end.

(** What a round of the loop comes to. *)
Inductive step : Type :=
| Next (s : WebCrawler * nat * list request)
| Done
| SleepRaises (s : WebCrawler * nat * list request).

(** One round of the [while] loop of [crawl]. *)
Definition crawl_round (web : internet) (s : WebCrawler * nat * list request) : step :=
  let '(c, now, log) := s in
  match url_queue c with
  | [] => Done
  | (u, d) :: rest =>
      if (Z.of_nat (length (crawled_pages c)) <? max_pages c)%Z then
        let c := set_queue c rest in
        if bool_decide (u ∈ visited_urls c) then Next (c, now, log)
        else
          let after := (fst (crawl_page web now c u d), S now, log ++ sent web now c u d) in
          if (delay c <? 0)%Z then SleepRaises after else Next after
      else Done
  end.

Equations? crawl_loop (web : internet) (s : WebCrawler * nat * list request)
  : WebCrawler * nat * list request * bool
  by wf (budget (fst s)) (Subterm.lexprod nat nat lt lt) :=
  crawl_loop web s with inspect (crawl_round web s) := {
    | exist _ (Next s') _ => crawl_loop web s'
    | exist _ Done _ => (s, true)
    | exist _ (SleepRaises s') _ => (s', false) }.
Proof.
  match goal with
  | |- Subterm.lexprod _ _ _ _ (budget (fst ?a)) (budget (fst ?b)) =>
      assert (E : crawl_round web b = Next a) by assumption;
      clear - E; destruct b as [[c now] log]; revert E
  end.
  unfold crawl_round.
  destruct (url_queue c) as [|[u d] rest] eqn:Hq; [done|].
  destruct (Z.ltb_spec (Z.of_nat (length (crawled_pages c))) (max_pages c)) as [Hlt|]; [|done].
  case_bool_decide.
  - intros [= <-]. unfold budget. simpl. rewrite Hq. right. simpl. lia.
  - destruct (delay (set_queue c rest) <? 0)%Z; [done|].
    intros [= <-]. unfold crawl_page.
    destruct (_ || _ || _).
    + unfold budget. simpl. rewrite Hq. right. simpl. lia.
    + destruct (web now u); unfold budget; simpl; rewrite ?Hq;
        try (right; simpl; lia).
      left. rewrite length_app. simpl. lia.
Qed.

(** What [crawl] hands to its caller. *)
Inductive outcome : Type :=
| Pages (pages : list page_data)
| ValueError.

(** [crawl]: the crawler afterwards, the clock, the requests sent, and
    the list returned or the exception of [time.sleep]. *)
Definition crawl (web : internet) (now : nat) (c : WebCrawler) (seed_urls : list string)
  : WebCrawler * nat * list request * outcome :=
  let c := set_queue c (url_queue c ++ map (fun u => (u, 0%Z)) seed_urls) in
  let '(c, now, log, returns) := crawl_loop web (c, now, []) in
  (c, now, log, if returns then Pages (crawled_pages c) else ValueError).

End Traced.

End Crawler.

(* ===================================================================== *)
(** ** components/scheduler.py *)
(* ===================================================================== *)

Module Scheduler.

Local Open Scope Z_scope.

(** *** [datetime] *)

Record datetime : Type := {
  year : Z;
  month : Z;
  day : Z;
  hour : Z;
  minute : Z;
  second : Z;
  microsecond : Z
}.

Definition is_leap (y : Z) : bool :=
  (y mod 4 =? 0) && (negb (y mod 100 =? 0) || (y mod 400 =? 0)).

Definition days_in_month (y m : Z) : Z :=
  if m =? 2 then (if is_leap y then 29 else 28)
  else if (m =? 4) || (m =? 6) || (m =? 9) || (m =? 11) then 30
  else 31.

(** The values a [datetime] object can hold. *)
Definition valid_datetime (t : datetime) : Prop :=
  1 <= year t <= 9999 /\ 1 <= month t <= 12 /\
  1 <= day t <= days_in_month (year t) (month t) /\
  0 <= hour t <= 23 /\ 0 <= minute t <= 59 /\ 0 <= second t <= 59 /\
  0 <= microsecond t <= 999999.

(** [t + timedelta(days=1)]; past 9999-12-31 this is an [OverflowError]. *)
Definition plus_one_day (t : datetime) : option datetime :=
  let on (y m d : Z) :=
    {| year := y; month := m; day := d; hour := hour t; minute := minute t;
       second := second t; microsecond := microsecond t |} in
  if day t <? days_in_month (year t) (month t) then Some (on (year t) (month t) (day t + 1))
  else if month t <? 12 then Some (on (year t) (month t + 1) 1)
  else if year t <? 9999 then Some (on (year t + 1) 1 1)
  else None.

(** [t.replace(hour=h, minute=m, second=0, microsecond=0)]; a field out
    of range is a [ValueError]. *)
Definition replace_time (t : datetime) (h m : Z) : option datetime :=
  if (0 <=? h) && (h <=? 23) && (0 <=? m) && (m <=? 59) then
    Some {| year := year t; month := month t; day := day t;
            hour := h; minute := m; second := 0; microsecond := 0 |}
  else None.

(** The decimal digits of [n], [width] of them, with leading zeros. *)
Definition digit (d : Z) : ascii := ascii_of_nat (48 + Z.to_nat d).

Fixpoint zero_padded (width : nat) (n : Z) (acc : string) : string :=
  match width with
  | O => acc
  | S w => zero_padded w (n / 10) (String (digit (n mod 10)) acc)
  end.

(** [t.isoformat()] *)
Definition isoformat (t : datetime) : string :=
  zero_padded 4 (year t) "" +:+ "-" +:+ zero_padded 2 (month t) "" +:+ "-" +:+
  zero_padded 2 (day t) "" +:+ "T" +:+ zero_padded 2 (hour t) "" +:+ ":" +:+
  zero_padded 2 (minute t) "" +:+ ":" +:+ zero_padded 2 (second t) "" +:+
  (if microsecond t =? 0 then "" else "." +:+ zero_padded 6 (microsecond t) "").

(** *** [int(s)] on a string, and slices *)

Definition is_digit (c : ascii) : bool :=
  let n := nat_of_ascii c in ((48 <=? n) && (n <=? 57))%nat.

Definition digit_value (c : ascii) : Z := Z.of_nat (nat_of_ascii c) - 48.

Fixpoint lstrip (s : string) : string :=
  match s with
  | String c s' => if PyStr.isspace c then lstrip s' else s
  | EmptyString => EmptyString
  end.

Definition strip (s : string) : string :=
  String.rev (lstrip (String.rev (lstrip s))).

(** Decimal digits, single underscores allowed between them;
    [need_digit] holds at the start and after an underscore. *)
Fixpoint int_digits (acc : Z) (need_digit : bool) (s : string) : option Z :=
  match s with
  | EmptyString => if need_digit then None else Some acc
  | String c s' =>
      if is_digit c then int_digits (10 * acc + digit_value c) false s'
      else if Ascii.eqb c "_" && negb need_digit then int_digits acc true s'
      else None
  end.

(** The white space [int] skips at both ends of its argument: that of
    [str.strip] without the four separators FS, GS, RS and US. *)
Definition int_space (c : ascii) : bool :=
  let n := nat_of_ascii c in
  PyStr.isspace c && negb ((28 <=? n) && (n <=? 31))%nat.

Fixpoint int_lstrip (s : string) : string :=
  match s with
  | String c s' => if int_space c then int_lstrip s' else s
  | EmptyString => EmptyString
  end.

Definition int_strip (s : string) : string :=
  String.rev (int_lstrip (String.rev (int_lstrip s))).

(** [int(s)], [None] for a [ValueError]. *)
Definition int_of_str (s : string) : option Z :=
  match int_strip s with
  | String "+" s' => int_digits 0 true s'
  | String "-" s' => Z.opp <$> int_digits 0 true s'
  | s' => int_digits 0 true s'
  end.

(** [s[:n]] and [s[n:]] *)
Fixpoint slice_to (n : nat) (s : string) : string :=
  match n, s with
  | S n', String c s' => String c (slice_to n' s')
  | _, _ => EmptyString
  end.

Fixpoint slice_from (n : nat) (s : string) : string :=
  match n, s with
  | S n', String _ s' => slice_from n' s'
  | _, _ => s
  end.

(** *** Crawl jobs *)

Record job : Type := {
  id : Z;
  name : string;
  seed_urls : list string;
  schedule_type : string;
  schedule_time : string;
  max_pages : Z;
  max_depth : Z;
  created_at : string;
  last_run : option string;
  next_run : option string;
  status : string
}.

Definition set_status (j : job) (s : string) : job :=
  {| id := id j; name := name j; seed_urls := seed_urls j;
     schedule_type := schedule_type j; schedule_time := schedule_time j;
     max_pages := max_pages j; max_depth := max_depth j; created_at := created_at j;
     last_run := last_run j; next_run := next_run j; status := s |}.

Definition set_last_run (j : job) (t : string) : job :=
  {| id := id j; name := name j; seed_urls := seed_urls j;
     schedule_type := schedule_type j; schedule_time := schedule_time j;
     max_pages := max_pages j; max_depth := max_depth j; created_at := created_at j;
     last_run := Some t; next_run := next_run j; status := status j |}.

Definition set_next_run (j : job) (t : string) : job :=
  {| id := id j; name := name j; seed_urls := seed_urls j;
     schedule_type := schedule_type j; schedule_time := schedule_time j;
     max_pages := max_pages j; max_depth := max_depth j; created_at := created_at j;
     last_run := last_run j; next_run := Some t; status := status j |}.

(** [add_crawl_job]: the job list afterwards and the id returned.
    [now] is the value of [datetime.now()]. *)
Definition add_crawl_job (now : datetime) (crawl_jobs : list job) (name : string)
    (seed_urls : list string) (schedule_type schedule_time : string)
    (max_pages max_depth : Z) : list job * Z :=
  let j := {| id := Z.of_nat (length crawl_jobs) + 1;
              name := name;
              seed_urls := seed_urls;
              schedule_type := schedule_type;
              schedule_time := schedule_time;
              max_pages := max_pages;
              max_depth := max_depth;
              created_at := isoformat now;
              last_run := None;
              next_run := None;
              status := "scheduled" |} in
  (crawl_jobs ++ [j], id j).

(** [remove_crawl_job] *)
Definition remove_crawl_job (crawl_jobs : list job) (job_id : Z) : list job :=
  List.filter (fun j => negb (id j =? job_id)) crawl_jobs.

(** The truth value of an optional string argument: [None] and [''] are
    false. *)
Definition given (o : option string) : option string :=
  match o with
  | Some s => if PyStr.truthy s then Some s else None
  | None => None
  end.

(** The next run of a daily job, computed in the [try] block of
    [update_job_status]; [None] when the block raises. *)
Definition daily_next_run (now : datetime) (schedule_time : string) : option datetime :=
  next_run_time ← plus_one_day now;
  h ← int_of_str (slice_to 2 schedule_time);
  m ← int_of_str (slice_from 3 schedule_time);
  replace_time next_run_time h m.

(** The body of the loop of [update_job_status] for the job found. *)
Definition update_job (now : datetime) (j : job) (new_status : string)
    (last_run next_run : option string) : job :=
  let j := set_status j new_status in
  let j := match given last_run with
           | Some t => set_last_run j t
           | None => j
           end in
  match given next_run with
  | Some t => set_next_run j t
  | None =>
      if String.eqb new_status "completed" && String.eqb (schedule_type j) "daily" then
        match daily_next_run now (schedule_time j) with
        | Some next_run_time =>
            set_status (set_next_run j (isoformat next_run_time)) "scheduled"
        | None => j
        end
      else j
  end.

(** [update_job_status]: the first job carrying the id is updated, and
    the loop is left. *)
Fixpoint update_job_status (now : datetime) (crawl_jobs : list job) (job_id : Z)
    (new_status : string) (last_run next_run : option string) : list job :=
  match crawl_jobs with
  | [] => []
  | j :: rest =>
      if id j =? job_id then update_job now j new_status last_run next_run :: rest
      else j :: update_job_status now rest job_id new_status last_run next_run
  end.

(** [find_or_create_manual_job]; [None] when [seed_urls[0]] raises. *)
Definition same_parameters (seed_urls : list string) (max_pages max_depth : Z) (j : job)
  : bool :=
  bool_decide (list_to_set (Scheduler.seed_urls j) =@{gset string} list_to_set seed_urls)
  && (Scheduler.max_pages j =? max_pages) && (Scheduler.max_depth j =? max_depth).

Definition manual_job_name (seed : string) : string :=
  if (50 <? String.length seed)%nat
  then "Manual Crawl - " +:+ slice_to 50 seed +:+ "..."
  else "Manual Crawl - " +:+ seed.

Definition find_or_create_manual_job (now : datetime) (crawl_jobs : list job)
    (seed_urls : list string) (max_pages max_depth : Z) : option (list job * Z) :=
  match List.find (same_parameters seed_urls max_pages max_depth) crawl_jobs with
  | Some j => Some (crawl_jobs, id j)
  | None =>
      match seed_urls with
      | [] => None
      | seed :: _ =>
          Some (add_crawl_job now crawl_jobs (manual_job_name seed) seed_urls
                  "manual" "00:00" max_pages max_depth)
      end
  end.

(** The job [run_job_now] looks up. *)
Definition find_job (crawl_jobs : list job) (job_id : Z) : option job :=
  List.find (fun j => id j =? job_id) crawl_jobs.

End Scheduler.

(* ===================================================================== *)
(** ** search_engine.py, and the job runner of components/scheduler.py *)
(* ===================================================================== *)

Module Engine.

(** What [WebParser] reads off the text of a page with BeautifulSoup. *)
Record extracted : Type := {
  ex_title : string;
  ex_meta_description : string;
  ex_content : string;
  ex_headings : list Indexer.heading
}.

(** The surroundings of the process: the network, the wall clock read by
    [datetime.now()], the HTML parser ([None] when it raises), and
    whether a commit of the index goes through. *)
Record world : Type := {
  web : Crawler.internet;
  wall : nat -> Scheduler.datetime;
  soup : string -> option extracted;
  commit_ok : nat -> bool
}.

(** [WebParser.parse_page] *)
Definition parse_page (w : world) (page : Crawler.page_data) : option Indexer.parsed_page :=
  match soup w (Crawler.content page) with
  | None => None
  | Some x =>
      Some {| Indexer.url := Some (Crawler.url page);
              Indexer.title := ex_title x;
              Indexer.content := ex_content x;
              Indexer.meta_description := ex_meta_description x;
              Indexer.headings := ex_headings x;
              Indexer.content_length := Z.of_nat (String.length (ex_content x));
              Indexer.crawl_time := Z.of_nat (Crawler.crawl_time page);
              Indexer.depth := Crawler.depth page |}
  end.

(** [WebParser.parse_pages] *)
Definition parse_pages (w : world) (crawled_pages : list Crawler.page_data)
  : list Indexer.parsed_page :=
  omap (parse_page w) crawled_pages.

(** The components a [SearchEngine] object holds on to: one crawler,
    made once in [__init__]; the index; the scheduler's job list. *)
Record SearchEngine : Type := {
  crawler : Crawler.WebCrawler;
  index : Indexer.index;
  crawl_jobs : list Scheduler.job
}.

(** [SearchEngine.__init__], over the stored index and job list. *)
Definition init (ix : Indexer.index) (jobs : list Scheduler.job) : SearchEngine :=
  {| crawler := Crawler.init 100 1 3; index := ix; crawl_jobs := jobs |}.

(** [crawl_and_index]: the engine afterwards, the clock, the pages that
    [self.crawler.crawl] returned (empty when it was not reached), and
    the boolean handed back. *)
Definition crawl_and_index (w : world) (now : nat) (e : SearchEngine)
    (seed_urls : list string) (max_pages max_depth : Z)
  : SearchEngine * nat * list Crawler.page_data * bool :=
  match Scheduler.find_or_create_manual_job (wall w now) (crawl_jobs e)
          seed_urls max_pages max_depth with
  | None => (e, now, [], false)
  | Some (jobs, job_id) =>
      let jobs := Scheduler.update_job_status (wall w now) jobs job_id "running"
                    (Some (Scheduler.isoformat (wall w now))) None in
      let c := Crawler.set_limits (crawler e) max_pages max_depth in
      let '(c, now, crawled_pages) := Crawler.crawl (web w) now c seed_urls in
      let finish (ix : Indexer.index) (status : string) (ok : bool) :=
        ({| crawler := c; index := ix;
            crawl_jobs := Scheduler.update_job_status (wall w now) jobs job_id status
                            None None |},
         now, crawled_pages, ok) in
      match crawled_pages with
      | [] => finish (index e) "failed" false
      | _ :: _ =>
          match parse_pages w crawled_pages with
          | [] => finish (index e) "failed" false
          | (_ :: _) as parsed_pages =>
              match Indexer.index_pages (commit_ok w now) (index e) parsed_pages with
              | (ix, Indexer.Returned) => finish ix "completed" true
              | (ix, Indexer.Raised _) => finish ix "failed" false
              end
          end
      end
  end.

(** [CrawlScheduler.execute_crawl_job]: a new crawler for every run. *)
Definition execute_crawl_job (w : world) (now : nat) (e : SearchEngine) (j : Scheduler.job)
  : SearchEngine * nat :=
  let jobs := Scheduler.update_job_status (wall w now) (crawl_jobs e) (Scheduler.id j)
                "running" (Some (Scheduler.isoformat (wall w now))) None in
  let c := Crawler.init (Scheduler.max_pages j) 1 (Scheduler.max_depth j) in
  let '(_, now, crawled_pages) := Crawler.crawl (web w) now c (Scheduler.seed_urls j) in
  let finish (ix : Indexer.index) (status : string) (last_run : option string) :=
    ({| crawler := crawler e; index := ix;
        crawl_jobs := Scheduler.update_job_status (wall w now) jobs (Scheduler.id j) status
                        last_run None |},
     now) in
  let completed (ix : Indexer.index) :=
    finish ix "completed" (Some (Scheduler.isoformat (wall w now))) in
  match crawled_pages with
  | [] => completed (index e)
  | _ :: _ =>
      match parse_pages w crawled_pages with
      | [] => completed (index e)
      | (_ :: _) as parsed_pages =>
          match Indexer.index_pages (commit_ok w now) (index e) parsed_pages with
          | (ix, Indexer.Returned) => completed ix
          | (ix, Indexer.Raised _) => finish ix "failed" None
          end
      end
  end.

End Engine.

(* ===================================================================== *)
(** ** Definitions used in the statements *)
(* ===================================================================== *)

Module Scenario.

Import Indexer.

(** A page as the parser produces it for a URL. *)
Definition page_at (u body : string) (t : Z) : parsed_page :=
  {| url := Some u; title := "No Title"; content := body; meta_description := "";
     headings := []; content_length := Z.of_nat (String.length body);
     crawl_time := t; depth := 0 |}.

(** A page dictionary without the key ['url']. *)
Definition page_without_url (body : string) : parsed_page :=
  {| url := None; title := "No Title"; content := body; meta_description := "";
     headings := []; content_length := Z.of_nat (String.length body);
     crawl_time := 0; depth := 0 |}.

(** The documents of a batch that [add_document] manages to build. *)
Fixpoint built (pages : list parsed_page) : list document :=
  match pages with
  | [] => []
  | p :: rest =>
      match build_document p with
      | inr d => d :: built rest
      | inl _ => built rest
      end
  end.

Definition noon_2024 : Scheduler.datetime :=
  {| Scheduler.year := 2024; Scheduler.month := 1; Scheduler.day := 1;
     Scheduler.hour := 12; Scheduler.minute := 0; Scheduler.second := 0;
     Scheduler.microsecond := 0 |}.

(** The text ["HH:MM"] of an hour and a minute, the format of
    [schedule_time]. *)
Definition hhmm (h m : Z) : string :=
  Scheduler.zero_padded 2 h "" +:+ ":" +:+ Scheduler.zero_padded 2 m "".

(** A date with its time of day set to [h]:[m]:00. *)
Definition at_time (t : Scheduler.datetime) (h m : Z) : Scheduler.datetime :=
  {| Scheduler.year := Scheduler.year t; Scheduler.month := Scheduler.month t;
     Scheduler.day := Scheduler.day t; Scheduler.hour := h; Scheduler.minute := m;
     Scheduler.second := 0; Scheduler.microsecond := 0 |}.

(** A daily job as [add_crawl_job] makes it with its default arguments. *)
Definition nightly_job : Scheduler.job :=
  {| Scheduler.id := 1; Scheduler.name := "nightly";
     Scheduler.seed_urls := ["https://a.test"];
     Scheduler.schedule_type := "daily"; Scheduler.schedule_time := "02:00";
     Scheduler.max_pages := 100; Scheduler.max_depth := 3;
     Scheduler.created_at := "2023-12-31T09:00:00";
     Scheduler.last_run := None; Scheduler.next_run := None;
     Scheduler.status := "running" |}.

Definition new_year_2024_10h : Scheduler.datetime :=
  {| Scheduler.year := 2024; Scheduler.month := 1; Scheduler.day := 1;
     Scheduler.hour := 10; Scheduler.minute := 0; Scheduler.second := 0;
     Scheduler.microsecond := 0 |}.

(** What holds of a crawler between two rounds of its loop: the pages
    collected are within the two limits, no two of them have the same
    URL, and their URLs are marked as visited. *)
Definition crawler_inv (c : Crawler.WebCrawler) : Prop :=
  (Z.of_nat (length (Crawler.crawled_pages c)) <= Crawler.max_pages c)%Z /\
  Forall (fun p => (Crawler.depth p <= Crawler.max_depth c)%Z) (Crawler.crawled_pages c) /\
  NoDup (map Crawler.url (Crawler.crawled_pages c)) /\
  (forall p, p ∈ Crawler.crawled_pages c -> Crawler.url p ∈ Crawler.visited_urls c).




(** A network with one page, which links to nothing. *)
Definition one_page_web : Crawler.internet :=
  fun _ u => if String.eqb u "https://a.test" then Crawler.Html "<title>A</title>" []
             else Crawler.Unreachable.

(** The page of that network as collected at the tick [t], and a crawler
    that has collected it under the limits 50 and 2. *)
Definition page_a (t : nat) : Crawler.page_data :=
  {| Crawler.url := "https://a.test"; Crawler.title := "";
     Crawler.content := "<title>A</title>"; Crawler.links := [];
     Crawler.depth := 0; Crawler.crawl_time := t |}.

Definition crawler_after (t : nat) : Crawler.WebCrawler :=
  {| Crawler.max_pages := 50; Crawler.delay := 1; Crawler.max_depth := 2;
     Crawler.visited_urls := {["https://a.test"]}; Crawler.url_queue := [];
     Crawler.crawled_pages := [page_a t] |}.

Definition one_page_world : Engine.world :=
  {| Engine.web := one_page_web;
     Engine.wall := fun _ => noon_2024;
     Engine.soup := fun _ => Some {| Engine.ex_title := "A";
                                     Engine.ex_meta_description := "";
                                     Engine.ex_content := "";
                                     Engine.ex_headings := [] |};
     Engine.commit_ok := fun _ => true |}.

(** The field-match score in the words of the specification: a term
    earns 10 when the whole field equals it, 5 when it occurs as a word
    between blanks, 2 when it occurs as a substring only, and 0 when it
    is absent, all on the lower-cased texts; the score of a field is the
    sum over the terms. *)
Definition space_bounded (term field : string) : bool :=
  PyStr.contains (" " +:+ term +:+ " ") (" " +:+ field +:+ " ").

Definition term_points (field term : string) : Z :=
  let f := PyStr.lower field in
  let t := PyStr.lower term in
  if String.eqb f t then 10%Z
  else if space_bounded t f then 5%Z
  else if PyStr.contains t f then 2%Z
  else 0%Z.

Definition field_match_spec (terms : list string) (field : string) : Z :=
  foldr (fun term total => (term_points field term + total)%Z) 0%Z terms.

(** A hit without text in its body, crawled at the epoch. *)
Definition epoch_hit : Ranking.hit :=
  {| Ranking.url := "https://a.test"; Ranking.title := "API";
     Ranking.content := ""; Ranking.meta_description := "";
     Ranking.headings := ""; Ranking.score := None;
     Ranking.content_length := 0; Ranking.crawl_time := Ranking.DateTime 0;
     Ranking.depth := 0 |}.

(** The same hit without a crawl time. *)
Definition undated_hit : Ranking.hit :=
  {| Ranking.url := "https://a.test"; Ranking.title := "API";
     Ranking.content := ""; Ranking.meta_description := "";
     Ranking.headings := ""; Ranking.score := None;
     Ranking.content_length := 0; Ranking.crawl_time := Ranking.NoTime;
     Ranking.depth := 0 |}.

(** The freshness score of the first result of a ranking. *)
Definition first_freshness (r : Ranking.result (list Ranking.ranked)) : option R :=
  match r with
  | Ranking.Ok (x :: _) => Some (Ranking.freshness_score (Ranking.score_breakdown x))
  | _ => None
  end.

End Scenario.

(* ===================================================================== *)
(** ** components/parser.py and components/query_engine.py: the texts *)
(* ===================================================================== *)

Module Texts.

(** [re.sub(r'\s+', ' ', text)]: every run of white space becomes one
    blank; [in_run] holds after a white space character. *)
Fixpoint collapse_spaces (in_run : bool) (text : string) : string :=
  match text with
  | EmptyString => EmptyString
  | String c rest =>
      if PyStr.isspace c then
        if in_run then collapse_spaces true rest
        else String " " (collapse_spaces true rest)
      else String c (collapse_spaces false rest)
  end.

(** [WebParser.clean_text] *)
Definition clean_text (text : string) : string :=
  Scheduler.strip (collapse_spaces false text).

(** The word characters of a pattern, below 256: the digits, letters
    and underscore of ASCII, and the letters and numbers from 170 on
    (the ordinal indicators 170 and 186, the superscripts 178, 179 and
    185, the micro sign 181, the fractions 188 to 190, and the letters
    192 to 255 without the signs 215 and 247). *)
Definition is_word_char (c : ascii) : bool :=
  let n := nat_of_ascii c in
  ((48 <=? n) && (n <=? 57)) || ((65 <=? n) && (n <=? 90))
  || ((97 <=? n) && (n <=? 122)) || (n =? 95)
  || existsb (Nat.eqb n) [170; 178; 179; 181; 185; 186; 188; 189; 190]
  || ((192 <=? n) && negb (n =? 215) && negb (n =? 247)).

(** The characters that the first pattern of [preprocess_query] leaves
    alone: the word characters, white space, the double and the single
    quote, and the operators plus, minus, star and the two
    parentheses. *)

Definition kept_in_query (c : ascii) : bool :=
  is_word_char c || PyStr.isspace c
  || existsb (Ascii.eqb c) [ascii_of_nat 34; "'"; "+"; "-"; "*"; "("; ")"]%char.

Fixpoint blank_out (query_string : string) : string :=
  match query_string with
  | EmptyString => EmptyString
  | String c rest => String (if kept_in_query c then c else " "%char) (blank_out rest)
  end.

(** [QueryEngine.preprocess_query] *)
Definition preprocess_query (query_string : string) : string :=
  Scheduler.strip (collapse_spaces false (blank_out query_string)).

(** The ['content'] of a formatted result:
    [content[:300] + '...' if len(content) > 300 else content]. *)
Definition snippet (body : string) : string :=
  if (300 <? String.length body)%nat then Scheduler.slice_to 300 body +:+ "..."
  else body.

End Texts.

(* ===================================================================== *)
(** ** [QueryEngine.search] and [SearchEngine.search] *)
(* ===================================================================== *)

Module Search.

(** The Whoosh searcher, for the default fields: for a cleaned query and
    a limit, the stored documents it finds with their relevance, or
    [None] when parsing the query or searching raises. *)
Definition searcher : Type := string -> Z -> option (list (Indexer.document * R)).

(** One entry of [formatted_results].  The dictionary has no key
    ['headings']. *)
Definition format_result (found : Indexer.document * R) : Ranking.hit :=
  let (d, relevance) := found in
  {| Ranking.url := Indexer.doc_url d;
     Ranking.title := Indexer.doc_title d;
     Ranking.content := Texts.snippet (Indexer.doc_content d);
     Ranking.meta_description := Indexer.doc_meta_description d;
     Ranking.headings := "";
     Ranking.score := Some relevance;
     Ranking.content_length := Indexer.doc_content_length d;
     Ranking.crawl_time := Ranking.DateTime (IZR (Indexer.doc_crawl_time d));
     Ranking.depth := Indexer.doc_depth d |}.

(** [QueryEngine.search] with [fields=None]; every exception ends in the
    empty list. *)
Definition query_search (whoosh : searcher) (query_string : string) (limit : Z)
  : list Ranking.hit :=
  let clean_query := Texts.preprocess_query query_string in
  if PyStr.truthy clean_query then
    match whoosh clean_query limit with
    | Some results => map format_result results
    | None => []
    end
  else [].

(** [results[:limit]] *)
Definition slice_to {A : Type} (limit : Z) (l : list A) : list A :=
  if (0 <=? limit)%Z then take (Z.to_nat limit) l
  else take (length l - Z.to_nat (- limit)) l.

(** A result of [SearchEngine.search]: a formatted hit, with the ranking
    stored in it when ranking is enabled. *)
Inductive search_result : Type :=
| Unranked (h : Ranking.hit)
| Ranked (r : Ranking.ranked).

(** [SearchEngine.search].  [w] is [self.ranking.weights] and [now] the
    clock that [rank_results] reads. *)
Definition search (whoosh : searcher) (w : gmap string R) (now : R)
    (query_string : string) (limit : Z) (enable_ranking : bool) : list search_result :=
  match query_search whoosh query_string (limit * 2) with
  | [] => []
  | (_ :: _) as results =>
      if enable_ranking then
        match Ranking.rank_results w now results query_string with
        | Ranking.Ok ranked_results => slice_to limit (map Ranked ranked_results)
        | Ranking.Raise _ => []
        end
      else slice_to limit (map Unranked results)
  end.

End Search.

(* ===================================================================== *)
(** ** Definitions used in the further properties *)
(* ===================================================================== *)

Module Cases.

(** A job list that was only ever added to: the ids count up from 1. *)
Definition sequential (jobs : list Scheduler.job) : Prop :=
  map Scheduler.id jobs = map Z.of_nat (seq 1 (length jobs)).

(** The fields of a job that [update_job_status] never writes. *)
Definition fixed_fields (j : Scheduler.job)
  : Z * string * list string * string * string * Z * Z * string :=
  (Scheduler.id j, Scheduler.name j, Scheduler.seed_urls j, Scheduler.schedule_type j,
   Scheduler.schedule_time j, Scheduler.max_pages j, Scheduler.max_depth j,
   Scheduler.created_at j).

(** A weekly job, as the web form adds one. *)
Definition weekly_job : Scheduler.job :=
  {| Scheduler.id := 1; Scheduler.name := "weekly";
     Scheduler.seed_urls := ["https://a.test"];
     Scheduler.schedule_type := "weekly"; Scheduler.schedule_time := "02:00";
     Scheduler.max_pages := 100; Scheduler.max_depth := 3;
     Scheduler.created_at := "2023-12-31T09:00:00";
     Scheduler.last_run := None; Scheduler.next_run := None;
     Scheduler.status := "running" |}.

(** A daily job whose time of day is no time of day. *)
Definition late_job : Scheduler.job :=
  {| Scheduler.id := 1; Scheduler.name := "late";
     Scheduler.seed_urls := ["https://a.test"];
     Scheduler.schedule_type := "daily"; Scheduler.schedule_time := "24:00";
     Scheduler.max_pages := 100; Scheduler.max_depth := 3;
     Scheduler.created_at := "2023-12-31T09:00:00";
     Scheduler.last_run := None; Scheduler.next_run := None;
     Scheduler.status := "running" |}.

(** Where a URL at a depth can come from in a run on the seeds [seeds]
    that has collected [pages]: it is a seed, at depth 0, or a link of a
    collected page, one level below that page. *)
Definition reached (seeds : list string) (pages : list Crawler.page_data)
    (u : string) (d : Z) : Prop :=
  (d = 0%Z /\ u ∈ seeds) \/
  (exists q, q ∈ pages /\ u ∈ Crawler.links q /\ d = (Crawler.depth q + 1)%Z).

(** What the loop of [crawl] keeps about provenance: the entries of the
    queue and the pages collected are at depth 0 or more and reached
    through the pages collected so far. *)
Definition reach_inv (seeds : list string) (c : Crawler.WebCrawler) : Prop :=
  Forall (fun e => (0 <= snd e)%Z /\
                   reached seeds (Crawler.crawled_pages c) (fst e) (snd e))
         (Crawler.url_queue c) /\
  Forall (fun p => (0 <= Crawler.depth p)%Z /\
                   reached seeds (Crawler.crawled_pages c) (Crawler.url p) (Crawler.depth p))
         (Crawler.crawled_pages c).

(** What the loop keeps about the order: the depths of the pages
    collected and of the queue behind them never go down, and the queue
    spans two levels at most. *)
Definition bfs_inv (c : Crawler.WebCrawler) : Prop :=
  let cs := map Crawler.depth (Crawler.crawled_pages c) in
  let ds := map snd (Crawler.url_queue c) in
  StronglySorted Z.le cs /\ StronglySorted Z.le ds /\
  (forall x y, x ∈ cs -> y ∈ ds -> (x <= y)%Z) /\
  (forall x y, x ∈ ds -> y ∈ ds -> (x <= y + 1)%Z).





(** The names [rank_results] looks up in the weights. *)
Definition weight_names : list string :=
  ["title_match"; "content_match"; "meta_description_match"; "heading_match";
   "url_match"; "freshness"; "content_length"; "depth_penalty"].

(** A body text that is not empty and has no word in it. *)
Definition blank (s : string) : bool :=
  PyStr.truthy s && bool_decide (PyStr.split s = []).

(** [s.rstrip()], the second half of [s.strip()]. *)
Definition rstrip (s : string) : string :=
  String.rev (Scheduler.lstrip (String.rev s)).

(** A word: a string that is not empty and has no white space in it. *)
Fixpoint no_space (s : string) : bool :=
  match s with
  | EmptyString => true
  | String c rest => negb (PyStr.isspace c) && no_space rest
  end.

Definition is_word (s : string) : bool := PyStr.truthy s && no_space s.

(** A stored document with a cleaned body. *)
Definition page_doc : Indexer.document :=
  {| Indexer.doc_url := "https://a.test";
     Indexer.doc_title := "Web page";
     Indexer.doc_content := "A web page about search";
     Indexer.doc_meta_description := "";
     Indexer.doc_headings := "Search";
     Indexer.doc_content_length := 23;
     Indexer.doc_crawl_time := 0;
     Indexer.doc_depth := 0 |}.

(** An ASCII character that [preprocess_query] replaces by a blank. *)
Definition punctuation (c : ascii) : bool :=
  (nat_of_ascii c <? 128)%nat && negb (Texts.kept_in_query c).

(** The formatted hit inside a result of [SearchEngine.search]. *)
Definition hit_of (res : Search.search_result) : Ranking.hit :=
  match res with
  | Search.Unranked h => h
  | Search.Ranked r => Ranking.ranked_hit r
  end.

(** Two ranked results with the scores 1 and 2, and one more with 2. *)
Definition ranked_with (u : string) (x : R) : Ranking.ranked :=
  {| Ranking.ranked_hit :=
       {| Ranking.url := u; Ranking.title := ""; Ranking.content := "";
          Ranking.meta_description := ""; Ranking.headings := ""; Ranking.score := None;
          Ranking.content_length := 0; Ranking.crawl_time := Ranking.NoTime;
          Ranking.depth := 0 |};
     Ranking.ranking_score := x;
     Ranking.score_breakdown :=
       {| Ranking.title_score := 0; Ranking.content_score := 0; Ranking.meta_score := 0;
          Ranking.heading_score := 0; Ranking.url_score := 0; Ranking.freshness_score := 0;
          Ranking.content_length_score := 0; Ranking.depth_penalty := 0 |} |}.

(** Weights in which every name that is looked up has a value. *)
Definition has_weights (w : gmap string R) : Prop :=
  Forall (fun k => is_Some (w !! k)) weight_names.

(** A hit that is ranked at the clock reading [now] without leaving the
    doubles: its depth has 32 signed bits, as the depths in the index
    have, and its crawl time, when it has one, is not later than
    [now]. *)
Definition rankable_at (now : R) (h : Ranking.hit) : Prop :=
  Indexer.int32 (Ranking.depth h) = true /\
  match Ranking.stamp_seconds (Ranking.crawl_time h) with
  | Some t => (t <= now)%R
  | None => True
  end.

(** A document as a crawl before the clock reading [now] left it in the
    index: its body is a text the parser cleaned, its depth has the 32
    signed bits the schema takes, and its crawl time is not later than
    [now]. *)
Definition crawled_by (now : R) (d : Indexer.document) : Prop :=
  (exists raw, Indexer.doc_content d = Texts.clean_text raw) /\
  Indexer.int32 (Indexer.doc_depth d) = true /\
  (IZR (Indexer.doc_crawl_time d) <= now)%R.

(** A hit whose body is one blank. *)
Definition blank_hit : Ranking.hit :=
  {| Ranking.url := "https://a.test"; Ranking.title := "API";
     Ranking.content := " "; Ranking.meta_description := "";
     Ranking.headings := ""; Ranking.score := None;
     Ranking.content_length := 1; Ranking.crawl_time := Ranking.NoTime;
     Ranking.depth := 0 |}.

End Cases.

(* ===================================================================== *)
(** * Properties *)
(* ===================================================================== *)

(** ** Checks of the string methods on small inputs *)

Example lower_mixed : PyStr.lower "Rocq API v2" = "rocq api v2".
Proof. reflexivity. Qed.

Example find_second : PyStr.find "ab" "xxabab" = Some 2%nat.
Proof. reflexivity. Qed.

Example count_overlap : PyStr.count "aa" "aaaaa" = 2%nat.
Proof. reflexivity. Qed.

Example count_empty : PyStr.count "" "abc" = 4%nat.
Proof. reflexivity. Qed.

Example split_blanks : PyStr.split "  web  search engine " = ["web"; "search"; "engine"].
Proof. reflexivity. Qed.

Example int_of_str_forms :
  (Scheduler.int_of_str "02", Scheduler.int_of_str " +1_0 ", Scheduler.int_of_str "2:",
   Scheduler.int_of_str "-7") = (Some 2%Z, Some 10%Z, None, Some (-7)%Z).
Proof. reflexivity. Qed.

(* ===================================================================== *)
(** ** The index store *)
(* ===================================================================== *)

Section IndexerFacts.

Import Indexer Scenario.

Lemma records_for_app u ix1 ix2 :
  records_for u (ix1 ++ ix2) = (records_for u ix1 + records_for u ix2)%nat.
Proof. unfold records_for. by rewrite List.filter_app, length_app. Qed.

(** The buffered additions only grow, and nothing else of the writer
    changes, while a batch is added. *)
Lemma add_document_segment w p :
  segment (add_document w p) = segment w /\ deleted (add_document w p) = deleted w.
Proof. unfold add_document. by destruct (build_document p). Qed.

Lemma fold_add_document_segment pages w :
  segment (fold_left add_document pages w) = segment w /\
  deleted (fold_left add_document pages w) = deleted w.
Proof.
  revert w. induction pages as [|p pages IH]; intros w; simpl; [done|].
  destruct (IH (add_document w p)) as [-> ->]. apply add_document_segment.
Qed.

Lemma fold_add_document_added pages w :
  added (fold_left add_document pages w) = added w ++ built pages.
Proof.
  revert w. induction pages as [|p pages IH]; intros w; simpl.
  - by rewrite app_nil_r.
  - rewrite IH. unfold add_document. destruct (build_document p); simpl; [done|].
    by rewrite <- app_assoc.
Qed.

(** With a commit that goes through, [index_pages] keeps every committed
    document and appends whatever could be built, and it returns
    normally whether or not some page of the batch failed. *)
Lemma index_pages_commit ix pages :
  index_pages true ix pages = (ix ++ built pages, Returned).
Proof.
  unfold index_pages, commit.
  destruct (fold_add_document_segment pages (open_writer ix)) as [Hs Hd].
  rewrite Hs, fold_add_document_added. simpl. f_equal. f_equal.
  unfold is_deleted. rewrite Hd. simpl. clear.
  induction ix as [|d ix IH]; simpl; [done|]. by rewrite IH.
Qed.

(** A failed commit is the one event that cancels the batch. *)
Lemma index_pages_cancel ix pages :
  index_pages false ix pages = (ix, Raised CommitError).
Proof.
  unfold index_pages, cancel.
  by destruct (fold_add_document_segment pages (open_writer ix)) as [-> _].
Qed.

Lemma records_for_deleted u ix :
  records_for u (List.filter (fun d => negb (is_deleted (delete_by_term (open_writer ix) u) d)) ix) = 0%nat.
Proof.
  unfold records_for, is_deleted. simpl.
  induction ix as [|d ix IH]; [done|].
  cbn [List.filter existsb].
  destruct (String.eqb_spec (doc_url d) u) as [Heq|Hne]; cbn [orb negb]; [done|].
  cbn [List.filter length].
  destruct (String.eqb_spec (doc_url d) u); [done|]. done.
Qed.

(** [update_document] on a page that can be built leaves one record for
    its URL, whatever the index held for it before. *)
Lemma update_document_one_record ix p u d :
  url p = Some u -> build_document p = inr d ->
  records_for u (fst (update_document true ix p)) = 1%nat.
Proof.
  intros Hu Hb. unfold update_document. rewrite Hu. simpl.
  unfold commit, add_document. rewrite Hb. simpl.
  rewrite records_for_app.
  change (segment (open_writer ix)) with ix.
  pose proof (records_for_deleted u ix) as Hdel.
  unfold is_deleted in *. simpl in *. rewrite Hdel.
  unfold records_for. simpl.
  assert (doc_url d = u) as ->.
  { unfold build_document in Hb. destruct (fromtimestamp _); [|done].
    rewrite Hu in Hb. destruct (int32 _ && int32 _); [|done]. by inversion Hb. }
  by rewrite String.eqb_refl.
Qed.

(** [index_pages] on the same page adds a record next to the ones the
    index holds for the URL. *)
Lemma index_pages_adds_record ix p u d :
  url p = Some u -> build_document p = inr d ->
  records_for u (fst (index_pages true ix [p])) = S (records_for u ix).
Proof.
  intros Hu Hb. rewrite index_pages_commit. simpl. rewrite Hb.
  rewrite records_for_app. unfold records_for at 2. simpl.
  assert (doc_url d = u) as ->.
  { unfold build_document in Hb. destruct (fromtimestamp _); [|done].
    rewrite Hu in Hb. destruct (int32 _ && int32 _); [|done]. by inversion Hb. }
  rewrite String.eqb_refl. simpl. lia.
Qed.

(** C1: re-indexing a URL through [index_pages].  The index holds the
    page of ["https://a.test"]; the same page is indexed again as a batch
    of one.  The batch is committed without any deletion, and the index
    then holds two records for the URL, where [update_document] on the
    same input leaves one. *)
Theorem index_pages_duplicates_url :
  let d := page_at "https://a.test" "hello" 1700000000 in
  let ix := fst (index_pages true [] [d]) in
  records_for "https://a.test" ix = 1%nat /\
  records_for "https://a.test" (fst (index_pages true ix [d])) = 2%nat /\
  records_for "https://a.test" (fst (update_document true ix d)) = 1%nat.
Proof. vm_compute. done. Qed.

(** C3: a batch in which one page cannot be added.  The second page has
    no ['url'] key, so adding it raises inside [add_document], where the
    exception is caught and logged; [index_pages] commits the first page
    and returns normally: no roll-back, and no error for the caller. *)
Theorem index_pages_partial_commit :
  let good := page_at "https://a.test" "hello" 1700000000 in
  let bad := page_without_url "world" in
  build_document bad = inl (KeyError "url") /\
  snd (index_pages true [] [good; bad]) = Returned /\
  records_for "https://a.test" (fst (index_pages true [] [good; bad])) = 1%nat /\
  fst (index_pages true [] [good; bad]) <> [].
Proof. vm_compute. done. Qed.

End IndexerFacts.

(* ===================================================================== *)
(** ** The job scheduler *)
(* ===================================================================== *)

Section SchedulerFacts.

Import Scheduler Scenario.
Local Open Scope Z_scope.

(** The id handed out depends on the length of the list alone. *)
Lemma add_crawl_job_id now jobs name seeds ty time pages depth_limit :
  snd (add_crawl_job now jobs name seeds ty time pages depth_limit)
  = Z.of_nat (length jobs) + 1.
Proof. reflexivity. Qed.

Lemma add_crawl_job_jobs now jobs name seeds ty time pages depth_limit :
  map id (fst (add_crawl_job now jobs name seeds ty time pages depth_limit))
  = map id jobs ++ [Z.of_nat (length jobs) + 1].
Proof. unfold add_crawl_job. simpl. by rewrite map_app. Qed.

(** Without removals the ids are 1, 2, 3, ... in the order of the list,
    so a list that was only ever added to has distinct ids. *)
Lemma add_crawl_job_sequential now jobs name seeds ty time pages depth_limit :
  map id jobs = map Z.of_nat (seq 1 (length jobs)) ->
  let jobs' := fst (add_crawl_job now jobs name seeds ty time pages depth_limit) in
  map id jobs' = map Z.of_nat (seq 1 (length jobs')).
Proof.
  intros H. simpl. rewrite !map_app, length_app, H. simpl.
  rewrite Nat.add_1_r, seq_S, map_app. simpl. do 2 f_equal. lia.
Qed.

(** C4: job ids after a removal.  Two jobs are added (ids 1 and 2), job 1
    is removed, and a third job is added: it gets [len(crawl_jobs) + 1],
    which is 2 again.  The list then holds two jobs with id 2, and the id
    returned is not greater than the one handed out before. *)
Theorem add_crawl_job_reuses_id :
  let add jobs n := add_crawl_job noon_2024 jobs n ["https://a.test"] "daily" "02:00" 100 3 in
  let '(jobs1, id1) := add [] "first" in
  let '(jobs2, id2) := add jobs1 "second" in
  let jobs3 := remove_crawl_job jobs2 id1 in
  let '(jobs4, id3) := add jobs3 "third" in
  id1 = 1 /\ id2 = 2 /\ id3 = 2 /\ map id jobs4 = [2; 2] /\ ~ NoDup (map id jobs4).
Proof.
  vm_compute. repeat split; try reflexivity.
  intros H. apply NoDup_cons_1_1 in H. apply H. left.
Qed.

(** *** Dates *)

Example plus_one_day_cases :
  let date y m d := {| year := y; month := m; day := d; hour := 10; minute := 30;
                       second := 0; microsecond := 0 |} in
  plus_one_day (date 2024 2 28) = Some (date 2024 2 29) /\
  plus_one_day (date 2024 2 29) = Some (date 2024 3 1) /\
  plus_one_day (date 1900 2 28) = Some (date 1900 3 1) /\
  plus_one_day (date 2023 12 31) = Some (date 2024 1 1) /\
  plus_one_day (date 9999 12 31) = None.
Proof. repeat split. Qed.

Example isoformat_cases :
  isoformat {| year := 987; month := 6; day := 5; hour := 4; minute := 3; second := 2;
               microsecond := 0 |} = "0987-06-05T04:03:02" /\
  isoformat {| year := 2024; month := 1; day := 1; hour := 10; minute := 0; second := 0;
               microsecond := 120 |} = "2024-01-01T10:00:00.000120".
Proof. split; reflexivity. Qed.

(** A malformed time of day makes the [try] block raise: the job stays
    ['completed'] and keeps its [next_run]. *)
Example update_job_malformed_time :
  let j := update_job new_year_2024_10h
             {| id := 1; name := "n"; seed_urls := []; schedule_type := "daily";
                schedule_time := "2:00"; max_pages := 1; max_depth := 1;
                created_at := ""; last_run := None; next_run := None;
                status := "running" |} "completed" None None in
  status j = "completed" /\ Scheduler.next_run j = None.
Proof. split; reflexivity. Qed.

(** *** Completing a daily job *)

Lemma int_of_str_two_digits a b :
  0 <= a <= 9 -> 0 <= b <= 9 ->
  int_of_str (String (digit a) (String (digit b) "")) = Some (10 * a + b).
Proof.
  intros Ha Hb.
  assert (a = 0 \/ a = 1 \/ a = 2 \/ a = 3 \/ a = 4 \/ a = 5 \/ a = 6 \/ a = 7 \/
          a = 8 \/ a = 9) as Ea by lia.
  assert (b = 0 \/ b = 1 \/ b = 2 \/ b = 3 \/ b = 4 \/ b = 5 \/ b = 6 \/ b = 7 \/
          b = 8 \/ b = 9) as Eb by lia.
  clear Ha Hb.
  repeat (destruct Ea as [->|Ea]); try subst a;
    repeat (destruct Eb as [->|Eb]); try subst b; reflexivity.
Qed.

Lemma zero_padded_2 n :
  zero_padded 2 n "" = String (digit (n / 10 mod 10)) (String (digit (n mod 10)) "").
Proof. reflexivity. Qed.

Lemma int_of_str_zero_padded_2 n :
  0 <= n <= 99 -> int_of_str (zero_padded 2 n "") = Some n.
Proof.
  intros Hn. rewrite zero_padded_2.
  assert (n / 10 mod 10 = n / 10) as ->.
  { apply Z.mod_small. split; [apply Z.div_pos; lia | apply Z.div_lt_upper_bound; lia]. }
  rewrite int_of_str_two_digits.
  - f_equal. pose proof (Z.div_mod n 10). lia.
  - assert (n / 10 < 10) by (apply Z.div_lt_upper_bound; lia).
    split; [apply Z.div_pos; lia | lia].
  - pose proof (Z.mod_pos_bound n 10). lia.
Qed.

Lemma hhmm_slices h m :
  slice_to 2 (hhmm h m) = zero_padded 2 h "" /\
  slice_from 3 (hhmm h m) = zero_padded 2 m "".
Proof. unfold hhmm. rewrite !zero_padded_2. split; reflexivity. Qed.

(** The [try] block of [update_job_status] goes through for a time of
    day written as ["HH:MM"], unless tomorrow is past the last date. *)
Lemma daily_next_run_hhmm now tomorrow h m :
  plus_one_day now = Some tomorrow ->
  0 <= h <= 23 -> 0 <= m <= 59 ->
  daily_next_run now (hhmm h m) = Some (at_time tomorrow h m).
Proof.
  intros Ht Hh Hm. unfold daily_next_run.
  destruct (hhmm_slices h m) as [Eh Em].
  rewrite Ht. cbn [mbind option_bind].
  rewrite Eh, int_of_str_zero_padded_2 by lia. cbn [mbind option_bind].
  rewrite Em, int_of_str_zero_padded_2 by lia. cbn [mbind option_bind].
  unfold replace_time, at_time.
  destruct (Z.leb_spec 0 h), (Z.leb_spec h 23), (Z.leb_spec 0 m), (Z.leb_spec m 59);
    try lia.
  reflexivity.
Qed.

(** The loop of [update_job_status] stops at the first job with the id. *)
Lemma update_job_status_first now pre j post job_id st lr nr :
  Forall (fun j' => id j' <> job_id) pre -> id j = job_id ->
  update_job_status now (pre ++ j :: post) job_id st lr nr
  = pre ++ update_job now j st lr nr :: post.
Proof.
  intros Hpre Hj. induction Hpre as [|j' pre Hne _ IH]; simpl.
  - destruct (Z.eqb_spec (id j) job_id); [done|contradiction].
  - destruct (Z.eqb_spec (id j') job_id); [contradiction|]. by rewrite IH.
Qed.

(** C8: completing a daily job.  [crawl_jobs] holds the job [j], no job
    before it has its id, its [schedule_type] is ["daily"] and its
    [schedule_time] is the text ["HH:MM"] of an hour [h] and a minute [m].
    [update_job_status(id, 'completed')], called at [now] with no
    [next_run] (absent or empty), leaves every other job as it was and
    gives [j] the status ['scheduled'] and, as [next_run], the ISO text
    of the day after [now] at [h]:[m]:00; [last_run] is overwritten when
    one is passed. *)
Theorem update_job_status_daily_completed
    (now tomorrow : datetime) (pre post : list job) (j : job) (h m : Z)
    (last_run next_run : option string) :
  Forall (fun j' => id j' <> id j) pre ->
  schedule_type j = "daily" ->
  schedule_time j = hhmm h m -> 0 <= h <= 23 -> 0 <= m <= 59 ->
  plus_one_day now = Some tomorrow ->
  given next_run = None ->
  exists j',
    update_job_status now (pre ++ j :: post) (id j) "completed" last_run next_run
    = pre ++ j' :: post /\
    status j' = "scheduled" /\
    Scheduler.next_run j' = Some (isoformat (at_time tomorrow h m)) /\
    Scheduler.last_run j' = match given last_run with
                            | Some t => Some t
                            | None => Scheduler.last_run j
                            end /\
    (id j', name j', seed_urls j', schedule_type j', schedule_time j',
     max_pages j', max_depth j', created_at j')
    = (id j, name j, seed_urls j, schedule_type j, schedule_time j,
       max_pages j, max_depth j, created_at j).
Proof.
  intros Hpre Hty Htime Hh Hm Htom Hnr.
  eexists. split.
  { apply update_job_status_first; [exact Hpre|reflexivity]. }
  unfold update_job. rewrite Hnr.
  destruct (given last_run) as [t|]; simpl; rewrite Hty, Htime; simpl;
    rewrite (daily_next_run_hhmm now tomorrow h m Htom Hh Hm); simpl; by rewrite ?Hty, ?Htime.
Qed.

(** The scenario of the specification: completed at 2024-01-01T10:00:00,
    a job scheduled for 02:00 is due again at 2024-01-02T02:00:00. *)
Lemma update_job_status_daily_completed_scenario :
  exists j',
    update_job_status new_year_2024_10h ([] ++ nightly_job :: []) (id nightly_job)
      "completed" None None = [] ++ j' :: [] /\
    status j' = "scheduled" /\
    Scheduler.next_run j' = Some "2024-01-02T02:00:00".
Proof.
  destruct (update_job_status_daily_completed new_year_2024_10h
              {| year := 2024; month := 1; day := 2; hour := 10; minute := 0;
                 second := 0; microsecond := 0 |}
              [] [] nightly_job 2 0 None None)
    as (j' & H1 & H2 & H3 & _).
  - constructor.
  - reflexivity.
  - reflexivity.
  - lia.
  - lia.
  - reflexivity.
  - reflexivity.
  - exists j'. split; [exact H1|]. split; [exact H2|]. exact H3.
Defined.

End SchedulerFacts.

(* ===================================================================== *)
(** ** The ranking weights *)
(* ===================================================================== *)

Section WeightFacts.

Import Ranking.

(** The eight documented names are the keys of the initial dictionary. *)
Lemma initial_weights_keys :
  dom initial_weights =
  ({["title_match"; "content_match"; "meta_description_match"; "heading_match";
     "url_match"; "freshness"; "content_length"; "depth_penalty"]} : gset string).
Proof. unfold initial_weights. rewrite !dom_insert_L, dom_empty_L. set_solver. Qed.

(** No update removes a key, so the weights [rank_results] reads stay
    defined. *)
Lemma update_weights_keeps_keys (w new_weights : weights) :
  dom w ⊆ dom (update_weights w new_weights).
Proof. unfold update_weights. rewrite dom_union_L. set_solver. Qed.

Lemma lookup_update_weights (w new_weights : weights) (key : string) :
  update_weights w new_weights !! key =
  match new_weights !! key with
  | Some v => Some v
  | None => w !! key
  end.
Proof.
  unfold update_weights. rewrite lookup_union.
  destruct (new_weights !! key), (w !! key); reflexivity.
Qed.

(** A key outside the documented names is stored like any other. *)
Example update_weights_unknown_key :
  get_weights (update_weights initial_weights {["page_rank" := 7%R]}) !! "page_rank"
  = Some 7%R /\
  get_weights (update_weights initial_weights {["page_rank" := 7%R]}) !! "title_match"
  = Some 3%R.
Proof.
  unfold get_weights. rewrite !lookup_update_weights. split.
  - by rewrite lookup_singleton_eq.
  - rewrite lookup_singleton_ne by done. reflexivity.
Qed.

(** C10: [update_weights] followed by [get_weights].  Whatever
    dictionary is passed, each of its keys, documented or not, is read
    back with the value passed, and every other key reads as before the
    update; both methods are total, so no key makes them fail. *)
Theorem update_weights_get_weights (w new_weights : weights) (key : string) :
  get_weights (update_weights w new_weights) !! key =
  match new_weights !! key with
  | Some v => Some v
  | None => w !! key
  end.
Proof. unfold get_weights. apply lookup_update_weights. Qed.

End WeightFacts.

(* ===================================================================== *)
(** ** The content-length score *)
(* ===================================================================== *)

Section LengthFacts.

Import Ranking.
Local Open Scope R_scope.

Lemma length_score_short (L : Z) :
  (0 < L < 100)%Z -> calculate_content_length_score L = 1 / 10.
Proof.
  intros H. unfold calculate_content_length_score.
  destruct (Z.eqb_spec L 0); [lia|].
  destruct (Z.ltb_spec L 100); [reflexivity|lia].
Qed.

Lemma length_score_long (L : Z) :
  (10000 < L)%Z -> calculate_content_length_score L = 3 / 10.
Proof.
  intros H. unfold calculate_content_length_score.
  destruct (Z.eqb_spec L 0); [lia|].
  destruct (Z.ltb_spec L 100); [lia|].
  destruct (Z.ltb_spec 10000 L); [reflexivity|lia].
Qed.

(** In between, the score is a bell curve in the distance to 1500. *)
Lemma length_score_bell (L : Z) :
  (100 <= L <= 10000)%Z ->
  calculate_content_length_score L
  = exp (- (IZR (Z.abs (L - 1500))) ^ 2 / (2 * 750 ^ 2)).
Proof.
  intros H. unfold calculate_content_length_score, optimal_length.
  destruct (Z.eqb_spec L 0); [lia|].
  destruct (Z.ltb_spec L 100); [lia|].
  destruct (Z.ltb_spec 10000 L); [lia|].
  f_equal. rewrite Z.pow_2_r, mult_IZR. field.
Qed.

Lemma length_score_gaussian (L : Z) :
  (100 <= L <= 10000)%Z ->
  calculate_content_length_score L = exp (- (IZR L - 1500) ^ 2 / (2 * 750 ^ 2)).
Proof.
  intros H. rewrite length_score_bell by exact H. f_equal. f_equal. f_equal.
  rewrite abs_IZR, minus_IZR. rewrite <- Rsqr_pow2, <- Rsqr_abs, Rsqr_pow2. reflexivity.
Qed.

Lemma length_score_decreasing (L1 L2 : Z) :
  (100 <= L1 <= 10000)%Z -> (100 <= L2 <= 10000)%Z ->
  (Z.abs (L1 - 1500) < Z.abs (L2 - 1500))%Z ->
  calculate_content_length_score L2 < calculate_content_length_score L1.
Proof.
  intros H1 H2 Hlt. rewrite !length_score_bell by assumption.
  apply exp_increasing.
  assert (0 <= IZR (Z.abs (L1 - 1500))) as Ha by (apply IZR_le; lia).
  assert (IZR (Z.abs (L1 - 1500)) < IZR (Z.abs (L2 - 1500))) as Hb by (apply IZR_lt; lia).
  set (a := IZR (Z.abs (L1 - 1500))) in *. set (b := IZR (Z.abs (L2 - 1500))) in *.
  assert (a ^ 2 < b ^ 2) by nra.
  unfold Rdiv. apply Rmult_lt_compat_r; [|lra].
  apply Rinv_0_lt_compat. lra.
Qed.

(** C6 as the code has it: what the claim says holds for every positive
    length, and the length 0 scores 0. *)
Theorem content_length_score_cases (L L' : Z) :
  (0 < L)%Z ->
  ((L < 100)%Z -> calculate_content_length_score L = 1 / 10) /\
  ((10000 < L)%Z -> calculate_content_length_score L = 3 / 10) /\
  ((100 <= L <= 10000)%Z ->
     calculate_content_length_score L = exp (- (IZR L - 1500) ^ 2 / (2 * 750 ^ 2))) /\
  calculate_content_length_score 1500 = 1 /\
  ((100 <= L <= 10000)%Z -> (100 <= L' <= 10000)%Z ->
     (Z.abs (L - 1500) < Z.abs (L' - 1500))%Z ->
     calculate_content_length_score L' < calculate_content_length_score L) /\
  calculate_content_length_score 0 = 0.
Proof.
  intros Hpos. repeat split.
  - intros H. apply length_score_short. lia.
  - apply length_score_long.
  - apply length_score_gaussian.
  - rewrite length_score_gaussian by lia.
    replace (- (1500 - 1500) ^ 2 / (2 * 750 ^ 2)) with 0 by field. apply exp_0.
  - apply length_score_decreasing.
Qed.

Lemma content_length_score_cases_at_1200 :
  (0 < 1200)%Z /\
  calculate_content_length_score 1200 = exp (- (1200 - 1500) ^ 2 / (2 * 750 ^ 2)) /\
  calculate_content_length_score 2000 < calculate_content_length_score 1200.
Proof.
  destruct (content_length_score_cases 1200 2000) as (_ & _ & H3 & _ & H5 & _); [lia|].
  split; [lia|]. split.
  - apply H3. lia.
  - apply H5; lia.
Defined.

(** C6 at the length 0: it is non-negative and below 100, and the guard
    [if not content_length] gives it the score 0, not 0.1. *)
Lemma content_length_score_zero :
  ~ (forall L : Z, (0 <= L)%Z -> (L < 100)%Z ->
       calculate_content_length_score L = 1 / 10).
Proof.
  intros H. specialize (H 0%Z ltac:(lia) ltac:(lia)).
  unfold calculate_content_length_score in H. simpl in H. lra.
Qed.

End LengthFacts.

(* ===================================================================== *)
(** ** The field-match score *)
(* ===================================================================== *)

Section StringFacts.

Import PyStr.

Lemma append_cons (c : ascii) (s t : string) : String c s +:+ t = String c (s +:+ t).
Proof. reflexivity. Qed.

Lemma append_nil_r (s : string) : s +:+ "" = s.
Proof. induction s as [|c s IH]; [done|]. rewrite append_cons. by f_equal. Qed.

Lemma append_assoc (a b c : string) : (a +:+ b) +:+ c = a +:+ b +:+ c.
Proof. induction a as [|x a IH]; [done|]. rewrite !append_cons. by f_equal. Qed.

Lemma length_append (a b : string) :
  String.length (a +:+ b) = (String.length a + String.length b)%nat.
Proof.
  induction a as [|x a IH]; [done|]. rewrite append_cons. simpl. by f_equal.
Qed.

Lemma length_lower (s : string) : String.length (lower s) = String.length s.
Proof. induction s as [|c s IH]; [done|]. cbn [lower String.length]. by f_equal. Qed.

Lemma lower_empty (s : string) : lower s = "" -> s = "".
Proof. by destruct s. Qed.

(** [startswith] and [in] as decompositions of the text. *)
Lemma startswith_iff (p s : string) :
  startswith p s = true <-> exists t, s = p +:+ t.
Proof.
  revert s. induction p as [|a p IH]; intros s; simpl.
  - split; [intros _; by exists s|done].
  - destruct s as [|b s].
    + split; [done|]. by intros [t Ht].
    + destruct (Ascii.eqb_spec a b) as [->|Hne].
      * rewrite IH. split; intros [t Ht]; exists t; [by rewrite Ht|by inversion Ht].
      * split; [done|]. intros [t Ht]. by inversion Ht.
Qed.

Lemma find_unfold (sub s : string) :
  find sub s =
  if startswith sub s then Some 0%nat
  else match s with
       | EmptyString => None
       | String _ s' => match find sub s' with
                        | Some i => Some (S i)
                        | None => None
                        end
       end.
Proof. by destruct s. Qed.

Lemma contains_iff (sub s : string) :
  contains sub s = true <-> exists pre post, s = pre +:+ sub +:+ post.
Proof.
  unfold contains. split.
  - induction s as [|c s IH]; simpl.
    + destruct (startswith sub "") eqn:E; [|done].
      apply startswith_iff in E as [t Ht]. intros _. by exists "", t.
    + destruct (startswith sub (String c s)) eqn:E.
      * apply startswith_iff in E as [t Ht]. intros _. by exists "", t.
      * destruct (find sub s); [|done]. intros _.
        destruct IH as (pre & post & ->); [done|]. by exists (String c pre), post.
  - intros (pre & post & ->). induction pre as [|c pre IH].
    + change ("" +:+ sub +:+ post) with (sub +:+ post).
      assert (startswith sub (sub +:+ post) = true) as E by (apply startswith_iff; eauto).
      by rewrite find_unfold, E.
    + rewrite append_cons, find_unfold.
      destruct (startswith sub (String c (pre +:+ sub +:+ post))); [done|].
      by destruct (find sub (pre +:+ sub +:+ post)).
Qed.

Lemma contains_refl (s : string) : contains s s = true.
Proof.
  apply contains_iff. exists "", "".
  change ("" +:+ s +:+ "") with (s +:+ ""). by rewrite append_nil_r.
Qed.

Lemma contains_length (sub s : string) :
  contains sub s = true -> (String.length sub <= String.length s)%nat.
Proof.
  intros (pre & post & ->)%contains_iff. rewrite !length_append. lia.
Qed.

(** Texts as lists of characters, for reasoning from the right end. *)
Lemma chars_append (a b : string) :
  list_ascii_of_string (a +:+ b) = list_ascii_of_string a ++ list_ascii_of_string b.
Proof.
  induction a as [|x a IH]; [done|].
  rewrite append_cons. cbn [list_ascii_of_string app]. by f_equal.
Qed.

Lemma of_chars_app (l1 l2 : list ascii) :
  string_of_list_ascii (l1 ++ l2) = string_of_list_ascii l1 +:+ string_of_list_ascii l2.
Proof.
  induction l1 as [|x l1 IH]; [done|].
  cbn [string_of_list_ascii app]. rewrite append_cons. by f_equal.
Qed.

Lemma chars_inj (a b : string) :
  list_ascii_of_string a = list_ascii_of_string b -> a = b.
Proof.
  intros H. rewrite <- (string_of_list_ascii_of_string a), H.
  apply string_of_list_ascii_of_string.
Qed.

(** A word found between the two added blanks lies within the text. *)
Lemma sandwich (sp : ascii) (s t pre post : list ascii) :
  sp :: s ++ [sp] = pre ++ (sp :: t ++ [sp]) ++ post ->
  exists p q, s = p ++ t ++ q.
Proof.
  intros H.
  assert (forall y c, sp :: s ++ [sp] = sp :: y ++ [c] -> s = y) as last.
  { intros y c [= E]. by apply app_inj_tail in E as [-> _]. }
  destruct pre as [|c0 pre]; [|injection H as Hc H; subst c0];
    destruct post as [|c post _] using rev_ind.
  - exists [], []. rewrite app_nil_r. apply (last _ sp). rewrite H.
    by repeat (rewrite <- app_assoc || rewrite <- app_comm_cons || rewrite app_nil_r).
  - exists [], (sp :: post). apply (last _ c). rewrite H.
    by repeat (rewrite <- app_assoc || rewrite <- app_comm_cons).
  - exists (pre ++ [sp]), []. apply (last _ sp). f_equal. rewrite H.
    by repeat (rewrite <- app_assoc || rewrite <- app_comm_cons || rewrite app_nil_r).
  - exists (pre ++ [sp]), (sp :: post). apply (last _ c). f_equal. rewrite H.
    by repeat (rewrite <- app_assoc || rewrite <- app_comm_cons).
Qed.

Lemma space_bounded_contains (t s : string) :
  Scenario.space_bounded t s = true -> contains t s = true.
Proof.
  unfold Scenario.space_bounded. intros (pre & post & H)%contains_iff.
  apply (f_equal list_ascii_of_string) in H.
  rewrite !chars_append in H. simpl in H.
  change (" "%char :: list_ascii_of_string t ++ [" "%char])
    with ([" "%char] ++ list_ascii_of_string t ++ [" "%char]) in H.
  destruct (sandwich " "%char (list_ascii_of_string s) (list_ascii_of_string t)
              (list_ascii_of_string pre) (list_ascii_of_string post)) as (p & q & Hs).
  { simpl. simpl in H. rewrite H. by rewrite <- !app_assoc. }
  apply contains_iff. exists (string_of_list_ascii p), (string_of_list_ascii q).
  apply chars_inj. rewrite !chars_append, !list_ascii_of_string_of_list_ascii. exact Hs.
Qed.

End StringFacts.

Section FieldMatchFacts.

Import PyStr Ranking Scenario.
Local Open Scope Z_scope.

(** One round of the loop agrees with the points of the specification:
    a term equal to the field, or found between blanks, is a substring. *)
Lemma title_term_score_points (field term : string) :
  title_term_score (lower field) term = term_points field term.
Proof.
  unfold title_term_score, term_points.
  change (contains (" " +:+ lower term +:+ " ") (" " +:+ lower field +:+ " "))
    with (space_bounded (lower term) (lower field)).
  rewrite (String.eqb_sym (lower field) (lower term)).
  destruct (contains (lower term) (lower field)) eqn:Hin; [reflexivity|].
  destruct (String.eqb_spec (lower term) (lower field)) as [Heq|_].
  - rewrite Heq, contains_refl in Hin. discriminate.
  - destruct (space_bounded (lower term) (lower field)) eqn:Hsb; [|reflexivity].
    apply space_bounded_contains in Hsb. congruence.
Qed.

Lemma term_points_empty_field (term : string) :
  term <> "" -> term_points "" term = 0.
Proof.
  intros Hne. unfold term_points. change (lower "") with "".
  destruct (String.eqb_spec "" (lower term)) as [Heq|_].
  - symmetry in Heq. apply lower_empty in Heq. contradiction.
  - assert (0 < String.length (lower term))%nat as Hlen.
    { rewrite length_lower. destruct term; [done|simpl; lia]. }
    destruct (space_bounded (lower term) "") eqn:Hsb.
    + apply contains_length in Hsb. rewrite !length_append in Hsb. simpl in Hsb. lia.
    + destruct (contains (lower term) "") eqn:Hin; [|reflexivity].
      apply contains_length in Hin. simpl in Hin. lia.
Qed.

Lemma fold_left_scores (f : string -> Z) (terms : list string) (start : Z) :
  fold_left (fun total term => total + f term) terms start
  = start + foldr (fun term total => f term + total) 0 terms.
Proof.
  revert start. induction terms as [|t terms IH]; intros start; simpl; [lia|].
  rewrite IH. lia.
Qed.

Lemma calculate_title_score_nonempty (terms : list string) (field : string) :
  field <> "" -> calculate_title_score terms field = field_match_spec terms field.
Proof.
  intros Hne. unfold calculate_title_score, field_match_spec.
  destruct field as [|c field]; [done|]. cbn [truthy].
  rewrite fold_left_scores, Z.add_0_l.
  induction terms as [|t terms IH]; [done|]. cbn [foldr].
  by rewrite IH, title_term_score_points.
Qed.

Lemma field_match_spec_empty_field (terms : list string) :
  ~ In "" terms -> field_match_spec terms "" = 0.
Proof.
  induction terms as [|t terms IH]; intros Hnot; [done|].
  unfold field_match_spec in *. cbn [foldr].
  rewrite IH by (intros ?; apply Hnot; by right).
  rewrite term_points_empty_field; [done|]. intros ->. apply Hnot. by left.
Qed.

Lemma calculate_title_score_single (term field : string) :
  field <> "" -> calculate_title_score [term] field = title_term_score (lower field) term.
Proof. intros Hne. unfold calculate_title_score. by destruct field. Qed.

(** C9: the field-match score.  For a list of terms without the empty
    string when the field is empty (the terms of a query never are
    empty), [calculate_title_score] is the sum over the terms of 10, 5, 2
    or 0 points as the specification words it.  Hence, for a single
    term, a field equal to the term up to case scores 10, and a field
    that differs from it scores 5 at most, and 2 when the term is in it
    only as a substring. *)
Theorem calculate_title_score_field_match
    (terms : list string) (field term whole other : string) :
  (field = "" -> ~ In "" terms) ->
  term <> "" ->
  calculate_title_score terms field = field_match_spec terms field /\
  (lower whole = lower term -> calculate_title_score [term] whole = 10) /\
  (lower other <> lower term ->
     calculate_title_score [term] other <= 5 /\
     (contains (lower term) (lower other) = true ->
      space_bounded (lower term) (lower other) = false ->
      calculate_title_score [term] other = 2)).
Proof.
  intros Hempty Hterm. split; [|split].
  - destruct (String.eqb_spec field "") as [->|Hne].
    + rewrite field_match_spec_empty_field by auto. reflexivity.
    + by apply calculate_title_score_nonempty.
  - intros Heq. rewrite calculate_title_score_single.
    + unfold title_term_score. rewrite Heq, contains_refl, String.eqb_refl. reflexivity.
    + intros ->. simpl in Heq. symmetry in Heq. apply lower_empty in Heq. contradiction.
  - intros Hne. destruct (String.eqb_spec other "") as [->|Hother].
    + split; [by vm_compute|]. intros Hin _.
      apply contains_length in Hin. rewrite length_lower in Hin.
      destruct term; [done|simpl in Hin; lia].
    + rewrite calculate_title_score_single by done. unfold title_term_score.
      change (contains (" " +:+ lower term +:+ " ") (" " +:+ lower other +:+ " "))
        with (space_bounded (lower term) (lower other)).
      destruct (String.eqb_spec (lower term) (lower other)) as [Heq|_]; [congruence|].
      destruct (contains (lower term) (lower other)),
               (space_bounded (lower term) (lower other)); split; (lia || done).
Qed.

(** The scenario of the specification: a document titled ["API"] and one
    with ["API"] inside a word, for the query ["api"]. *)
Lemma calculate_title_score_field_match_api :
  calculate_title_score ["api"] "API" = field_match_spec ["api"] "API" /\
  calculate_title_score ["api"] "API" = 10 /\
  calculate_title_score ["api"] "Rapid prototyping" = 2.
Proof.
  destruct (calculate_title_score_field_match ["api"] "API" "api" "API" "Rapid prototyping")
    as (H1 & H2 & H3).
  - discriminate.
  - discriminate.
  - split; [exact H1|]. split; [apply H2; reflexivity|].
    apply H3; [discriminate|reflexivity|reflexivity].
Defined.

(** The terms [rank_results] computes from a query are never empty. *)
Lemma split_go_nonempty (cur : option string) (s : string) :
  (forall w, cur = Some w -> w <> "") -> ~ In "" (split_go cur s).
Proof.
  revert cur. induction s as [|c s IH]; intros cur Hcur; simpl.
  - destruct cur as [w|]; [|by intros []].
    intros [E|[]]. apply (Hcur w eq_refl).
    destruct w as [|a w]; [done|].
    apply (f_equal String.length) in E. unfold String.rev in E. simpl in E.
    assert (forall x y, String.length (String.rev_app x y)
                        = (String.length x + String.length y)%nat) as L.
    { clear. induction x as [|a x IH]; intros y; simpl; [done|]. rewrite IH. simpl. lia. }
    rewrite L in E. simpl in E. lia.
  - destruct (isspace c).
    + destruct cur as [w|].
      * intros [E|Hin]; [|by apply (IH None)].
        apply (Hcur w eq_refl). destruct w as [|a w]; [done|].
        apply (f_equal String.length) in E. unfold String.rev in E. simpl in E.
        assert (forall x y, String.length (String.rev_app x y)
                            = (String.length x + String.length y)%nat) as L.
        { clear. induction x as [|b x IHx]; intros y; simpl; [done|].
          rewrite IHx. simpl. lia. }
        rewrite L in E. simpl in E. lia.
      * by apply IH.
    + destruct cur as [w|]; apply IH; by intros ? [= <-].
Qed.

Lemma calculate_title_score_of_query (query field : string) :
  calculate_title_score (split (lower query)) field
  = field_match_spec (split (lower query)) field.
Proof.
  destruct (String.eqb_spec field "") as [->|Hne].
  - rewrite field_match_spec_empty_field; [reflexivity|].
    apply split_go_nonempty. discriminate.
  - by apply calculate_title_score_nonempty.
Qed.

End FieldMatchFacts.

(* ===================================================================== *)
(** ** Ranking and the clock *)
(* ===================================================================== *)

Section RankFacts.

Import PyStr Ranking Scenario.
Local Open Scope R_scope.

(** The clock enters the score of a hit through its freshness only. *)
Lemma score_hit_clock (w : weights) (now1 now2 : R) (terms all : list string) (h : hit) :
  calculate_freshness_score now1 (crawl_time h)
  = calculate_freshness_score now2 (crawl_time h) ->
  score_hit w now1 terms all h = score_hit w now2 terms all h.
Proof. intros H. unfold score_hit. rewrite H. reflexivity. Qed.

Lemma score_all_clock (w : weights) (now1 now2 : R) (terms all : list string)
    (results : list hit) :
  Forall (fun h => calculate_freshness_score now1 (crawl_time h)
                   = calculate_freshness_score now2 (crawl_time h)) results ->
  score_all w now1 terms all results = score_all w now2 terms all results.
Proof.
  induction 1 as [|h rest Hh _ IH]; [reflexivity|].
  cbn [score_all]. by rewrite (score_hit_clock w now1 now2 terms all h Hh), IH.
Qed.

Lemma rank_results_clock (w : weights) (now1 now2 : R) (results : list hit)
    (query_string : string) :
  Forall (fun h => calculate_freshness_score now1 (crawl_time h)
                   = calculate_freshness_score now2 (crawl_time h)) results ->
  rank_results w now1 results query_string = rank_results w now2 results query_string.
Proof.
  intros H. unfold rank_results. destruct results as [|h rest]; [reflexivity|].
  by rewrite (score_all_clock w now1 now2 _ _ (h :: rest) H).
Qed.

Lemma freshness_undated (now : R) : calculate_freshness_score now NoTime = Ok 0.
Proof. reflexivity. Qed.

(** Between its two bounds [math.exp] is the exponential. *)
Lemma math_exp_exp (x : R) :
  exp_vanishes <= x <= exp_overflows -> math_exp x = Ok (exp x).
Proof.
  intros [Hlo Hhi]. unfold math_exp.
  destruct (Rlt_dec exp_overflows x); [lra|].
  destruct (Rlt_dec x exp_vanishes); [lra|]. reflexivity.
Qed.

(** The integers of 32 signed bits are far from the greatest double. *)
Lemma float_of_int_small (n : Z) :
  (Z.abs n <= 2 ^ 31)%Z -> float_of_int n = Ok (IZR n).
Proof.
  intros Hn. unfold float_of_int.
  destruct (Z.ltb_spec (Z.abs n) (2 ^ 1024 - 2 ^ 970)) as [|Hbig]; [done|].
  exfalso. apply (Z.le_trans _ _ _ Hbig) in Hn. revert Hn. by vm_compute.
Qed.

Lemma depth_penalty_small (d : Z) :
  (Z.abs d <= 2 ^ 31)%Z -> calculate_depth_penalty d = Ok (IZR d * (1 / 10)).
Proof.
  intros Hd. unfold calculate_depth_penalty. by rewrite (float_of_int_small d Hd).
Qed.

(** C5 as the code has it: the result of [rank_results] is fixed by the
    hits, the query, the weights and the reading of the clock.  Two
    calls on the same hits, query and weights return the same value,
    scores and order alike, when the clock reads the same or, more
    generally, when every hit has the same freshness at the two
    readings, as hits without a crawl time have. *)
Theorem rank_results_deterministic (w : weights) (now1 now2 : R) (results : list hit)
    (query_string : string) :
  now1 = now2 \/
  Forall (fun h => calculate_freshness_score now1 (crawl_time h)
                   = calculate_freshness_score now2 (crawl_time h)) results ->
  rank_results w now1 results query_string = rank_results w now2 results query_string.
Proof.
  intros [->|H]; [reflexivity|]. by apply rank_results_clock.
Qed.

Lemma rank_results_deterministic_undated :
  rank_results initial_weights 0 [undated_hit] "api"
  = rank_results initial_weights 2592000 [undated_hit] "api".
Proof.
  apply rank_results_deterministic. right.
  constructor; [reflexivity|constructor].
Defined.

(** The weights of a new [SearchRanking]. *)
Lemma initial_weight_values :
  weight initial_weights "title_match" = Ok 3 /\
  weight initial_weights "content_match" = Ok 1 /\
  weight initial_weights "meta_description_match" = Ok 2 /\
  weight initial_weights "heading_match" = Ok (5 / 2) /\
  weight initial_weights "url_match" = Ok (3 / 2) /\
  weight initial_weights "freshness" = Ok 1 /\
  weight initial_weights "content_length" = Ok (1 / 2) /\
  weight initial_weights "depth_penalty" = Ok (- (1 / 5)).
Proof.
  unfold weight, initial_weights.
  repeat split; repeat (rewrite lookup_insert_ne by done); by rewrite lookup_insert_eq.
Qed.

(** A hit with an empty body, a freshness that is computed and a depth
    of 32 signed bits is scored without an exception. *)
Lemma score_hit_empty_content (now : R) (terms all : list string) (h : hit) (f : R) :
  content h = "" ->
  calculate_freshness_score now (crawl_time h) = Ok f ->
  (Z.abs (depth h) <= 2 ^ 31)%Z ->
  exists r, score_hit initial_weights now terms all h = Ok r /\
            freshness_score (score_breakdown r) = f.
Proof.
  intros Hc Hf Hd. unfold score_hit. rewrite Hc, Hf, (depth_penalty_small _ Hd).
  cbn [calculate_content_score truthy].
  destruct initial_weight_values as (-> & -> & -> & -> & -> & -> & -> & ->).
  cbn [mbind result_bind]. eexists. split; reflexivity.
Qed.

Lemma first_freshness_single (now : R) (h : hit) (query_string : string) (f : R) :
  content h = "" ->
  calculate_freshness_score now (crawl_time h) = Ok f ->
  (Z.abs (depth h) <= 2 ^ 31)%Z ->
  first_freshness (rank_results initial_weights now [h] query_string) = Some f.
Proof.
  intros Hc Hf Hd. unfold rank_results. cbn [score_all].
  destruct (score_hit_empty_content now (split (lower query_string)) (map content [h]) h f
              Hc Hf Hd) as (r & -> & Hr).
  cbn [mbind result_bind sort_desc fold_right insert_desc first_freshness].
  by rewrite Hr.
Qed.

(** The freshness of the hit crawled at the epoch, at the epoch and
    thirty days later. *)
Lemma freshness_epoch_hit :
  calculate_freshness_score 0 (crawl_time epoch_hit) = Ok (exp 0) /\
  calculate_freshness_score 2592000 (crawl_time epoch_hit) = Ok (exp (- 1)).
Proof.
  unfold calculate_freshness_score. cbn [crawl_time epoch_hit stamp_seconds]. split.
  - replace (- ((0 - 0) / (24 * 3600)) / 30) with 0 by field.
    apply math_exp_exp. unfold exp_vanishes, exp_overflows. lra.
  - replace (- ((2592000 - 0) / (24 * 3600)) / 30) with (- 1) by field.
    apply math_exp_exp. unfold exp_vanishes, exp_overflows. lra.
Qed.

(** C5 for a dated hit: ranked at the moment it was crawled and thirty
    days later, by the same weights and for the same query, the hit gets
    the freshness 1 and then [exp (-1)], and the two results differ. *)
Lemma rank_results_depends_on_clock :
  rank_results initial_weights 0 [epoch_hit] "api"
  <> rank_results initial_weights 2592000 [epoch_hit] "api".
Proof.
  intros H. apply (f_equal first_freshness) in H.
  destruct freshness_epoch_hit as [H0 H30].
  rewrite (first_freshness_single 0 epoch_hit "api" _ eq_refl H0) in H by (cbn; lia).
  rewrite (first_freshness_single 2592000 epoch_hit "api" _ eq_refl H30) in H by (cbn; lia).
  injection H as H. apply exp_inv in H. lra.
Qed.

End RankFacts.

(* ===================================================================== *)
(** ** The crawler *)
(* ===================================================================== *)

Section CrawlerFacts.

Import Crawler Scenario.
Local Open Scope Z_scope.

(** The loop, unfolded by one round. *)
Lemma crawl_loop_eq (web : internet) (s : WebCrawler * nat) :
  crawl_loop web s =
  match crawl_round web s with
  | Some s' => crawl_loop web s'
  | None => s
  end.
Proof.
  funelim (crawl_loop web s);
    match goal with E : crawl_round _ _ = _ |- _ => rewrite E end; reflexivity.
Qed.

(** What every round keeps, the loop keeps. *)
Lemma crawl_loop_keeps (web : internet) (P : WebCrawler * nat -> Prop) :
  (forall s s', crawl_round web s = Some s' -> P s -> P s') ->
  forall s, P s -> P (crawl_loop web s).
Proof.
  intros Hround s. funelim (crawl_loop web s); intros HP.
  - match goal with
    | E : crawl_round _ _ = Some _, IH : forall Q, _ -> _ -> Q (crawl_loop _ _) |- _ =>
        apply IH; [exact Hround | apply (Hround _ _ E HP)]
    end.
  - exact HP.
Qed.

(** The loop is left when its condition fails. *)
Lemma crawl_loop_done (web : internet) (s : WebCrawler * nat) :
  crawl_round web (crawl_loop web s) = None.
Proof.
  funelim (crawl_loop web s); [assumption|].
  match goal with E : crawl_round _ _ = None |- _ => exact E end.
Qed.

(** *** The limits *)

Lemma init_inv (pages delay_s depth_limit : Z) :
  0 <= pages -> crawler_inv (init pages delay_s depth_limit).
Proof.
  intros H. unfold crawler_inv, init. simpl.
  split; [lia|]. split; [constructor|]. split; [constructor|].
  intros p Hp. by apply elem_of_nil in Hp.
Qed.

Lemma set_queue_inv (c : WebCrawler) (q : list (string * Z)) :
  crawler_inv (set_queue c q) <-> crawler_inv c.
Proof. reflexivity. Qed.

Lemma crawl_page_inv (web : internet) (now : nat) (c : WebCrawler) (u : string) (d : Z) :
  crawler_inv c ->
  crawler_inv (fst (crawl_page web now c u d)) /\
  max_pages (fst (crawl_page web now c u d)) = max_pages c /\
  max_depth (fst (crawl_page web now c u d)) = max_depth c.
Proof.
  intros (Hlen & Hdepth & Hnodup & Hvisited). unfold crawl_page.
  destruct (bool_decide (u ∈ visited_urls c)
            || (max_pages c <=? Z.of_nat (length (crawled_pages c)))
            || (max_depth c <? d)) eqn:Hguard; [done|].
  apply orb_false_elim in Hguard as [Hguard Hd].
  apply orb_false_elim in Hguard as [Hu Hfull].
  apply bool_decide_eq_false in Hu. apply Z.leb_gt in Hfull. apply Z.ltb_ge in Hd.
  destruct (web now u) as [| | |body hrefs]; [done..|].
  simpl. split; [|done]. unfold crawler_inv. simpl. repeat split.
  - rewrite length_app. simpl. lia.
  - apply Forall_app. split; [exact Hdepth|]. by constructor.
  - rewrite map_app. simpl. apply NoDup_app. split; [exact Hnodup|]. split.
    + intros x Hx Hx'. apply list_elem_of_singleton in Hx'. subst x.
      apply list_elem_of_fmap in Hx as (p & Hp & Hin). apply Hu. rewrite Hp. by apply Hvisited.
    + apply NoDup_singleton.
  - intros p [Hp|Hp]%elem_of_app.
    + apply elem_of_union_r. by apply Hvisited.
    + apply list_elem_of_singleton in Hp. subst p. simpl. apply elem_of_union_l.
      by apply elem_of_singleton.
Qed.

Lemma crawl_round_inv (web : internet) (s s' : WebCrawler * nat) :
  crawl_round web s = Some s' ->
  crawler_inv (fst s) ->
  crawler_inv (fst s') /\
  max_pages (fst s') = max_pages (fst s) /\ max_depth (fst s') = max_depth (fst s).
Proof.
  destruct s as [c now]. unfold crawl_round.
  destruct (url_queue c) as [|[u d] rest]; [done|].
  destruct (Z.of_nat (length (crawled_pages c)) <? max_pages c); [|done].
  case_bool_decide; intros [= <-] Hinv; simpl.
  - done.
  - apply (crawl_page_inv web now (set_queue c rest) u d). by apply set_queue_inv.
Qed.

Lemma crawl_loop_inv (web : internet) (c : WebCrawler) (now : nat) :
  crawler_inv c ->
  crawler_inv (fst (crawl_loop web (c, now))) /\
  max_pages (fst (crawl_loop web (c, now))) = max_pages c /\
  max_depth (fst (crawl_loop web (c, now))) = max_depth c.
Proof.
  intros Hinv.
  apply (crawl_loop_keeps web
           (fun s => crawler_inv (fst s) /\
                     max_pages (fst s) = max_pages c /\ max_depth (fst s) = max_depth c)).
  - intros s s' Hround (Hs & Hp & Hd).
    destruct (crawl_round_inv web s s' Hround Hs) as (Hs' & Hp' & Hd').
    split; [exact Hs'|]. split; congruence.
  - done.
Qed.

(** A run started from a crawler within its limits ends within them, and
    hands back the crawler's list of pages. *)
Lemma crawl_inv (web : internet) (now : nat) (c : WebCrawler) (seed_urls : list string) :
  crawler_inv c ->
  let '(c', _, pages) := crawl web now c seed_urls in
  crawler_inv c' /\ pages = crawled_pages c' /\
  max_pages c' = max_pages c /\ max_depth c' = max_depth c.
Proof.
  intros Hinv. unfold crawl.
  pose proof (crawl_loop_inv web
                (set_queue c (url_queue c ++ map (fun u => (u, 0)) seed_urls)) now) as H.
  destruct (crawl_loop web _) as [c' now']. simpl in H.
  destruct H as (H1 & H2 & H3); [by apply set_queue_inv|]. done.
Qed.

(** *** The run with its requests *)

Lemma crawl_page_keeps (web : internet) (now : nat) (c : WebCrawler) (u : string) (d : Z) :
  crawled_pages c `prefix_of` crawled_pages (fst (crawl_page web now c u d)) /\
  visited_urls c ⊆ visited_urls (fst (crawl_page web now c u d)).
Proof.
  unfold crawl_page. destruct (_ || _ || _); [done|].
  destruct (web now u); simpl; [done..|].
  split; [by apply prefix_app_r|set_solver].
Qed.


(** What every round keeps holds where the loop ends, by its condition
    or by the exception of [time.sleep]. *)
Lemma traced_loop_keeps (web : internet)
    (P : WebCrawler * nat * list Traced.request -> Prop)
    (Q : WebCrawler * nat * list Traced.request * bool -> Prop) :
  (forall s s', Traced.crawl_round web s = Traced.Next s' -> P s -> P s') ->
  (forall s, Traced.crawl_round web s = Traced.Done -> P s -> Q (s, true)) ->
  (forall s s', Traced.crawl_round web s = Traced.SleepRaises s' -> P s -> Q (s', false)) ->
  forall s, P s -> Q (Traced.crawl_loop web s).
Proof.
  intros Hnext Hdone Hraise s. funelim (Traced.crawl_loop web s); intros HP.
  - match goal with
    | E : Traced.crawl_round _ _ = Traced.Next _,
      IH : forall P' Q', _ -> _ -> _ -> _ -> Q' (Traced.crawl_loop _ _) |- _ =>
        apply (IH P Q Hnext Hdone Hraise); apply (Hnext _ _ E HP)
    end.
  - match goal with E : Traced.crawl_round _ _ = Traced.Done |- _ => apply (Hdone _ E HP) end.
  - match goal with
    | E : Traced.crawl_round _ _ = Traced.SleepRaises _ |- _ => apply (Hraise _ _ E HP)
    end.
Qed.

(** A round with the requests moves the crawler and the clock as the
    round without them does, and the exception needs a negative
    delay. *)
Lemma traced_round_state (web : internet) (c : WebCrawler) (now : nat)
    (log : list Traced.request) :
  match Traced.crawl_round web (c, now, log) with
  | Traced.Next (c', now', _) => crawl_round web (c, now) = Some (c', now')
  | Traced.SleepRaises (c', now', _) =>
      crawl_round web (c, now) = Some (c', now') /\ delay c < 0
  | Traced.Done => crawl_round web (c, now) = None
  end.
Proof.
  unfold Traced.crawl_round, crawl_round.
  destruct (url_queue c) as [|[u d] rest]; [done|].
  destruct (Z.of_nat (length (crawled_pages c)) <? max_pages c); [|done].
  case_bool_decide; [done|]. cbn [set_queue delay].
  destruct (Z.ltb_spec (delay c) 0); done.
Qed.

(** The two loops agree: a run that returns a list is the run of
    [crawl], with the same crawler, clock and list; and a run with a
    delay that is not negative returns. *)
Lemma traced_crawl_returns (web : internet) (now : nat) (c : WebCrawler)
    (seed_urls : list string) :
  let '(c', now', _, out) := Traced.crawl web now c seed_urls in
  (forall pages, out = Traced.Pages pages -> crawl web now c seed_urls = (c', now', pages)) /\
  (0 <= delay c -> exists pages, out = Traced.Pages pages).
Proof.
  unfold Traced.crawl, crawl.
  set (c0 := set_queue c _).
  pose (P := fun s : WebCrawler * nat * list Traced.request =>
               crawl_loop web (fst s) = crawl_loop web (c0, now) /\
               delay (fst (fst s)) = delay c).
  pose (Q := fun r : WebCrawler * nat * list Traced.request * bool =>
               (snd r = true -> crawl_loop web (c0, now) = fst (fst r)) /\
               (snd r = false -> delay c < 0)).
  assert (Q (Traced.crawl_loop web (c0, now, []))) as Hres.
  { apply (traced_loop_keeps web P Q).
    - intros [[c1 t1] log1] [[c2 t2] log2] E [HP Hdelay].
      pose proof (traced_round_state web c1 t1 log1) as Hstate. rewrite E in Hstate.
      cbn [fst] in *. split.
      + rewrite <- HP. symmetry. by rewrite crawl_loop_eq, Hstate.
      + rewrite <- Hdelay. clear - Hstate. unfold crawl_round in Hstate.
        destruct (url_queue c1) as [|[u d] rest]; [done|].
        destruct (Z.of_nat (length (crawled_pages c1)) <? max_pages c1); [|done].
        case_bool_decide; injection Hstate as <- _; [done|].
        unfold crawl_page. destruct (_ || _ || _); [done|]. by destruct (web t1 u).
    - intros [[c1 t1] log1] E [HP _]. split; [|done]. intros _.
      pose proof (traced_round_state web c1 t1 log1) as Hstate. rewrite E in Hstate.
      cbn [fst] in *. rewrite <- HP. by rewrite crawl_loop_eq, Hstate.
    - intros [[c1 t1] log1] [[c2 t2] log2] E [_ Hdelay]. split; [done|]. intros _.
      pose proof (traced_round_state web c1 t1 log1) as Hstate. rewrite E in Hstate.
      cbn [fst] in Hdelay. rewrite <- Hdelay. apply Hstate.
    - done. }
  destruct (Traced.crawl_loop web (c0, now, [])) as [[[c' now'] log] returns].
  destruct Hres as [Hreturns Hraises]. cbn [fst snd] in *. split.
  - intros pages Hout. destruct returns; [|done]. injection Hout as <-.
    by rewrite (Hreturns eq_refl).
  - intros Hdelay. destruct returns; [eauto|]. specialize (Hraises eq_refl). lia.
Qed.







(** *** Runs on one crawler object *)

Lemma crawl_round_keeps (web : internet) (s s' : WebCrawler * nat) :
  crawl_round web s = Some s' ->
  crawled_pages (fst s) `prefix_of` crawled_pages (fst s') /\
  visited_urls (fst s) ⊆ visited_urls (fst s').
Proof.
  destruct s as [c now]. unfold crawl_round.
  destruct (url_queue c) as [|[u d] rest]; [done|].
  destruct (Z.of_nat (length (crawled_pages c)) <? max_pages c); [|done].
  case_bool_decide; intros [= <-]; simpl; [done|].
  apply (crawl_page_keeps web now (set_queue c rest) u d).
Qed.

(** [crawl] never resets the crawler: the pages and the visited URLs it
    starts with are still there when it returns, and the pages of
    earlier runs head the list it hands back. *)
Lemma crawl_keeps_earlier (web : internet) (now : nat) (c : WebCrawler)
    (seed_urls : list string) :
  let '(c', _, pages) := crawl web now c seed_urls in
  crawled_pages c `prefix_of` pages /\ visited_urls c ⊆ visited_urls c'.
Proof.
  unfold crawl.
  pose proof (crawl_loop_keeps web
    (fun s => crawled_pages c `prefix_of` crawled_pages (fst s) /\
              visited_urls c ⊆ visited_urls (fst s))) as H.
  assert (forall s, crawled_pages c `prefix_of` crawled_pages (fst s) /\
                    visited_urls c ⊆ visited_urls (fst s) ->
                    crawled_pages c `prefix_of` crawled_pages (fst (crawl_loop web s)) /\
                    visited_urls c ⊆ visited_urls (fst (crawl_loop web s))) as K.
  { apply H. intros s s' Hr [H1 H2].
    destruct (crawl_round_keeps web s s' Hr) as [H3 H4].
    split; by etrans. }
  specialize (K (set_queue c (url_queue c ++ map (fun u => (u, 0)) seed_urls), now)).
  destruct (crawl_loop web _) as [c' now']. apply K. done.
Qed.

Ltac crawl_round_is v :=
  rewrite crawl_loop_eq;
  match goal with
  | |- context [crawl_round ?w ?s] =>
      replace (crawl_round w s) with v by (vm_compute; reflexivity)
  end; cbv beta iota.

(** The first run on the one-page network collects the page. *)
Lemma crawl_one_page_first :
  crawl one_page_web 0 (set_limits (init 100 1 3) 50 2) ["https://a.test"]
  = (crawler_after 0, 1%nat, [page_a 0]).
Proof.
  unfold crawl.
  crawl_round_is (Some (crawler_after 0, 1%nat)).
  crawl_round_is (@None (WebCrawler * nat)).
  reflexivity.
Qed.

(** A second run on the same crawler skips the seed, which is in the
    visited set, and hands back the page of the first run. *)
Lemma crawl_one_page_again :
  crawl one_page_web 1 (set_limits (crawler_after 0) 50 2) ["https://a.test"]
  = (crawler_after 0, 1%nat, [page_a 0]).
Proof.
  unfold crawl.
  crawl_round_is (Some (crawler_after 0, 1%nat)).
  crawl_round_is (@None (WebCrawler * nat)).
  reflexivity.
Qed.

(** A new crawler, as [execute_crawl_job] makes one, fetches it again. *)
Lemma crawl_one_page_new_crawler :
  crawl one_page_web 1 (init 50 1 2) ["https://a.test"]
  = (crawler_after 1, 2%nat, [page_a 1]).
Proof.
  unfold crawl.
  crawl_round_is (Some (crawler_after 1, 2%nat)).
  crawl_round_is (@None (WebCrawler * nat)).
  reflexivity.
Qed.

End CrawlerFacts.

(* ===================================================================== *)
(** ** The facade *)
(* ===================================================================== *)

Section EngineFacts.

Import Engine Scenario.

(** The crawl inside [crawl_and_index] is a run of the engine's one
    crawler, with the limits overwritten and nothing else reset. *)
Lemma crawl_and_index_crawl (w : world) (now : nat) (e : SearchEngine)
    (seed_urls : list string) (max_pages max_depth : Z) :
  seed_urls <> [] ->
  let '(e', now', pages, _) := crawl_and_index w now e seed_urls max_pages max_depth in
  (crawler e', now', pages)
  = Crawler.crawl (web w) now (Crawler.set_limits (crawler e) max_pages max_depth) seed_urls.
Proof.
  intros Hseeds. unfold crawl_and_index.
  assert (exists r, Scheduler.find_or_create_manual_job (wall w now) (crawl_jobs e)
                      seed_urls max_pages max_depth = Some r) as [[jobs job_id] ->].
  { unfold Scheduler.find_or_create_manual_job.
    destruct (List.find _ _); [eauto|]. destruct seed_urls; [done|eauto]. }
  destruct (Crawler.crawl _ _ _ _) as [[c now'] pages].
  destruct pages as [|p pages]; [done|].
  destruct (parse_pages w (p :: pages)); [done|].
  by destruct (Indexer.index_pages _ _ _) as [ix []].
Qed.

(** Through the facade, the pages of earlier runs head the list of every
    later run. *)
Lemma crawl_and_index_keeps_earlier (w : world) (now : nat) (e : SearchEngine)
    (seed_urls : list string) (max_pages max_depth : Z) :
  seed_urls <> [] ->
  let '(e', _, pages, _) := crawl_and_index w now e seed_urls max_pages max_depth in
  Crawler.crawled_pages (crawler e) `prefix_of` pages /\
  Crawler.visited_urls (crawler e) ⊆ Crawler.visited_urls (crawler e').
Proof.
  intros Hseeds.
  pose proof (crawl_and_index_crawl w now e seed_urls max_pages max_depth Hseeds) as H.
  destruct (crawl_and_index _ _ _ _ _ _) as [[[e' now'] pages] ok].
  pose proof (crawl_keeps_earlier (web w) now
                (Crawler.set_limits (crawler e) max_pages max_depth) seed_urls) as K.
  rewrite <- H in K. exact K.
Qed.

(** C2: two calls of [crawl_and_index] for the same seed.  The engine
    keeps the crawler made in [__init__]; the first call collects the
    page; the second call starts with that URL in the visited set, skips
    the seed without a request (the clock stands still), and the list its
    crawl returns is the page collected by the first call.  A run on a
    new crawler, which is what [execute_crawl_job] starts, fetches the
    page again. *)
Theorem crawl_and_index_reuses_crawler :
  let seeds := ["https://a.test"] in
  let '(e1, t1, pages1, ok1) :=
    crawl_and_index one_page_world 0 (init [] []) seeds 50 2 in
  let '(e2, t2, pages2, ok2) := crawl_and_index one_page_world t1 e1 seeds 50 2 in
  let '(_, t3, pages3) := Crawler.crawl one_page_web t1 (Crawler.init 50 1 2) seeds in
  (t1 = 1%nat /\ pages1 = [page_a 0]) /\
  Crawler.visited_urls (crawler e1) = {["https://a.test"]} /\
  (t2 = t1 /\ pages2 = [page_a 0]) /\
  (t3 = S t1 /\ pages3 = [page_a 1]).
Proof.
  cbv zeta.
  pose proof (crawl_and_index_crawl one_page_world 0 (init [] []) ["https://a.test"] 50 2
                ltac:(done)) as H1.
  destruct (crawl_and_index one_page_world 0 _ _ _ _) as [[[e1 t1] pages1] ok1].
  change (web one_page_world) with one_page_web in H1.
  change (crawler (init [] [])) with (Crawler.init 100 1 3) in H1.
  rewrite crawl_one_page_first in H1. injection H1 as Hc1 -> ->.
  pose proof (crawl_and_index_crawl one_page_world 1 e1 ["https://a.test"] 50 2
                ltac:(done)) as H2.
  destruct (crawl_and_index one_page_world 1 e1 _ _ _) as [[[e2 t2] pages2] ok2].
  change (web one_page_world) with one_page_web in H2.
  rewrite Hc1, crawl_one_page_again in H2. injection H2 as _ -> ->.
  rewrite crawl_one_page_new_crawler, Hc1. done.
Qed.

End EngineFacts.

(* ===================================================================== *)
(** * Further properties of the components *)
(* ===================================================================== *)

(** ** The index store: replacing, deleting, failing *)

Section IndexerMore.

Import Indexer Scenario.

(** The documents that survive the deletion of a URL. *)
Lemma commit_delete_by_term (ix : index) (u : string) (w : writer) :
  segment w = ix -> deleted w = [u] ->
  List.filter (fun d => negb (is_deleted w d)) (segment w)
  = List.filter (fun d => negb (String.eqb (doc_url d) u)) ix.
Proof.
  intros Hs Hd. rewrite Hs. unfold is_deleted. rewrite Hd.
  apply List.filter_ext. intros d. simpl. by rewrite orb_false_r.
Qed.

Lemma records_for_filter_other (ix : index) (u v : string) :
  records_for v (List.filter (fun d => negb (String.eqb (doc_url d) u)) ix)
  = if String.eqb v u then 0%nat else records_for v ix.
Proof.
  unfold records_for. induction ix as [|d ix IH]; simpl.
  - by destruct (String.eqb v u).
  - destruct (String.eqb_spec (doc_url d) u) as [Hu|Hu]; simpl.
    + rewrite IH. destruct (String.eqb_spec v u) as [Hv|Hv]; [done|].
      destruct (String.eqb_spec (doc_url d) v); [congruence|done].
    + destruct (String.eqb_spec (doc_url d) v) as [Hv|Hv]; simpl; rewrite IH.
      * destruct (String.eqb_spec v u); [congruence|done].
      * by destruct (String.eqb v u).
Qed.

Lemma build_document_url (p : parsed_page) (d : document) :
  build_document p = inr d -> url p = Some (doc_url d).
Proof.
  unfold build_document. destruct (fromtimestamp _); [|done].
  destruct (url p); [|done]. destruct (int32 _ && int32 _); [|done]. by intros [= <-].
Qed.

(** X1: [update_document] on a page that can be added.  Every committed
    record of the page's URL is dropped, the new document is put at the
    end, and nothing else moves: afterwards the URL has one record and
    every other URL has as many as before. *)
Theorem update_document_replaces (ix : index) (p : parsed_page) (d : document) (v : string) :
  build_document p = inr d ->
  update_document true ix p
  = (List.filter (fun x => negb (String.eqb (doc_url x) (doc_url d))) ix ++ [d], Returned) /\
  records_for v (fst (update_document true ix p))
  = if String.eqb v (doc_url d) then 1%nat else records_for v ix.
Proof.
  intros Hb. pose proof (build_document_url p d Hb) as Hu.
  assert (update_document true ix p
          = (List.filter (fun x => negb (String.eqb (doc_url x) (doc_url d))) ix ++ [d],
             Returned)) as E.
  { unfold update_document. rewrite Hu. unfold add_document. rewrite Hb.
    unfold commit. rewrite (commit_delete_by_term ix (doc_url d)) by done. done. }
  split; [exact E|]. rewrite E. cbn [fst].
  rewrite records_for_app, records_for_filter_other.
  assert (records_for v [d] = if String.eqb (doc_url d) v then 1%nat else 0%nat) as ->.
  { unfold records_for. simpl. by destruct (String.eqb (doc_url d) v). }
  rewrite (String.eqb_sym (doc_url d) v).
  destruct (String.eqb v (doc_url d)); lia.
Qed.

Lemma update_document_replaces_twice :
  let p := page_at "https://a.test" "new text" 1700000000 in
  let q := page_at "https://b.test" "other" 1700000000 in
  let ix := fst (index_pages true [] [p; q; p]) in
  records_for "https://a.test" ix = 2%nat /\
  records_for "https://a.test" (fst (update_document true ix p)) = 1%nat /\
  records_for "https://b.test" (fst (update_document true ix p)) = 1%nat.
Proof.
  cbv zeta.
  set (p := page_at "https://a.test" "new text" 1700000000).
  set (ix := fst (index_pages true [] [p; page_at "https://b.test" "other" 1700000000; p])).
  split; [reflexivity|].
  destruct (build_document p) as [e|d] eqn:Hb; [discriminate|].
  split.
  - destruct (update_document_replaces ix p d "https://a.test" Hb) as [_ ->].
    injection Hb as <-. reflexivity.
  - destruct (update_document_replaces ix p d "https://b.test" Hb) as [_ ->].
    injection Hb as <-. reflexivity.
Defined.

(** X2: [update_document] on a page that has a URL but cannot be added
    (its [crawl_time] is no timestamp [datetime] accepts).  The deletion
    is committed without the insertion: the records of the URL are gone,
    the rest is kept, and the method returns normally. *)
Theorem update_document_loses_record (ix : index) (p : parsed_page) (u : string) (e : exn) :
  url p = Some u -> build_document p = inl e ->
  update_document true ix p
  = (List.filter (fun x => negb (String.eqb (doc_url x) u)) ix, Returned) /\
  records_for u (fst (update_document true ix p)) = 0%nat.
Proof.
  intros Hu Hb.
  assert (update_document true ix p
          = (List.filter (fun x => negb (String.eqb (doc_url x) u)) ix, Returned)) as E.
  { unfold update_document. rewrite Hu. unfold add_document. rewrite Hb.
    unfold commit. rewrite (commit_delete_by_term ix u) by done.
    by rewrite app_nil_r. }
  split; [exact E|]. rewrite E. cbn [fst].
  by rewrite records_for_filter_other, String.eqb_refl.
Qed.

Lemma update_document_loses_record_far_future :
  let ix := fst (index_pages true [] [page_at "https://a.test" "hello" 1700000000]) in
  let late := page_at "https://a.test" "hello" 999999999999999 in
  records_for "https://a.test" ix = 1%nat /\
  update_document true ix late = ([], Returned).
Proof.
  cbv zeta. split; [reflexivity|].
  destruct (update_document_loses_record
              (fst (index_pages true [] [page_at "https://a.test" "hello" 1700000000]))
              (page_at "https://a.test" "hello" 999999999999999)
              "https://a.test" OverflowError eq_refl eq_refl) as [-> _].
  reflexivity.
Defined.

(** What fails leaves the index as it was.  When the commit does not
    go through, [index_pages], [update_document] and [delete_document]
    raise and the committed documents are unchanged; [update_document] on
    a page without ['url'] raises [KeyError] before anything is written,
    whether or not a commit would go through. *)
Theorem failed_write_keeps_index (commit_ok : bool) (ix : index)
    (pages : list parsed_page) (p : parsed_page) (u : string) :
  index_pages false ix pages = (ix, Raised CommitError) /\
  fst (update_document false ix p) = ix /\
  snd (update_document false ix p) <> Returned /\
  delete_document false ix u = (ix, Raised CommitError) /\
  (url p = None -> update_document commit_ok ix p = (ix, Raised (KeyError "url"))).
Proof.
  split; [apply index_pages_cancel|]. unfold update_document, delete_document.
  split; [|split; [|split]].
  - destruct (url p); [|done]. cbn [fst]. unfold cancel.
    by rewrite (proj1 (add_document_segment _ _)).
  - by destruct (url p).
  - reflexivity.
  - by intros ->.
Qed.

Lemma failed_write_keeps_index_no_url :
  update_document true [] (page_without_url "text") = ([], Raised (KeyError "url")).
Proof.
  destruct (failed_write_keeps_index true [] [] (page_without_url "text") "")
    as (_ & _ & _ & _ & H).
  apply H. reflexivity.
Defined.

(** X3: [index_pages] with a commit that goes through only appends.  The
    committed documents stay in place at the head of the index, at most
    one document per page is added, and exactly one per page when every
    page has a URL, a [crawl_time] that [datetime] accepts, and a
    [content_length] and a [depth] of 32 signed bits, which the number
    fields of the schema take. *)
Theorem index_pages_appends (ix : index) (pages : list parsed_page) :
  ix `prefix_of` fst (index_pages true ix pages) /\
  (doc_count (fst (index_pages true ix pages)) <= doc_count ix + length pages)%nat /\
  (Forall (fun p => url p <> None /\ fromtimestamp (crawl_time p) <> None /\
                    int32 (content_length p) = true /\ int32 (depth p) = true) pages ->
   doc_count (fst (index_pages true ix pages)) = (doc_count ix + length pages)%nat /\
   map doc_url (drop (length ix) (fst (index_pages true ix pages))) = omap url pages).
Proof.
  rewrite index_pages_commit. cbn [fst]. unfold doc_count. split; [|split].
  - by apply prefix_app_r.
  - rewrite length_app. apply Nat.add_le_mono_l.
    induction pages as [|p pages IH]; simpl; [lia|].
    destruct (build_document p); simpl; lia.
  - intros Hall. rewrite length_app, drop_app_length.
    induction Hall as [|p pages (Hu & Ht & Hl & Hd) _ [IH1 IH2]]; [done|].
    cbn [built]. destruct (build_document p) as [e|d] eqn:Hb.
    + exfalso. unfold build_document in Hb. rewrite Hl, Hd in Hb.
      destruct (fromtimestamp (crawl_time p)); [|done]. by destruct (url p).
    + cbn [omap list_omap]. rewrite (build_document_url p d Hb). simpl.
      split; [lia|]. f_equal. exact IH2.
Qed.

Lemma index_pages_appends_two :
  let pages := [page_at "https://a.test" "a" 1700000000;
                page_at "https://b.test" "b" 1700000001] in
  doc_count (fst (index_pages true [] pages)) = 2%nat /\
  map doc_url (fst (index_pages true [] pages)) = ["https://a.test"; "https://b.test"].
Proof.
  cbv zeta.
  destruct (index_pages_appends [] [page_at "https://a.test" "a" 1700000000;
                                    page_at "https://b.test" "b" 1700000001])
    as (_ & _ & H).
  destruct H as [H1 H2].
  - repeat constructor; done.
  - split; [exact H1|exact H2].
Defined.

(** X4: [delete_document] removes every record of the URL and no other;
    deleting the same URL again changes nothing. *)
Theorem delete_document_removes_url (ix : index) (u v : string) :
  records_for v (fst (delete_document true ix u))
  = (if String.eqb v u then 0%nat else records_for v ix) /\
  delete_document true (fst (delete_document true ix u)) u
  = delete_document true ix u.
Proof.
  assert (forall jx, delete_document true jx u
            = (List.filter (fun d => negb (String.eqb (doc_url d) u)) jx, Returned)) as E.
  { intros jx. unfold delete_document, commit.
    rewrite (commit_delete_by_term jx u) by done. by rewrite app_nil_r. }
  rewrite !E. cbn [fst]. split; [apply records_for_filter_other|].
  f_equal. induction ix as [|d ix IH]; [done|]. simpl.
  destruct (String.eqb (doc_url d) u) eqn:Hd; simpl; [exact IH|].
  by rewrite Hd, IH.
Qed.

End IndexerMore.

(* ===================================================================== *)
(** ** The job list: what an update keeps and what it changes *)
(* ===================================================================== *)

Section SchedulerMore.

Import Scheduler Scenario Cases.
Local Open Scope Z_scope.

Lemma update_job_fixed_fields now j st lr nr :
  fixed_fields (update_job now j st lr nr) = fixed_fields j.
Proof.
  unfold update_job.
  destruct (given lr), (given nr); simpl; try reflexivity;
    destruct (String.eqb st "completed" && String.eqb (schedule_type j) "daily");
    try reflexivity;
    destruct (daily_next_run now (schedule_time j)); reflexivity.
Qed.

(** X5: [update_job_status] neither adds nor removes nor reorders jobs
    and never writes an id, a name, the seeds, the schedule or the
    limits; only the first job with the id can change at all, and for an
    id no job has, the list is returned as it is. *)
Theorem update_job_status_keeps_jobs (now : datetime) (jobs : list job) (job_id : Z)
    (new_status : string) (last_run next_run : option string) :
  Forall2 (fun j j' => fixed_fields j' = fixed_fields j /\ (id j <> job_id -> j' = j))
          jobs (update_job_status now jobs job_id new_status last_run next_run) /\
  (Forall (fun j => id j <> job_id) jobs ->
   update_job_status now jobs job_id new_status last_run next_run = jobs).
Proof.
  split.
  - induction jobs as [|j jobs IH]; simpl; [constructor|].
    destruct (Z.eqb_spec (id j) job_id) as [E|E].
    + constructor.
      * split; [apply update_job_fixed_fields|done].
      * clear. induction jobs; constructor; done.
    + constructor; [done|exact IH].
  - induction 1 as [|j jobs Hj _ IH]; simpl; [done|].
    destruct (Z.eqb_spec (id j) job_id); [done|]. by rewrite IH.
Qed.

Lemma update_job_status_keeps_jobs_unknown_id :
  update_job_status new_year_2024_10h [nightly_job] 7 "completed" None None
  = [nightly_job].
Proof.
  apply (update_job_status_keeps_jobs new_year_2024_10h [nightly_job] 7 "completed" None None).
  repeat constructor. discriminate.
Defined.

(** X6: only daily jobs are scheduled again.  When the new status is
    not ['completed'], or the job's [schedule_type] is not ['daily']
    (weekly, hourly and manual jobs are such), and no [next_run] is
    passed, the job gets the status passed and keeps its [next_run]. *)
Theorem update_job_status_no_next_run
    (now : datetime) (pre post : list job) (j : job)
    (new_status : string) (last_run next_run : option string) :
  Forall (fun j' => id j' <> id j) pre ->
  given next_run = None ->
  new_status <> "completed" \/ schedule_type j <> "daily" ->
  exists j',
    update_job_status now (pre ++ j :: post) (id j) new_status last_run next_run
    = pre ++ j' :: post /\
    status j' = new_status /\ Scheduler.next_run j' = Scheduler.next_run j.
Proof.
  intros Hpre Hnr Hcase. eexists. split.
  { apply update_job_status_first; [exact Hpre|reflexivity]. }
  unfold update_job. rewrite Hnr.
  assert (String.eqb new_status "completed" && String.eqb (schedule_type j) "daily" = false)
    as Hb.
  { apply andb_false_iff. destruct Hcase as [H|H]; [left|right]; by apply String.eqb_neq. }
  destruct (given last_run); simpl; rewrite Hb; done.
Qed.

Lemma update_job_status_no_next_run_weekly :
  exists j',
    update_job_status new_year_2024_10h ([] ++ weekly_job :: []) (id weekly_job)
      "completed" None None = [] ++ j' :: [] /\
    status j' = "completed" /\ Scheduler.next_run j' = None.
Proof.
  apply (update_job_status_no_next_run new_year_2024_10h [] [] weekly_job
           "completed" None None).
  - constructor.
  - reflexivity.
  - right. discriminate.
Defined.

(** A [next_run] that is passed is stored as it is, and the job,
    daily or not, gets the status passed: a completed daily job is then
    left ['completed'] and not put back to ['scheduled']. *)
Theorem update_job_status_given_next_run
    (now : datetime) (pre post : list job) (j : job)
    (new_status : string) (last_run next_run : option string) (t : string) :
  Forall (fun j' => id j' <> id j) pre ->
  given next_run = Some t ->
  exists j',
    update_job_status now (pre ++ j :: post) (id j) new_status last_run next_run
    = pre ++ j' :: post /\
    status j' = new_status /\ Scheduler.next_run j' = Some t.
Proof.
  intros Hpre Hnr. eexists. split.
  { apply update_job_status_first; [exact Hpre|reflexivity]. }
  unfold update_job. rewrite Hnr. by destruct (given last_run).
Qed.

Lemma update_job_status_given_next_run_daily :
  exists j',
    update_job_status new_year_2024_10h ([] ++ nightly_job :: []) (id nightly_job)
      "completed" None (Some "2024-02-01T00:00:00") = [] ++ j' :: [] /\
    status j' = "completed" /\ Scheduler.next_run j' = Some "2024-02-01T00:00:00".
Proof.
  apply (update_job_status_given_next_run new_year_2024_10h [] [] nightly_job
           "completed" None (Some "2024-02-01T00:00:00") "2024-02-01T00:00:00").
  - constructor.
  - reflexivity.
Defined.

(** X7: a daily job whose [schedule_time] reads as an hour past 23 or a
    minute past 59.  [replace] raises in the [try] block, the exception
    is logged, and the completed job stays ['completed'] with the
    [next_run] it had: it is not scheduled again. *)
Theorem update_job_status_daily_bad_time
    (now : datetime) (pre post : list job) (j : job) (h m : Z)
    (last_run next_run : option string) :
  Forall (fun j' => id j' <> id j) pre ->
  schedule_type j = "daily" ->
  schedule_time j = hhmm h m -> 0 <= h <= 99 -> 0 <= m <= 99 ->
  23 < h \/ 59 < m ->
  given next_run = None ->
  exists j',
    update_job_status now (pre ++ j :: post) (id j) "completed" last_run next_run
    = pre ++ j' :: post /\
    status j' = "completed" /\ Scheduler.next_run j' = Scheduler.next_run j.
Proof.
  intros Hpre Hty Htime Hh Hm Hbad Hnr. eexists. split.
  { apply update_job_status_first; [exact Hpre|reflexivity]. }
  assert (daily_next_run now (hhmm h m) = None) as Hnone.
  { unfold daily_next_run. destruct (plus_one_day now) as [t|]; [|done].
    cbn [mbind option_bind]. destruct (hhmm_slices h m) as [Eh Em].
    rewrite Eh, int_of_str_zero_padded_2 by lia. cbn [mbind option_bind].
    rewrite Em, int_of_str_zero_padded_2 by lia. cbn [mbind option_bind].
    unfold replace_time.
    destruct (Z.leb_spec 0 h), (Z.leb_spec h 23), (Z.leb_spec 0 m), (Z.leb_spec m 59);
      try lia; reflexivity. }
  unfold update_job. rewrite Hnr.
  destruct (given last_run); simpl; rewrite Hty, Htime, Hnone; done.
Qed.

Lemma update_job_status_daily_bad_time_24 :
  exists j',
    update_job_status new_year_2024_10h ([] ++ late_job :: []) (id late_job)
      "completed" None None = [] ++ j' :: [] /\
    status j' = "completed" /\ Scheduler.next_run j' = None.
Proof.
  apply (update_job_status_daily_bad_time new_year_2024_10h [] [] late_job 24 0 None None).
  - constructor.
  - reflexivity.
  - reflexivity.
  - lia.
  - lia.
  - left. lia.
  - reflexivity.
Defined.

End SchedulerMore.

Section JobListMore.

Import Scheduler Scenario Cases.
Local Open Scope Z_scope.

Lemma same_parameters_set (seeds seeds' : list string) (pages depth_limit : Z) (j : job) :
  list_to_set seeds' =@{gset string} list_to_set seeds ->
  same_parameters seeds' pages depth_limit j = same_parameters seeds pages depth_limit j.
Proof. intros H. unfold same_parameters. by rewrite H. Qed.

Lemma find_none_app {A : Type} (f : A -> bool) (l : list A) (x : A) :
  List.find f l = None -> List.find f (l ++ [x]) = if f x then Some x else None.
Proof.
  induction l as [|y l IH]; simpl; [done|]. destruct (f y); [done|exact IH].
Qed.

(** X8: [find_or_create_manual_job] creates a job once.  Whatever a
    call returns, a further call on the list it left, with the same
    limits and a seed list that has the same set of URLs (in any order,
    with or without repetitions), returns the same id and leaves the list
    as it is. *)
Theorem find_or_create_manual_job_again
    (now now' : datetime) (jobs jobs' : list job) (seeds seeds' : list string)
    (pages depth_limit job_id : Z) :
  find_or_create_manual_job now jobs seeds pages depth_limit = Some (jobs', job_id) ->
  list_to_set seeds' =@{gset string} list_to_set seeds ->
  find_or_create_manual_job now' jobs' seeds' pages depth_limit = Some (jobs', job_id).
Proof.
  intros H Hset. unfold find_or_create_manual_job in *.
  assert (forall l, List.find (same_parameters seeds' pages depth_limit) l
                    = List.find (same_parameters seeds pages depth_limit) l) as Hfind.
  { intros l. induction l as [|j l IH]; simpl; [done|].
    by rewrite (same_parameters_set seeds seeds' pages depth_limit j Hset), IH. }
  rewrite Hfind.
  destruct (List.find (same_parameters seeds pages depth_limit) jobs) as [j|] eqn:Hj.
  - injection H as <- <-. by rewrite Hj.
  - destruct seeds as [|seed rest]; [done|]. injection H as <- <-.
    unfold add_crawl_job. cbn [fst snd id].
    rewrite (find_none_app _ _ _ Hj).
    unfold same_parameters. cbn [Scheduler.seed_urls Scheduler.max_pages Scheduler.max_depth].
    rewrite bool_decide_eq_true_2 by done. by rewrite !Z.eqb_refl.
Qed.

Lemma find_or_create_manual_job_again_reordered :
  let first := find_or_create_manual_job noon_2024 []
                 ["https://a.test"; "https://b.test"] 50 2 in
  exists jobs, first = Some (jobs, 1) /\
    find_or_create_manual_job new_year_2024_10h jobs
      ["https://b.test"; "https://a.test"; "https://b.test"] 50 2 = Some (jobs, 1).
Proof.
  cbv zeta. eexists. split; [reflexivity|].
  apply (find_or_create_manual_job_again noon_2024 new_year_2024_10h [] _
           ["https://a.test"; "https://b.test"] _ 50 2 1).
  - reflexivity.
  - vm_compute. reflexivity.
Defined.

(** After [remove_crawl_job] no job is found under the id, so
    [run_job_now] on it answers [False]; the job found under any other id
    is the one found before. *)
Theorem remove_crawl_job_find_job (jobs : list job) (job_id other : Z) :
  find_job (remove_crawl_job jobs job_id) other
  = if other =? job_id then None else find_job jobs other.
Proof.
  unfold find_job, remove_crawl_job.
  induction jobs as [|j jobs IH]; simpl.
  - by destruct (other =? job_id).
  - destruct (Z.eqb_spec (id j) job_id) as [Hj|Hj]; simpl.
    + rewrite IH. destruct (Z.eqb_spec other job_id) as [Ho|Ho]; [done|].
      destruct (Z.eqb_spec (id j) other); [congruence|done].
    + destruct (Z.eqb_spec (id j) other) as [Hjo|Hjo]; [|exact IH].
      destruct (Z.eqb_spec other job_id); [congruence|done].
Qed.

Lemma seq_ids_lt (n : nat) (x : Z) :
  In x (map Z.of_nat (seq 1 n)) -> 1 <= x <= Z.of_nat n.
Proof.
  intros (k & <- & Hk)%in_map_iff. apply in_seq in Hk. lia.
Qed.

(** X9: a job list that was only added to.  When the ids count up from
    1, [add_crawl_job] keeps them so: the new id is greater than every id
    in the list, the ids stay pairwise distinct, and the job found under
    the id returned is the new one, ['scheduled'] and never run. *)
Theorem add_crawl_job_fresh_id
    (now : datetime) (jobs : list job) (job_name : string) (seeds : list string)
    (ty time : string) (pages depth_limit : Z) :
  sequential jobs ->
  let '(jobs', new_id) := add_crawl_job now jobs job_name seeds ty time pages depth_limit in
  sequential jobs' /\
  NoDup (map id jobs') /\
  Forall (fun j => id j < new_id) jobs /\
  exists j, find_job jobs' new_id = Some j /\
            (name j, seed_urls j, status j, last_run j, Scheduler.next_run j)
            = (job_name, seeds, "scheduled", None, None).
Proof.
  intros Hseq. unfold add_crawl_job. cbn [id].
  set (j := {| id := Z.of_nat (length jobs) + 1; name := job_name |}).
  assert (sequential (jobs ++ [j])) as Hseq'.
  { unfold sequential in *. rewrite map_app, length_app, Hseq. simpl.
    rewrite Nat.add_1_r, seq_S, map_app. simpl. do 2 f_equal. lia. }
  assert (Forall (fun j' => id j' < Z.of_nat (length jobs) + 1) jobs) as Hlt.
  { apply Forall_forall. intros j' Hj'.
    assert (In (id j') (map id jobs)) as Hin by (apply in_map; by apply list_elem_of_In).
    rewrite Hseq in Hin. apply seq_ids_lt in Hin. lia. }
  split; [exact Hseq'|]. split; [|split; [exact Hlt|]].
  - rewrite Hseq'. apply NoDup_fmap_2; [intros ???; lia|apply NoDup_ListNoDup, seq_NoDup].
  - exists j. split; [|reflexivity]. unfold find_job.
    assert (List.find (fun j' => id j' =? Z.of_nat (length jobs) + 1) jobs = None) as Hnone.
    { clear -Hlt. generalize dependent (Z.of_nat (length jobs) + 1). intros k Hlt.
      induction Hlt as [|j' l Hj' _ IH]; simpl; [done|].
      destruct (Z.eqb_spec (id j') k); [lia|exact IH]. }
    rewrite (find_none_app _ _ _ Hnone). subst j. cbn [id]. by rewrite Z.eqb_refl.
Qed.

Lemma add_crawl_job_fresh_id_second :
  let '(jobs1, _) := add_crawl_job noon_2024 [] "first" ["https://a.test"] "daily" "02:00"
                       100 3 in
  let '(jobs2, new_id) := add_crawl_job noon_2024 jobs1 "second" ["https://b.test"]
                            "hourly" "00:00" 10 1 in
  new_id = 2 /\ NoDup (map id jobs2).
Proof.
  pose proof (add_crawl_job_fresh_id noon_2024
                (fst (add_crawl_job noon_2024 [] "first" ["https://a.test"] "daily" "02:00"
                        100 3))
                "second" ["https://b.test"] "hourly" "00:00" 10 1 eq_refl) as H.
  cbn in H. destruct H as (_ & H & _). split; [reflexivity|exact H].
Defined.

End JobListMore.

(* ===================================================================== *)
(** ** The facade and the job runner: what reaches the index *)
(* ===================================================================== *)

Section EngineMore.

Import Engine Scenario Cases.

Lemma list_to_set_empty (l : list string) :
  list_to_set l =@{gset string} ∅ -> l = [].
Proof.
  destruct l as [|x l]; [done|]. intros H.
  assert (x ∈ (list_to_set (x :: l) : gset string)) as Hx
    by (apply elem_of_list_to_set; left).
  rewrite H in Hx. by apply not_elem_of_empty in Hx.
Qed.

(** X10: [crawl_and_index] without seeds.  When no job on the list has an
    empty seed list, looking up [seed_urls[0]] raises before a job is
    made: the call answers [False], and the job list, the crawler and the
    index are as before; nothing was requested. *)
Theorem crawl_and_index_no_seeds (w : world) (now : nat) (e : SearchEngine)
    (max_pages max_depth : Z) :
  Forall (fun j => Scheduler.seed_urls j <> []) (crawl_jobs e) ->
  crawl_and_index w now e [] max_pages max_depth = (e, now, [], false).
Proof.
  intros Hjobs. unfold crawl_and_index, Scheduler.find_or_create_manual_job.
  assert (List.find (Scheduler.same_parameters [] max_pages max_depth) (crawl_jobs e) = None)
    as ->; [|done].
  induction Hjobs as [|j jobs Hj _ IH]; simpl; [done|].
  unfold Scheduler.same_parameters at 1.
  rewrite bool_decide_eq_false_2; [exact IH|].
  intros H. apply Hj. by apply list_to_set_empty.
Qed.

Lemma crawl_and_index_no_seeds_new_engine :
  crawl_and_index one_page_world 0 (init [] []) [] 50 2 = (init [] [], 0%nat, [], false).
Proof.
  apply (crawl_and_index_no_seeds one_page_world 0 (init [] []) 50 2). constructor.
Defined.

Lemma length_parse_pages (w : world) (pages : list Crawler.page_data) :
  (length (parse_pages w pages) <= length pages)%nat.
Proof.
  unfold parse_pages. induction pages as [|p pages IH]; [done|].
  cbn [omap list_omap]. destruct (parse_page w p); cbn [length]; lia.
Qed.

Lemma length_built (pages : list Indexer.parsed_page) :
  (length (built pages) <= length pages)%nat.
Proof.
  induction pages as [|p pages IH]; simpl; [lia|].
  destruct (Indexer.build_document p); simpl; lia.
Qed.

(** X11: what [crawl_and_index] does to the index.  For a seed list that
    is not empty, the call answers [True] exactly when the crawl returned
    pages, some of them could be parsed, and the commit went through; the
    index then is the old one followed by the documents built from the
    parsed pages, and in every other case it is the old one. *)
Theorem crawl_and_index_index (w : world) (now : nat) (e : SearchEngine)
    (seed_urls : list string) (max_pages max_depth : Z) :
  seed_urls <> [] ->
  let '(e', now', pages, ok) := crawl_and_index w now e seed_urls max_pages max_depth in
  ok = negb (bool_decide (pages = []))
       && negb (bool_decide (parse_pages w pages = []))
       && commit_ok w now' /\
  index e' = if ok then index e ++ built (parse_pages w pages) else index e.
Proof.
  intros Hseeds. unfold crawl_and_index.
  assert (exists r, Scheduler.find_or_create_manual_job (wall w now) (crawl_jobs e)
                      seed_urls max_pages max_depth = Some r) as [[jobs job_id] ->].
  { unfold Scheduler.find_or_create_manual_job.
    destruct (List.find _ _); [eauto|]. destruct seed_urls; [done|eauto]. }
  destruct (Crawler.crawl _ _ _ _) as [[c now'] pages].
  destruct pages as [|p pages]; [done|].
  destruct (parse_pages w (p :: pages)) as [|q parsed] eqn:Hparsed.
  { cbv beta iota zeta. rewrite Hparsed.
    rewrite (bool_decide_eq_false_2 (p :: pages = [])) by done.
    by rewrite bool_decide_eq_true_2. }
  destruct (commit_ok w now') eqn:Hcommit.
  - rewrite index_pages_commit. cbv beta iota zeta. rewrite Hparsed, Hcommit.
    rewrite (bool_decide_eq_false_2 (p :: pages = [])) by done.
    rewrite (bool_decide_eq_false_2 (q :: parsed = [])) by done. done.
  - rewrite index_pages_cancel. cbv beta iota zeta. rewrite Hparsed, Hcommit.
    rewrite (bool_decide_eq_false_2 (p :: pages = [])) by done.
    rewrite (bool_decide_eq_false_2 (q :: parsed = [])) by done. done.
Qed.

Lemma crawl_and_index_index_one_page :
  let '(e', _, _, ok) :=
    crawl_and_index one_page_world 0 (init [] []) ["https://a.test"] 50 2 in
  ok = true /\ map Indexer.doc_url (index e') = ["https://a.test"].
Proof.
  pose proof (crawl_and_index_index one_page_world 0 (init [] []) ["https://a.test"] 50 2
                ltac:(done)) as H.
  pose proof (crawl_and_index_crawl one_page_world 0 (init [] []) ["https://a.test"] 50 2
                ltac:(done)) as Hc.
  destruct (crawl_and_index one_page_world 0 _ _ _ _) as [[[e' now'] pages] ok].
  change (web one_page_world) with one_page_web in Hc.
  change (crawler (init [] [])) with (Crawler.init 100 1 3) in Hc.
  rewrite crawl_one_page_first in Hc. injection Hc as _ -> ->.
  destruct H as [-> ->]. split; reflexivity.
Defined.

(** X12: a job run.  [execute_crawl_job] works on a crawler of its own,
    so the engine's crawler is as before; the committed documents stay at
    the head of the index, and at most [max_pages] documents are added,
    for a job whose [max_pages] is not negative. *)
Theorem execute_crawl_job_adds_at_most (w : world) (now : nat) (e : SearchEngine)
    (j : Scheduler.job) :
  (0 <= Scheduler.max_pages j)%Z ->
  let '(e', _) := execute_crawl_job w now e j in
  crawler e' = crawler e /\
  index e `prefix_of` index e' /\
  (Z.of_nat (Indexer.doc_count (index e'))
   <= Z.of_nat (Indexer.doc_count (index e)) + Scheduler.max_pages j)%Z.
Proof.
  intros Hpos. unfold execute_crawl_job.
  pose proof (crawl_inv (web w) now
                (Crawler.init (Scheduler.max_pages j) 1 (Scheduler.max_depth j))
                (Scheduler.seed_urls j) (init_inv _ _ _ Hpos)) as Hinv.
  destruct (Crawler.crawl _ _ _ _) as [[c now'] pages].
  destruct Hinv as ((Hlen & _) & -> & Hp & _). cbn in Hp. rewrite Hp in Hlen.
  destruct (Crawler.crawled_pages c) as [|p pages] eqn:Hpages.
  { cbv beta iota zeta. cbn [crawler index]. split; [done|]. split; [done|lia]. }
  destruct (parse_pages w (p :: pages)) as [|q parsed] eqn:Hparsed.
  { cbv beta iota zeta. cbn [crawler index]. split; [done|]. split; [done|lia]. }
  destruct (commit_ok w now').
  - rewrite index_pages_commit. cbv beta iota zeta. cbn [crawler index].
    split; [done|]. split; [by apply prefix_app_r|].
    unfold Indexer.doc_count. rewrite length_app.
    pose proof (length_built (q :: parsed)) as H1.
    pose proof (length_parse_pages w (p :: pages)) as H2. rewrite Hparsed in H2.
    lia.
  - rewrite index_pages_cancel. cbv beta iota zeta. cbn [crawler index].
    split; [done|]. split; [done|lia].
Qed.

Lemma execute_crawl_job_adds_at_most_nightly :
  let '(e', _) := execute_crawl_job one_page_world 0 (init [] []) nightly_job in
  crawler e' = Crawler.init 100 1 3 /\
  (Z.of_nat (Indexer.doc_count (index e')) <= 100)%Z.
Proof.
  pose proof (execute_crawl_job_adds_at_most one_page_world 0 (init [] []) nightly_job
                ltac:(done)) as H.
  destruct (execute_crawl_job one_page_world 0 (init [] []) nightly_job) as [e' now'].
  destruct H as (H1 & _ & H3). split; [exact H1|exact H3].
Defined.

End EngineMore.

(* ===================================================================== *)
(** ** The crawler: caps, provenance, failures *)
(* ===================================================================== *)

Section CrawlerMore.

Import Crawler Scenario Cases.
Local Open Scope Z_scope.

(** X13: a crawler that is full.  When the crawler holds [max_pages]
    pages or more (a new crawler does when [max_pages] is 0 or negative),
    [crawl] queues the seeds and returns at once: no request is made, the
    clock stands still, and the list returned is the list held before. *)
Theorem crawl_full_crawler (web : internet) (now : nat) (c : WebCrawler)
    (seed_urls : list string) :
  max_pages c <= Z.of_nat (length (crawled_pages c)) ->
  crawl web now c seed_urls
  = (set_queue c (url_queue c ++ map (fun u => (u, 0)) seed_urls), now, crawled_pages c).
Proof.
  intros Hfull. unfold crawl. rewrite crawl_loop_eq.
  unfold crawl_round. cbn [url_queue set_queue crawled_pages max_pages].
  destruct (url_queue c ++ map (fun u => (u, 0)) seed_urls) as [|[u d] rest]; [done|].
  destruct (Z.ltb_spec (Z.of_nat (length (crawled_pages c))) (max_pages c)); [lia|done].
Qed.

Lemma crawl_full_crawler_zero_pages :
  crawl one_page_web 0 (init 0 1 3) ["https://a.test"]
  = (set_queue (init 0 1 3) [("https://a.test", 0)], 0%nat, []).
Proof.
  apply (crawl_full_crawler one_page_web 0 (init 0 1 3) ["https://a.test"]).
  simpl. lia.
Defined.



(** *** Provenance *)

Lemma reached_more (seeds : list string) (pages pages' : list page_data) (u : string) (d : Z) :
  pages ⊆ pages' -> reached seeds pages u d -> reached seeds pages' u d.
Proof.
  intros Hsub [H|(q & Hq & Hl & Hd)]; [by left|].
  right. exists q. split; [by apply Hsub|done].
Qed.

Lemma crawl_page_reach (web : internet) (seeds : list string) (now : nat) (c : WebCrawler)
    (u : string) (d : Z) :
  0 <= d -> reached seeds (crawled_pages c) u d ->
  reach_inv seeds c -> reach_inv seeds (fst (crawl_page web now c u d)).
Proof.
  intros Hd Hu [Hq Hp]. unfold crawl_page.
  destruct (_ || _ || _); [done|].
  destruct (web now u) as [| | |body hrefs]; [done..|].
  unfold reach_inv. cbn [fst url_queue crawled_pages].
  set (page := {| url := u; title := ""; content := body; links := hrefs; depth := d;
                  crawl_time := now |}).
  assert (crawled_pages c ⊆ crawled_pages c ++ [page]) as Hsub
    by (intros x Hx; apply elem_of_app; by left).
  split.
  - apply Forall_app. split.
    + eapply Forall_impl; [exact Hq|]. intros e [H0 Hr]. split; [done|].
      by apply (reached_more seeds (crawled_pages c)).
    + apply Forall_forall. intros e (l & -> & Hl)%list_elem_of_fmap.
      cbn [fst snd]. split; [lia|]. right. exists page.
      split; [apply elem_of_app; right; by apply list_elem_of_singleton|].
      split; [|done]. cbn [links page].
      apply list_elem_of_In in Hl. apply List.filter_In in Hl as [Hl _].
      by apply list_elem_of_In.
  - apply Forall_app. split.
    + eapply Forall_impl; [exact Hp|]. intros p [H0 Hr]. split; [done|].
      by apply (reached_more seeds (crawled_pages c)).
    + constructor; [|constructor]. split; [done|].
      by apply (reached_more seeds (crawled_pages c)).
Qed.

Lemma crawl_round_reach (web : internet) (seeds : list string) (s s' : WebCrawler * nat) :
  crawl_round web s = Some s' -> reach_inv seeds (fst s) -> reach_inv seeds (fst s').
Proof.
  destruct s as [c now]. unfold crawl_round. cbn [fst].
  destruct (url_queue c) as [|[u d] rest] eqn:Hq; [done|].
  destruct (Z.of_nat (length (crawled_pages c)) <? max_pages c); [|done].
  intros Hs [Hqueue Hpages]. rewrite Hq in Hqueue.
  apply Forall_cons in Hqueue as [[Hd Hu] Hrest]. cbn [fst snd] in Hd, Hu.
  assert (reach_inv seeds (set_queue c rest)) as Hinv by (by split).
  revert Hs. case_bool_decide; intros [= <-]; cbn [fst]; [exact Hinv|].
  by apply crawl_page_reach.
Qed.

(** X15: where collected pages come from.  Every page returned by the
    run of a new crawler is at depth 0 or more, and it is a seed
    collected at depth 0 or a URL among the links of a returned page,
    collected one level below that page. *)
Theorem crawl_pages_reached (web : internet) (now : nat) (pages_limit delay_s depth_limit : Z)
    (seed_urls : list string) :
  let '(_, _, pages) := crawl web now (init pages_limit delay_s depth_limit) seed_urls in
  Forall (fun p => 0 <= depth p /\ reached seed_urls pages (url p) (depth p)) pages.
Proof.
  unfold crawl.
  pose proof (crawl_loop_keeps web (fun s => reach_inv seed_urls (fst s))
                (crawl_round_reach web seed_urls)) as H.
  specialize (H (set_queue (init pages_limit delay_s depth_limit)
                   (url_queue (init pages_limit delay_s depth_limit)
                    ++ map (fun u => (u, 0)) seed_urls), now)).
  destruct (crawl_loop web _) as [c now']. apply H.
  split; [|constructor]. cbn. apply Forall_forall.
  intros e (u & -> & Hu)%list_elem_of_fmap. cbn. split; [lia|]. by left.
Qed.

Lemma crawl_round_too_deep (web : internet) (depth_limit : Z) (s s' : WebCrawler * nat) :
  depth_limit < 0 ->
  crawl_round web s = Some s' ->
  crawled_pages (fst s) = [] /\ max_depth (fst s) = depth_limit /\
  Forall (fun e => 0 <= snd e) (url_queue (fst s)) ->
  crawled_pages (fst s') = [] /\ max_depth (fst s') = depth_limit /\
  Forall (fun e => 0 <= snd e) (url_queue (fst s')).
Proof.
  intros Hneg. destruct s as [c t]. unfold crawl_round. cbn [fst].
  intros Hs (Hc & Hm & Hall).
  destruct (url_queue c) as [|[u d] rest]; [done|].
  destruct (Z.of_nat (length (crawled_pages c)) <? max_pages c); [|done].
  apply Forall_cons in Hall as [Hd Hrest]. cbn [snd] in Hd.
  revert Hs. case_bool_decide; intros [= <-]; cbn [fst]; [done|].
  unfold crawl_page. cbn [max_depth set_queue]. rewrite Hm.
  destruct (Z.ltb_spec depth_limit d) as [_|]; [|lia].
  rewrite !orb_true_r. done.
Qed.

(** A negative depth limit.  With [max_depth] below 0 a new
    crawler collects nothing, whatever the network holds: every seed is
    at depth 0, which is past the limit. *)
Theorem crawl_negative_depth (web : internet) (now : nat) (pages_limit delay_s depth_limit : Z)
    (seed_urls : list string) :
  depth_limit < 0 ->
  let '(_, _, pages) := crawl web now (init pages_limit delay_s depth_limit) seed_urls in
  pages = [].
Proof.
  intros Hneg. unfold crawl.
  pose proof (crawl_loop_keeps web
    (fun s => crawled_pages (fst s) = [] /\ max_depth (fst s) = depth_limit /\
              Forall (fun e => 0 <= snd e) (url_queue (fst s)))
    (fun s s' => crawl_round_too_deep web depth_limit s s' Hneg)) as H.
  specialize (H (set_queue (init pages_limit delay_s depth_limit)
                   (url_queue (init pages_limit delay_s depth_limit)
                    ++ map (fun u => (u, 0)) seed_urls), now)).
  destruct (crawl_loop web _) as [c now']. apply H.
  split; [done|]. split; [done|]. cbn. apply Forall_forall.
  intros e (u & -> & Hu)%list_elem_of_fmap. cbn. lia.
Qed.

Lemma crawl_negative_depth_one_page :
  let '(_, _, pages) := crawl one_page_web 0 (init 10 1 (-1)) ["https://a.test"] in
  pages = [].
Proof.
  apply (crawl_negative_depth one_page_web 0 10 1 (-1) ["https://a.test"]). lia.
Defined.

(** *** The visited set *)

Lemma crawl_round_visited (web : internet) (s s' : WebCrawler * nat) :
  crawl_round web s = Some s' ->
  visited_urls (fst s) = list_to_set (map url (crawled_pages (fst s))) ->
  visited_urls (fst s') = list_to_set (map url (crawled_pages (fst s'))).
Proof.
  destruct s as [c now]. unfold crawl_round. cbn [fst].
  destruct (url_queue c) as [|[u d] rest]; [done|].
  destruct (Z.of_nat (length (crawled_pages c)) <? max_pages c); [|done].
  case_bool_decide; intros [= <-] Hv; cbn [fst]; [done|].
  unfold crawl_page. destruct (_ || _ || _); [done|].
  destruct (web now u); [done..|]. cbn [fst visited_urls crawled_pages set_queue].
  rewrite map_app, list_to_set_app_L, <- Hv. cbn [map url].
  apply leibniz_equiv. rewrite list_to_set_singleton. apply (comm (∪)).
Qed.

(** X16: the visited set of a new crawler after a run is the set of the
    URLs of the pages it returns: a URL that was tried without success
    (forbidden by [robots.txt], unreachable, not HTML) is not marked, and
    is tried again when it is met again. *)
Theorem crawl_visited_are_collected (web : internet) (now : nat)
    (pages_limit delay_s depth_limit : Z) (seed_urls : list string) :
  let '(c, _, pages) := crawl web now (init pages_limit delay_s depth_limit) seed_urls in
  visited_urls c = list_to_set (map url pages).
Proof.
  unfold crawl.
  pose proof (crawl_loop_keeps web
    (fun s => visited_urls (fst s) = list_to_set (map url (crawled_pages (fst s))))
    (crawl_round_visited web)) as H.
  specialize (H (set_queue (init pages_limit delay_s depth_limit)
                   (url_queue (init pages_limit delay_s depth_limit)
                    ++ map (fun u => (u, 0)) seed_urls), now)).
  destruct (crawl_loop web _) as [c now']. apply H. reflexivity.
Qed.

(** *** Failures are not remembered *)

Lemma crawl_page_fail (web : internet) (now : nat) (c : WebCrawler) (u : string) (d : Z) :
  (forall body hrefs, web now u <> Html body hrefs) ->
  fst (crawl_page web now c u d) = c.
Proof.
  intros Hweb. unfold crawl_page. destruct (_ || _ || _); [done|].
  destruct (web now u) as [| | |body hrefs]; [done..|]. by destruct (Hweb body hrefs).
Qed.

Lemma crawl_loop_all_fail (web : internet) (queue : list (string * Z)) :
  (forall t u body hrefs, web t u <> Html body hrefs) ->
  forall (c : WebCrawler) (now : nat),
  url_queue c = queue -> crawled_pages c = [] -> visited_urls c = ∅ -> 0 < max_pages c ->
  crawl_loop web (c, now) = (set_queue c [], (now + length queue)%nat).
Proof.
  intros Hweb. induction queue as [|[u d] rest IH]; intros c now Hq Hc Hv Hmp;
    rewrite crawl_loop_eq; unfold crawl_round; rewrite Hq.
  - rewrite Nat.add_0_r. f_equal. destruct c. cbn in *. by subst.
  - rewrite Hc. cbn [length]. destruct (Z.ltb_spec (Z.of_nat 0) (max_pages c)) as [_|]; [|lia].
    rewrite bool_decide_eq_false_2
      by (cbn [visited_urls set_queue]; rewrite Hv; apply not_elem_of_empty).
    rewrite crawl_page_fail by (intros body hrefs; apply Hweb).
    rewrite (IH (set_queue c rest) (S now)) by done.
    cbn [length]. f_equal. lia.
Qed.




(** *** Breadth first *)

Lemma sorted_constant (l : list Z) (k : Z) :
  (forall x, x ∈ l -> x = k) -> StronglySorted Z.le l.
Proof.
  induction l as [|x l IH]; intros Hk; constructor.
  - apply IH. intros y Hy. apply Hk. by right.
  - apply Forall_forall. intros y Hy.
    rewrite (Hk x) by left. rewrite (Hk y) by (by right). done.
Qed.

Lemma crawl_round_bfs (web : internet) (s s' : WebCrawler * nat) :
  crawl_round web s = Some s' -> bfs_inv (fst s) -> bfs_inv (fst s').
Proof.
  destruct s as [c now]. unfold crawl_round. cbn [fst].
  destruct (url_queue c) as [|[u d] rest] eqn:Hq; [done|].
  destruct (Z.of_nat (length (crawled_pages c)) <? max_pages c); [|done].
  intros Hs (Hcs & Hds & Hle & Hspread). rewrite Hq in Hds, Hle, Hspread.
  cbn [map snd] in Hds, Hle, Hspread.
  apply StronglySorted_cons in Hds as [Hd Hrest]. rewrite Forall_forall in Hd.
  assert (bfs_inv (set_queue c rest)) as Hskip.
  { unfold bfs_inv. cbn [set_queue crawled_pages url_queue].
    split; [done|]. split; [done|]. split.
    - intros x y Hx Hy. apply Hle; [done|by right].
    - intros x y Hx Hy. apply Hspread; by right. }
  revert Hs. case_bool_decide; intros [= <-]; cbn [fst]; [exact Hskip|].
  unfold crawl_page. destruct (_ || _ || _); [exact Hskip|].
  destruct (web now u) as [| | |body hrefs]; [exact Hskip..|].
  unfold bfs_inv. cbn [fst crawled_pages url_queue set_queue].
  rewrite !map_app, <- !list_fmap_compose. cbn [map depth].
  set (news := (snd ∘ (fun l : string => (l, d + 1))) <$> _).
  assert (forall x, x ∈ news -> x = d + 1) as Hnews.
  { intros x (l & -> & _)%list_elem_of_fmap. done. }
  assert (StronglySorted Z.le news) as Hsorted_news by (by apply (sorted_constant _ (d + 1))).
  assert (forall x, x ∈ map snd rest -> x <= d + 1) as Hrest_le.
  { intros x Hx. apply Hspread; [by right|left]. }
  split; [|split; [|split]].
  - apply StronglySorted_app_2; [|done|repeat constructor].
    intros x y Hx Hy%list_elem_of_singleton. subst y. apply Hle; [done|left].
  - apply StronglySorted_app_2; [|done|done].
    intros x y Hx Hy. rewrite (Hnews y Hy). by apply Hrest_le.
  - intros x y [Hx|Hx%list_elem_of_singleton]%elem_of_app [Hy|Hy]%elem_of_app.
    + apply Hle; [done|by right].
    + rewrite (Hnews y Hy). pose proof (Hle x d Hx ltac:(left)). lia.
    + subst x. by apply Hd.
    + subst x. rewrite (Hnews y Hy). lia.
  - intros x y [Hx|Hx]%elem_of_app [Hy|Hy]%elem_of_app.
    + apply Hspread; by right.
    + rewrite (Hnews y Hy). pose proof (Hrest_le x Hx). lia.
    + rewrite (Hnews x Hx). pose proof (Hd y Hy). lia.
    + rewrite (Hnews x Hx), (Hnews y Hy). lia.
Qed.

(** X18: breadth first.  The pages a new crawler returns are in the
    order of their depths: no page comes before a page of a smaller
    depth. *)
Theorem crawl_breadth_first (web : internet) (now : nat)
    (pages_limit delay_s depth_limit : Z) (seed_urls : list string) :
  let '(_, _, pages) := crawl web now (init pages_limit delay_s depth_limit) seed_urls in
  StronglySorted Z.le (map depth pages).
Proof.
  unfold crawl.
  pose proof (crawl_loop_keeps web (fun s => bfs_inv (fst s)) (crawl_round_bfs web)) as H.
  specialize (H (set_queue (init pages_limit delay_s depth_limit)
                   (url_queue (init pages_limit delay_s depth_limit)
                    ++ map (fun u => (u, 0)) seed_urls), now)).
  destruct (crawl_loop web _) as [c now'].
  apply H. unfold bfs_inv. cbn.
  assert (forall x, x ∈ map snd (map (fun u : string => (u, 0)) seed_urls) -> x = 0) as Hz.
  { intros x (e & -> & (u & -> & _)%list_elem_of_fmap)%list_elem_of_fmap. done. }
  split; [constructor|]. split; [|split].
  - by apply (sorted_constant _ 0).
  - intros x y Hx. by apply elem_of_nil in Hx.
  - intros x y Hx Hy. rewrite (Hz x Hx), (Hz y Hy). lia.
Qed.

End CrawlerMore.

(* ===================================================================== *)
(** ** Ranking: the order of the results *)
(* ===================================================================== *)

Section SortMore.

Import Ranking Cases.
Local Open Scope R_scope.

Lemma insert_desc_perm (x : ranked) (l : list ranked) : insert_desc x l ≡ₚ x :: l.
Proof.
  induction l as [|y l IH]; cbn [insert_desc]; [done|].
  destruct (Rlt_dec (ranking_score x) (ranking_score y)); [|done].
  rewrite IH. apply Permutation_swap.
Qed.

Lemma sort_desc_perm (l : list ranked) : sort_desc l ≡ₚ l.
Proof.
  induction l as [|x l IH]; [done|]. cbn [sort_desc fold_right].
  rewrite insert_desc_perm. by constructor.
Qed.





Example sort_desc_ties :
  sort_desc [ranked_with "a" 1; ranked_with "b" 2; ranked_with "c" 2]
  = [ranked_with "b" 2; ranked_with "c" 2; ranked_with "a" 1].
Proof.
  unfold sort_desc. cbn [fold_right insert_desc].
  change (ranking_score (ranked_with "a" 1)) with 1.
  change (ranking_score (ranked_with "b" 2)) with 2.
  change (ranking_score (ranked_with "c" 2)) with 2.
  destruct (Rlt_dec 2 2) as [H|_]; [lra|]. cbn [insert_desc].
  change (ranking_score (ranked_with "a" 1)) with 1.
  change (ranking_score (ranked_with "b" 2)) with 2.
  change (ranking_score (ranked_with "c" 2)) with 2.
  destruct (Rlt_dec 1 2) as [_|H]; [|lra]. reflexivity.
Qed.

End SortMore.

(* ===================================================================== *)
(** ** Ranking: results, failures, weights *)
(* ===================================================================== *)

Section RankMore.

Import PyStr Ranking Scenario Cases.
Local Open Scope R_scope.

Lemma bind_ok {A B : Type} (m : result A) (k : A -> result B) (b : B) :
  (x ← m; k x) = Ok b -> exists a, m = Ok a /\ k a = Ok b.
Proof. destruct m as [a|e]; [|done]. intros H. by exists a. Qed.

Lemma score_hit_hit (w : weights) (now : R) (terms all : list string) (h : hit) (r : ranked) :
  score_hit w now terms all h = Ok r -> ranked_hit r = h.
Proof.
  unfold score_hit. intros H.
  repeat (apply bind_ok in H as (? & _ & H)). by injection H as <-.
Qed.

Lemma score_all_each (w : weights) (now : R) (terms all : list string)
    (results : list hit) (rs : list ranked) :
  score_all w now terms all results = Ok rs ->
  Forall2 (fun h r => score_hit w now terms all h = Ok r) results rs.
Proof.
  revert rs. induction results as [|h rest IH]; intros rs; cbn [score_all].
  - intros [= <-]. constructor.
  - intros (r & Hr & H)%bind_ok. apply bind_ok in H as (rs' & Hrs & [= <-]).
    constructor; [exact Hr|by apply IH].
Qed.



(** *** Division by a word count of zero *)

Lemma content_score_blank (terms all : list string) (body : string) :
  terms <> [] -> blank body = true ->
  calculate_content_score terms body all = Raise ZeroDivisionError.
Proof.
  intros Ht [Htruthy Hsplit%bool_decide_eq_true]%andb_true_iff.
  unfold calculate_content_score. rewrite Htruthy.
  destruct terms as [|t terms]; [done|]. cbn [content_loop].
  unfold content_term_score, calculate_tf_idf. by rewrite Hsplit.
Qed.

Lemma content_score_words (terms all : list string) (body : string) :
  all <> [] -> terms = [] \/ blank body = false ->
  exists x, calculate_content_score terms body all = Ok x.
Proof.
  intros Hall Hcase. unfold calculate_content_score.
  destruct (truthy body) eqn:Htruthy; [|eauto].
  destruct Hcase as [->|Hblank]; [cbn; eauto|].
  unfold blank in Hblank. rewrite Htruthy in Hblank. cbn [andb] in Hblank.
  apply bool_decide_eq_false in Hblank.
  generalize 0 at 1. induction terms as [|t terms IH]; intros acc; cbn [content_loop]; [eauto|].
  unfold content_term_score at 1, calculate_tf_idf.
  destruct (length (split body)) eqn:Hlen.
  { destruct (split body); [done|discriminate]. }
  destruct all as [|a all]; [done|]. cbn [mbind result_bind]. apply IH.
Qed.

Lemma score_hit_blank (w : weights) (now : R) (terms all : list string) (h : hit) :
  terms <> [] -> blank (content h) = true ->
  score_hit w now terms all h = Raise ZeroDivisionError.
Proof.
  intros Ht Hb. unfold score_hit. by rewrite (content_score_blank terms all _ Ht Hb).
Qed.

Lemma has_weights_weight (w : weights) (k : string) :
  has_weights w -> k ∈ weight_names -> exists x, weight w k = Ok x.
Proof.
  intros Hw Hk. unfold has_weights in Hw. rewrite Forall_forall in Hw.
  destruct (Hw k Hk) as [x Hx]. exists x. unfold weight. by rewrite Hx.
Qed.

Ltac in_names := apply list_elem_of_In; cbn; tauto.

(** A crawl time that is not later than the clock gives a freshness
    from 0 to 1. *)
Lemma freshness_past (now : R) (c : crawl_stamp) :
  match stamp_seconds c with Some t => t <= now | None => True end ->
  exists f, calculate_freshness_score now c = Ok f /\ 0 <= f <= 1.
Proof.
  unfold calculate_freshness_score. destruct (stamp_seconds c) as [t|]; [|exists 0; split; [done|lra]].
  intros Ht. cbv zeta. set (x := - ((now - t) / (24 * 3600)) / 30).
  assert (x <= 0) as Hx.
  { unfold x. replace (- ((now - t) / (24 * 3600)) / 30) with (- (now - t) / 2592000) by field.
    apply Rmult_le_reg_r with 2592000; [lra|].
    replace (- (now - t) / 2592000 * 2592000) with (- (now - t)) by field. lra. }
  clearbody x. unfold math_exp.
  destruct (Rlt_dec exp_overflows x) as [Hbig|_]; [unfold exp_overflows in Hbig; lra|].
  destruct (Rlt_dec x exp_vanishes); [exists 0; split; [done|lra]|].
  exists (exp x). split; [done|]. split; [left; apply exp_pos|].
  rewrite <- exp_0. destruct Hx as [Hx| ->]; [left; by apply exp_increasing|right; done].
Qed.

Lemma depth_penalty_int32 (d : Z) :
  Indexer.int32 d = true -> calculate_depth_penalty d = Ok (IZR d * (1 / 10)).
Proof.
  intros Hd. apply depth_penalty_small. unfold Indexer.int32 in Hd.
  apply andb_true_iff in Hd as [Hlo%Z.leb_le Hhi%Z.leb_le].
  change (2 ^ 31)%Z with 2147483648%Z. lia.
Qed.

Lemma score_hit_words (w : weights) (now : R) (terms all : list string) (h : hit) :
  has_weights w -> all <> [] -> rankable_at now h ->
  terms = [] \/ blank (content h) = false ->
  exists r, score_hit w now terms all h = Ok r.
Proof.
  intros Hw Hall [Hd Ht] Hcase. unfold score_hit.
  destruct (content_score_words terms all (content h) Hall Hcase) as [x ->].
  destruct (freshness_past now (crawl_time h) Ht) as (f & -> & _).
  rewrite (depth_penalty_int32 _ Hd).
  cbn [mbind result_bind].
  destruct (has_weights_weight w "title_match" Hw) as [? ->]; [in_names|].
  destruct (has_weights_weight w "content_match" Hw) as [? ->]; [in_names|].
  destruct (has_weights_weight w "meta_description_match" Hw) as [? ->]; [in_names|].
  destruct (has_weights_weight w "heading_match" Hw) as [? ->]; [in_names|].
  destruct (has_weights_weight w "url_match" Hw) as [? ->]; [in_names|].
  destruct (has_weights_weight w "freshness" Hw) as [? ->]; [in_names|].
  destruct (has_weights_weight w "content_length" Hw) as [? ->]; [in_names|].
  destruct (has_weights_weight w "depth_penalty" Hw) as [? ->]; [in_names|].
  cbn [mbind result_bind]. eauto.
Qed.

(** X21: when [rank_results] raises.  Take weights under all eight
    names and hits whose depths have 32 signed bits and whose crawl
    times are not later than the clock, so that no number leaves the
    doubles.  Then a call returns unless the query has a term and some
    hit has a body that is not empty and has no word in it; in that case
    the division by the word count of the body raises
    [ZeroDivisionError]. *)
Theorem rank_results_zero_division (w : weights) (now : R) (results : list hit)
    (query_string : string) :
  has_weights w ->
  Forall (rankable_at now) results ->
  (split (lower query_string) <> [] ->
   Exists (fun h => blank (content h) = true) results ->
   rank_results w now results query_string = Raise ZeroDivisionError) /\
  (split (lower query_string) = [] \/
   Forall (fun h => blank (content h) = false) results ->
   exists rs, rank_results w now results query_string = Ok rs).
Proof.
  intros Hw. unfold rank_results.
  destruct results as [|h0 rest0]; [split; [by intros _ ?%Exists_nil|eauto]|].
  set (all := map content (h0 :: rest0)).
  assert (all <> []) as Hall by done. clearbody all.
  set (terms := split (lower query_string)). clearbody terms.
  generalize (h0 :: rest0) as results. clear h0 rest0. intros results Hrank. split.
  - intros Hterms Hex.
    assert (score_all w now terms all results = Raise ZeroDivisionError) as ->; [|done].
    induction Hrank as [|h rest Hh _ IH]; [by apply Exists_nil in Hex|].
    cbn [score_all]. destruct (blank (content h)) eqn:Hb.
    + by rewrite (score_hit_blank w now terms all h Hterms Hb).
    + destruct (score_hit_words w now terms all h Hw Hall Hh (or_intror Hb)) as [r ->].
      cbn [mbind result_bind]. apply Exists_cons in Hex as [Hex|Hex]; [congruence|].
      by rewrite (IH Hex).
  - intros Hcase.
    assert (exists rs, score_all w now terms all results = Ok rs) as [rs ->]; [|eauto].
    induction Hrank as [|h rest Hh _ IH]; cbn [score_all]; [eauto|].
    assert (terms = [] \/ blank (content h) = false) as Hb.
    { destruct Hcase as [?|Hf]; [by left|right]. by apply Forall_cons in Hf as [? _]. }
    destruct (score_hit_words w now terms all h Hw Hall Hh Hb) as [r ->].
    cbn [mbind result_bind]. destruct IH as [rs ->]; [|eauto].
    destruct Hcase as [?|Hf]; [by left|right]. by apply Forall_cons in Hf as [_ ?].
Qed.

Lemma rankable_at_undated (now : R) (h : hit) :
  depth h = 0%Z -> crawl_time h = NoTime -> rankable_at now h.
Proof. intros Hd Ht. unfold rankable_at. by rewrite Hd, Ht. Qed.

Lemma initial_weights_has_weights : has_weights initial_weights.
Proof.
  unfold has_weights, weight_names, initial_weights.
  repeat constructor; repeat (rewrite lookup_insert_ne by done);
    rewrite lookup_insert_eq; eauto.
Qed.

Lemma rank_results_zero_division_blank :
  rank_results initial_weights 0 [undated_hit; blank_hit] "api" = Raise ZeroDivisionError /\
  exists rs, rank_results initial_weights 0 [undated_hit; blank_hit] "" = Ok rs.
Proof.
  assert (Forall (rankable_at 0) [undated_hit; blank_hit]) as Hrank.
  { repeat constructor. }
  destruct (rank_results_zero_division initial_weights 0 [undated_hit; blank_hit] "api"
              initial_weights_has_weights Hrank) as [H1 _].
  destruct (rank_results_zero_division initial_weights 0 [undated_hit; blank_hit] ""
              initial_weights_has_weights Hrank) as [_ H2].
  split.
  - apply H1; [discriminate|]. right. left. reflexivity.
  - apply H2. left. reflexivity.
Defined.

(** *** Which weights are read *)

Lemma score_hit_weights (w w' : weights) (now : R) (terms all : list string) (h : hit) :
  Forall (fun k => weight w' k = weight w k) weight_names ->
  score_hit w' now terms all h = score_hit w now terms all h.
Proof.
  intros H. unfold weight_names in H.
  repeat (apply Forall_cons in H as [? H]).
  unfold score_hit. by repeat match goal with E : weight w' _ = _ |- _ => rewrite E; clear E end.
Qed.

Lemma rank_results_weights (w w' : weights) (now : R) (results : list hit) (q : string) :
  Forall (fun k => weight w' k = weight w k) weight_names ->
  rank_results w' now results q = rank_results w now results q.
Proof.
  intros H. unfold rank_results. destruct results as [|h0 rest0]; [done|].
  generalize (map content (h0 :: rest0)) as all. intros all.
  assert (score_all w' now (split (lower q)) all (h0 :: rest0)
          = score_all w now (split (lower q)) all (h0 :: rest0)) as ->; [|done].
  induction (h0 :: rest0) as [|h rest IH]; [done|].
  cbn [score_all]. by rewrite (score_hit_weights w w' now _ all h H), IH.
Qed.

(** X22: names that are not weights.  An update whose keys are all
    outside the eight names is stored, and no ranking reads it:
    [rank_results] returns the same before and after. *)
Theorem rank_results_ignores_other_keys (w new_weights : weights) (now : R)
    (results : list hit) (query_string : string) :
  Forall (fun k => new_weights !! k = None) weight_names ->
  rank_results (update_weights w new_weights) now results query_string
  = rank_results w now results query_string.
Proof.
  intros H. apply rank_results_weights.
  eapply Forall_impl; [exact H|]. intros k Hk. unfold weight.
  by rewrite lookup_update_weights, Hk.
Qed.

Lemma rank_results_ignores_other_keys_page_rank :
  rank_results (update_weights initial_weights {["page_rank" := 7]}) 0 [epoch_hit] "api"
  = rank_results initial_weights 0 [epoch_hit] "api".
Proof.
  apply rank_results_ignores_other_keys.
  unfold weight_names. repeat constructor; by rewrite lookup_singleton_ne.
Defined.

(** X23: the sign of the depth weight.  The depth penalty is taken off
    with the absolute value of the weight ['depth_penalty'], so storing
    the opposite number under that name changes no result. *)
Theorem rank_results_depth_sign (w : weights) (x : R) (now : R)
    (results : list hit) (query_string : string) :
  w !! "depth_penalty" = Some x ->
  rank_results (<["depth_penalty" := - x]> w) now results query_string
  = rank_results w now results query_string.
Proof.
  intros Hx. unfold rank_results. destruct results as [|h0 rest0]; [done|].
  generalize (map content (h0 :: rest0)) as all. intros all.
  assert (score_all (<["depth_penalty" := - x]> w) now (split (lower query_string)) all
            (h0 :: rest0)
          = score_all w now (split (lower query_string)) all (h0 :: rest0)) as ->; [|done].
  induction (h0 :: rest0) as [|h rest IH]; [done|].
  cbn [score_all]. rewrite IH.
  assert (score_hit (<["depth_penalty" := - x]> w) now (split (lower query_string)) all h
          = score_hit w now (split (lower query_string)) all h) as ->; [|done].
  assert (forall k, k <> "depth_penalty" ->
            weight (<["depth_penalty" := - x]> w) k = weight w k) as Hother.
  { intros k Hk. unfold weight. by rewrite lookup_insert_ne. }
  assert (weight (<["depth_penalty" := - x]> w) "depth_penalty" = Ok (- x)) as Hnew
    by (unfold weight; by rewrite lookup_insert_eq).
  assert (weight w "depth_penalty" = Ok x) as Hold by (unfold weight; by rewrite Hx).
  unfold score_hit.
  destruct (calculate_content_score _ _ _); [|done]. cbn [mbind result_bind].
  rewrite (Hother "title_match") by done.
  destruct (weight w "title_match"); [|done]. cbn [mbind result_bind].
  rewrite (Hother "content_match") by done.
  destruct (weight w "content_match"); [|done]. cbn [mbind result_bind].
  rewrite (Hother "meta_description_match") by done.
  destruct (weight w "meta_description_match"); [|done]. cbn [mbind result_bind].
  rewrite (Hother "heading_match") by done.
  destruct (weight w "heading_match"); [|done]. cbn [mbind result_bind].
  rewrite (Hother "url_match") by done.
  destruct (weight w "url_match"); [|done]. cbn [mbind result_bind].
  rewrite (Hother "freshness") by done.
  destruct (weight w "freshness"); [|done]. cbn [mbind result_bind].
  rewrite (Hother "content_length") by done.
  destruct (weight w "content_length"); [|done]. cbn [mbind result_bind].
  rewrite Hnew, Hold. cbn [mbind result_bind]. by rewrite Rabs_Ropp.
Qed.

Lemma rank_results_depth_sign_initial :
  rank_results (<["depth_penalty" := - - (1 / 5)]> initial_weights) 0 [epoch_hit] "api"
  = rank_results initial_weights 0 [epoch_hit] "api".
Proof.
  apply rank_results_depth_sign.
  unfold initial_weights. repeat (rewrite lookup_insert_ne by done).
  by rewrite lookup_insert_eq.
Defined.

End RankMore.

(* ===================================================================== *)
(** ** Ranking: the component scores *)
(* ===================================================================== *)

Section ScoreMore.

Import PyStr Ranking Scenario Cases.

Local Open Scope R_scope.

Lemma freshness_formula (now t : R) :
  calculate_freshness_score now (DateTime t) = math_exp (- (now - t) / 2592000).
Proof.
  unfold calculate_freshness_score. cbn [stamp_seconds]. f_equal. field.
Qed.

Lemma exp_minus_1_half : exp (- 1) < 1 / 2.
Proof.
  pose proof (exp_ineq1 1 ltac:(lra)) as H. pose proof (exp_pos (-1)) as Hp.
  assert (exp (-1) * exp 1 = 1) as E.
  { rewrite <- exp_plus. replace (-1 + 1) with 0 by lra. apply exp_0. }
  nra.
Qed.

(** X24: the freshness of a dated hit.  It is 1 at the moment of the
    crawl and lies from 0 to 1 whenever the crawl is not later than the
    clock; thirty days after the crawl it is [exp (-1)], which is below
    one half, so thirty days are the time in which the score falls to
    1/e, not a half-life; and for a crawl time more than 710 times
    thirty days ahead of the clock, [math.exp] raises
    [OverflowError]. *)
Theorem freshness_score_range (t now : R) :
  calculate_freshness_score t (DateTime t) = Ok 1 /\
  (t <= now ->
   exists f, calculate_freshness_score now (DateTime t) = Ok f /\ 0 <= f <= 1) /\
  (calculate_freshness_score (t + 30 * 86400) (DateTime t) = Ok (exp (- 1)) /\
   exp (- 1) < 1 / 2) /\
  (now + 710 * (30 * 86400) < t ->
   calculate_freshness_score now (DateTime t) = Raise OverflowError).
Proof.
  repeat split.
  - rewrite freshness_formula. replace (- (t - t) / 2592000) with 0 by field.
    rewrite math_exp_exp by (unfold exp_vanishes, exp_overflows; lra).
    by rewrite exp_0.
  - intros Ht. by apply (freshness_past now (DateTime t)).
  - rewrite freshness_formula.
    replace (- (t + 30 * 86400 - t) / 2592000) with (- 1) by field.
    apply math_exp_exp. unfold exp_vanishes, exp_overflows. lra.
  - apply exp_minus_1_half.
  - intros Hfar. rewrite freshness_formula. unfold math_exp.
    destruct (Rlt_dec exp_overflows (- (now - t) / 2592000)) as [_|Hsmall]; [done|].
    exfalso. apply Hsmall. unfold exp_overflows.
    apply Rlt_trans with 710; [lra|].
    apply Rmult_lt_reg_r with 2592000; [lra|].
    replace (- (now - t) / 2592000 * 2592000) with (t - now) by field. lra.
Qed.

Lemma freshness_score_range_far_future :
  calculate_freshness_score 0 (DateTime 2000000000) = Raise OverflowError /\
  exists f, calculate_freshness_score 2000000000 (DateTime 0) = Ok f /\ 0 <= f <= 1.
Proof.
  split.
  - destruct (freshness_score_range 2000000000 0) as (_ & _ & _ & H). apply H. lra.
  - destruct (freshness_score_range 0 2000000000) as (_ & H & _). apply H. lra.
Defined.

(** The range of the content-length score.  For every length the
    score lies between 0 and 1, and it is 1 for the length 1500 only. *)
Theorem content_length_score_range (L : Z) :
  0 <= calculate_content_length_score L <= 1 /\
  (calculate_content_length_score L = 1 <-> L = 1500%Z).
Proof.
  destruct (Z.eq_dec L 0%Z) as [->|H0].
  { unfold calculate_content_length_score. cbn. split; [lra|]. split; [lra|lia]. }
  destruct (Z_lt_le_dec L 100) as [Hs|Hs].
  { destruct (Z_lt_le_dec L 0) as [Hn|Hn].
    - unfold calculate_content_length_score.
      destruct (Z.eqb_spec L 0%Z); [lia|]. destruct (Z.ltb_spec L 100%Z); [|lia].
      split; [lra|]. split; [lra|lia].
    - rewrite length_score_short by lia. split; [lra|]. split; [lra|lia]. }
  destruct (Z_lt_le_dec 10000 L) as [Hl|Hl].
  { rewrite length_score_long by lia. split; [lra|]. split; [lra|lia]. }
  rewrite length_score_gaussian by lia.
  assert (0 <= (IZR L - 1500) ^ 2) as Hsq by apply pow2_ge_0.
  assert (- (IZR L - 1500) ^ 2 / (2 * 750 ^ 2) <= 0) as Hneg.
  { assert (0 < / (2 * 750 ^ 2)) as Hinv by (apply Rinv_0_lt_compat; lra).
    unfold Rdiv. nra. }
  split.
  - split; [apply Rlt_le, exp_pos|]. rewrite <- exp_0.
    destruct Hneg as [Hneg|Hneg]; [apply Rlt_le; by apply exp_increasing|rewrite Hneg; lra].
  - split.
    + intros H. rewrite <- exp_0 in H. apply exp_inv in H.
      assert ((IZR L - 1500) ^ 2 = 0) as Hz.
      { apply Rmult_eq_reg_r with (/ (2 * 750 ^ 2)); [|apply Rinv_neq_0_compat; lra].
        unfold Rdiv in H. lra. }
      rewrite <- Rsqr_pow2 in Hz. apply Rsqr_0_uniq in Hz.
      apply eq_IZR. lra.
    + intros ->. replace (- (1500 - 1500) ^ 2 / (2 * 750 ^ 2)) with 0 by field. apply exp_0.
Qed.

Local Open Scope Z_scope.

Lemma title_term_score_range (title_lower term : string) :
  0 <= title_term_score title_lower term <= 10.
Proof.
  unfold title_term_score. destruct (contains _ _); [|lia].
  destruct (String.eqb _ _); [lia|]. destruct (contains _ _); lia.
Qed.

(** The ranges of the match scores.  The score of a field lies
    between 0 and ten times the number of terms, and the URL score
    between 0 and the number of terms. *)
Theorem match_score_ranges (terms : list string) (field u : string) :
  0 <= calculate_title_score terms field <= 10 * Z.of_nat (length terms) /\
  0 <= calculate_url_score terms u <= Z.of_nat (length terms).
Proof.
  split.
  - unfold calculate_title_score. destruct (truthy field); [|lia].
    rewrite fold_left_scores, Z.add_0_l.
    induction terms as [|t terms IH]; cbn [foldr length]; [lia|].
    pose proof (title_term_score_range (lower field) t). lia.
  - unfold calculate_url_score. destruct (truthy u); [|lia].
    assert (forall acc, acc <= fold_left
              (fun score term => if contains (lower term) (lower u) then score + 1 else score)
              terms acc <= acc + Z.of_nat (length terms)) as H; [|apply (H 0)].
    induction terms as [|t terms IH]; intros acc; cbn [fold_left length]; [lia|].
    destruct (contains (lower t) (lower u)).
    + pose proof (IH (acc + 1)). lia.
    + pose proof (IH acc). lia.
Qed.

Lemma truthy_lower (s : string) : truthy (lower s) = truthy s.
Proof. by destruct s. Qed.

(** X25: upper and lower case.  The match scores read the field, the
    URL and the terms through [lower] only: two fields, two URLs and two
    lists of terms that agree up to the case of their letters get the
    same scores. *)
Theorem match_scores_ignore_case (terms terms' : list string) (field field' u u' : string) :
  map lower terms = map lower terms' ->
  lower field = lower field' -> lower u = lower u' ->
  calculate_title_score terms field = calculate_title_score terms' field' /\
  calculate_url_score terms u = calculate_url_score terms' u'.
Proof.
  intros Hterms Hfield Hu. split.
  - unfold calculate_title_score.
    rewrite <- (truthy_lower field), <- (truthy_lower field'), Hfield.
    destruct (truthy (lower field')); [|done]. generalize 0.
    revert terms' Hterms. induction terms as [|t terms IH]; intros [|t' terms'] Hterms acc;
      try discriminate; [done|].
    injection Hterms as Ht Hterms. cbn [fold_left].
    rewrite (IH terms' Hterms). unfold title_term_score. by rewrite Ht.
  - unfold calculate_url_score.
    rewrite <- (truthy_lower u), <- (truthy_lower u'), Hu.
    destruct (truthy (lower u')); [|done]. generalize 0.
    revert terms' Hterms. induction terms as [|t terms IH]; intros [|t' terms'] Hterms acc;
      try discriminate; [done|].
    injection Hterms as Ht Hterms. cbn [fold_left].
    rewrite (IH terms' Hterms). by rewrite Ht.
Qed.

Lemma match_scores_ignore_case_api :
  calculate_title_score ["API"; "Docs"] "api docs" = calculate_title_score ["api"; "docs"] "API Docs" /\
  calculate_url_score ["API"; "Docs"] "HTTPS://A.TEST/API"
  = calculate_url_score ["api"; "docs"] "https://a.test/api".
Proof.
  apply (match_scores_ignore_case ["API"; "Docs"] ["api"; "docs"] "api docs" "API Docs"
           "HTTPS://A.TEST/API" "https://a.test/api"); reflexivity.
Defined.

End ScoreMore.

Section ContentMore.

Import PyStr Ranking Scenario Cases.

(** Counting finds an occurrence exactly when searching does. *)
Lemma count_zero_find (sub s : string) : count sub s = 0%nat <-> find sub s = None.
Proof.
  unfold count. induction s as [|c s IH].
  - destruct sub; simpl; split; done.
  - rewrite find_unfold. cbn [count_from].
    destruct (startswith sub (String c s)); [split; done|].
    rewrite IH. destruct (find sub s); split; done.
Qed.

Local Open Scope R_scope.

Lemma content_term_score_absent (body term : string) (all : list string) (v : R) :
  contains (lower term) (lower body) = false ->
  content_term_score body term all = Ok v -> v = 0.
Proof.
  intros Hin. unfold content_term_score.
  assert (find (lower term) (lower body) = None) as Hfind.
  { unfold contains in Hin. by destruct (find (lower term) (lower body)). }
  rewrite (proj2 (count_zero_find _ _) Hfind), Hfind.
  destruct (calculate_tf_idf term body all); [|done]. cbn [mbind result_bind].
  intros [= <-]. cbn [INR]. lra.
Qed.

(** Terms that do not occur.  When none of the query terms occurs
    in the body of a hit, lower-cased, the content score of the hit is 0
    whenever it is computed without an exception, whatever the bodies of
    the other hits are. *)
Theorem content_score_absent_terms (terms all : list string) (body : string) (v : R) :
  Forall (fun t => contains (lower t) (lower body) = false) terms ->
  calculate_content_score terms body all = Ok v -> v = 0.
Proof.
  intros Habsent. unfold calculate_content_score.
  destruct (truthy body); [|by intros [= <-]].
  assert (forall acc, content_loop acc terms body all = Ok v -> v = acc) as H; [|apply H].
  induction Habsent as [|t terms Ht _ IH]; intros acc; cbn [content_loop].
  - by intros [= <-].
  - destruct (content_term_score body t all) as [x|] eqn:Hx; [|done].
    cbn [mbind result_bind]. intros Hv%IH.
    rewrite (content_term_score_absent body t all x Ht Hx) in Hv. lra.
Qed.

Lemma content_score_absent_terms_api :
  exists v, calculate_content_score ["api"] "Web page" ["Web page"; "API docs"] = Ok v /\
            v = 0.
Proof.
  eexists. split; [reflexivity|].
  apply (content_score_absent_terms ["api"] ["Web page"; "API docs"] "Web page").
  - repeat constructor.
  - reflexivity.
Defined.

End ContentMore.

Section TextMore.

Import PyStr Texts Cases.

Lemma rev_app_spec (s acc : string) : String.rev_app s acc = String.rev s +:+ acc.
Proof.
  revert acc. induction s as [|c s IH]; intros acc; [done|].
  unfold String.rev. cbn [String.rev_app].
  rewrite (IH (String c acc)), (IH (String c "")), append_assoc. done.
Qed.

Lemma rev_cons (c : ascii) (s : string) :
  String.rev (String c s) = String.rev s +:+ String c "".
Proof. unfold String.rev at 1. cbn [String.rev_app]. apply rev_app_spec. Qed.

Lemma rev_snoc (c : ascii) (s : string) :
  String.rev (s +:+ String c "") = String c (String.rev s).
Proof.
  induction s as [|a s IH]; [done|].
  rewrite append_cons, !rev_cons, IH. done.
Qed.

Lemma rev_involutive (s : string) : String.rev (String.rev s) = s.
Proof.
  induction s as [|c s IH]; [done|]. rewrite rev_cons, rev_snoc, IH. done.
Qed.

Lemma truthy_rev (s : string) : truthy (String.rev s) = truthy s.
Proof.
  destruct s as [|c s]; [done|]. rewrite rev_cons.
  destruct (String.rev s); done.
Qed.

Lemma lstrip_snoc (c : ascii) (s : string) :
  Scheduler.lstrip (s +:+ String c "") =
  if truthy (Scheduler.lstrip s) then Scheduler.lstrip s +:+ String c ""
  else Scheduler.lstrip (String c "").
Proof.
  induction s as [|a s IH]; [done|].
  rewrite append_cons. cbn [Scheduler.lstrip].
  destruct (isspace a); [exact IH|done].
Qed.

(** [rstrip] read from the left. *)
Lemma rstrip_cons (c : ascii) (s : string) :
  rstrip (String c s) =
  if truthy (rstrip s) then String c (rstrip s)
  else if isspace c then "" else String c "".
Proof.
  unfold rstrip. rewrite rev_cons, lstrip_snoc, truthy_rev.
  destruct (truthy (Scheduler.lstrip (String.rev s))).
  - apply rev_snoc.
  - cbn [Scheduler.lstrip]. destruct (isspace c); done.
Qed.

Lemma rstrip_cons_word (c : ascii) (s : string) :
  isspace c = false -> rstrip (String c s) = String c (rstrip s).
Proof.
  intros Hc. rewrite rstrip_cons, Hc. by destruct (rstrip s).
Qed.

Lemma lstrip_collapse_spaces_true (s : string) :
  Scheduler.lstrip (collapse_spaces true s) = collapse_spaces true s.
Proof.
  induction s as [|c s IH]; [done|]. cbn [collapse_spaces].
  destruct (isspace c) eqn:Hc; [exact IH|].
  cbn [Scheduler.lstrip]. by rewrite Hc.
Qed.

Lemma lstrip_collapse_spaces (s : string) :
  Scheduler.lstrip (collapse_spaces false s) = collapse_spaces true s.
Proof.
  destruct s as [|c s]; [done|]. cbn [collapse_spaces].
  destruct (isspace c) eqn:Hc.
  - change (Scheduler.lstrip (String " " ?x)) with (Scheduler.lstrip x).
    apply lstrip_collapse_spaces_true.
  - cbn [Scheduler.lstrip]. by rewrite Hc.
Qed.

Lemma strip_collapse_spaces (s : string) :
  Scheduler.strip (collapse_spaces false s) = rstrip (collapse_spaces true s).
Proof. unfold Scheduler.strip, rstrip. by rewrite lstrip_collapse_spaces. Qed.

Lemma join_cons (x : string) (l : list string) :
  Indexer.join (x :: l) =
  match l with [] => x | _ :: _ => x +:+ " " +:+ Indexer.join l end.
Proof. by destruct l. Qed.

Lemma truthy_join (l : list string) :
  ~ In "" l -> truthy (Indexer.join l) = bool_decide (l <> []).
Proof.
  destruct l as [|x l]; [done|]. intros Hin. rewrite join_cons.
  destruct x as [|a x]; [by destruct Hin; left|].
  rewrite bool_decide_eq_true_2 by done. by destruct l.
Qed.

Lemma join_split_go (s : string) :
  (forall w, Indexer.join (split_go (Some w) s) =
             String.rev w +:+ rstrip (collapse_spaces false s)) /\
  Indexer.join (split_go None s) = rstrip (collapse_spaces true s).
Proof.
  induction s as [|c s [IHw IHn]].
  - split; [|done]. intros w. cbn [split_go collapse_spaces Indexer.join].
    by rewrite append_nil_r.
  - cbn [split_go collapse_spaces]. destruct (isspace c) eqn:Hc.
    + split; [|exact IHn]. intros w. rewrite join_cons, rstrip_cons, <- IHn.
      rewrite truthy_join by (by apply split_go_nonempty).
      destruct (split_go None s) as [|x l]; [by rewrite append_nil_r|done].
    + assert (forall w, Indexer.join (split_go (Some (String c w)) s) =
                        String.rev w +:+ rstrip (String c (collapse_spaces false s))) as H.
      { intros w. rewrite IHw, rev_cons, append_assoc, (rstrip_cons_word c) by done. done. }
      split; [exact H|]. apply (H "").
Qed.

Lemma no_space_rev_app (s acc : string) :
  no_space (String.rev_app s acc) = no_space s && no_space acc.
Proof.
  revert acc. induction s as [|c s IH]; intros acc; [done|].
  cbn [String.rev_app no_space]. rewrite IH. cbn [no_space].
  destruct (isspace c), (no_space s), (no_space acc); done.
Qed.

Lemma is_word_rev (w : string) : is_word w = true -> is_word (String.rev w) = true.
Proof.
  unfold is_word. rewrite truthy_rev. unfold String.rev. rewrite no_space_rev_app.
  by rewrite andb_true_r.
Qed.

(** [split] gives words. *)
Lemma split_go_words (cur : option string) (s : string) :
  (forall w, cur = Some w -> is_word w = true) ->
  Forall (fun w => is_word w = true) (split_go cur s).
Proof.
  revert cur. induction s as [|c s IH]; intros cur Hcur; cbn [split_go].
  - destruct cur as [w|]; [|constructor].
    constructor; [|constructor]. by apply is_word_rev, Hcur.
  - destruct (isspace c) eqn:Hc.
    + destruct cur as [w|]; [|by apply IH].
      constructor; [by apply is_word_rev, Hcur|by apply IH].
    + destruct cur as [w|]; apply IH; intros ? [= <-].
      * specialize (Hcur w eq_refl). unfold is_word in *. cbn [truthy no_space].
        rewrite Hc. apply andb_true_iff in Hcur as [_ ->]. done.
      * unfold is_word. cbn [truthy no_space]. by rewrite Hc.
Qed.

Lemma split_go_no_space (x w rest : string) :
  no_space x = true ->
  split_go (Some w) (x +:+ rest) = split_go (Some (String.rev_app x w)) rest.
Proof.
  revert w. induction x as [|a x IH]; intros w Hx; [done|].
  cbn [no_space] in Hx. apply andb_true_iff in Hx as [Ha%negb_true_iff Hx].
  rewrite append_cons. cbn [split_go String.rev_app]. rewrite Ha. by apply IH.
Qed.

Lemma split_go_word (x rest : string) :
  is_word x = true ->
  split_go None (x +:+ rest) = split_go (Some (String.rev x)) rest.
Proof.
  unfold is_word. destruct x as [|a x]; [done|]. cbn [truthy no_space andb].
  intros [Ha%negb_true_iff Hx]%andb_true_iff.
  rewrite append_cons. cbn [split_go]. rewrite Ha.
  by rewrite split_go_no_space.
Qed.

(** Splitting words that were joined gives the words back. *)
Lemma split_join (ws : list string) :
  Forall (fun w => is_word w = true) ws -> split (Indexer.join ws) = ws.
Proof.
  unfold split. induction 1 as [|x l Hx Hl IH]; [done|].
  rewrite join_cons. destruct l as [|y l].
  - replace (split_go None x) with (split_go None (x +:+ "")) by (by rewrite append_nil_r).
    rewrite (split_go_word x "" Hx). cbn [split_go]. by rewrite rev_involutive.
  - rewrite (split_go_word x _ Hx).
    change (" " +:+ ?r) with (String " " r). cbn [split_go].
    change (isspace " ") with true. cbn iota. by rewrite rev_involutive, IH.
Qed.

Lemma split_words (s : string) : Forall (fun w => is_word w = true) (split s).
Proof. by apply split_go_words. Qed.

Lemma clean_text_join (text : string) : clean_text text = Indexer.join (split text).
Proof.
  unfold clean_text, split.
  by rewrite strip_collapse_spaces, (proj2 (join_split_go text)).
Qed.

Lemma split_clean_text (text : string) : split (clean_text text) = split text.
Proof. rewrite clean_text_join. apply split_join, split_words. Qed.

(** X26: what [clean_text] gives.  The cleaned text is the white-space
    separated words of the text joined by single blanks, which is
    [' '.join(text.split())]; so it has the words of the text, and
    cleaning it again changes nothing. *)
Theorem clean_text_words (text : string) :
  clean_text text = Indexer.join (split text) /\
  split (clean_text text) = split text /\
  clean_text (clean_text text) = clean_text text.
Proof.
  split; [apply clean_text_join|]. split; [apply split_clean_text|].
  by rewrite (clean_text_join (clean_text text)), split_clean_text, clean_text_join.
Qed.

End TextMore.

(* ===================================================================== *)
(** ** Searching *)
(* ===================================================================== *)

Section SearchMore.

Import PyStr Texts Ranking Search Cases.

Lemma blank_clean_text (text : string) : blank (clean_text text) = false.
Proof.
  unfold blank. rewrite split_clean_text, clean_text_join.
  destruct (split text) as [|x l]; [done|].
  rewrite bool_decide_eq_false_2 by done. apply andb_false_r.
Qed.

Lemma split_go_dots (x : string) (cur : option string) :
  split_go cur (x +:+ "...") <> [].
Proof.
  revert cur. induction x as [|a x IH]; intros cur.
  - destruct cur; vm_compute; discriminate.
  - rewrite append_cons. cbn [split_go].
    destruct (isspace a), cur; try apply IH. discriminate.
Qed.

Lemma blank_snippet (body : string) : blank body = false -> blank (snippet body) = false.
Proof.
  unfold snippet. destruct (300 <? String.length body)%nat; [intros _|done].
  unfold blank, split. rewrite bool_decide_eq_false_2 by apply split_go_dots.
  apply andb_false_r.
Qed.

Lemma score_all_words (w : weights) (now : R) (terms all : list string) (results : list hit) :
  has_weights w -> all <> [] ->
  Forall (fun h => rankable_at now h /\ blank (content h) = false) results ->
  exists rs, score_all w now terms all results = Ok rs.
Proof.
  intros Hw Hall. induction 1 as [|h rest [Hr Hh] _ [rs IH]]; cbn [score_all]; [eauto|].
  destruct (score_hit_words w now terms all h Hw Hall Hr (or_intror Hh)) as [r ->].
  cbn [mbind result_bind]. rewrite IH. eauto.
Qed.

Lemma rank_results_zero_free (w : weights) (now : R) (results : list hit) (q : string) :
  has_weights w ->
  Forall (fun h => rankable_at now h /\ blank (content h) = false) results ->
  exists rs, rank_results w now results q = Ok rs.
Proof.
  intros Hw Hresults. unfold rank_results. destruct results as [|h rest]; [eauto|].
  destruct (score_all_words w now (split (lower q)) (map content (h :: rest)) (h :: rest))
    as [rs Hrs]; [done..|].
  cbv zeta. rewrite Hrs. eauto.
Qed.

Lemma rank_results_scored (w : weights) (now : R) (results : list hit) (q : string)
    (rs : list ranked) :
  rank_results w now results q = Ok rs ->
  length rs = length results /\
  Forall (fun r => ranked_hit r ∈ results /\
                   score_hit w now (split (lower q)) (map content results) (ranked_hit r) = Ok r)
         rs.
Proof.
  unfold rank_results. destruct results as [|h rest].
  { intros [= <-]. split; [done|constructor]. }
  intros (scored & Hs & [= <-])%bind_ok. apply score_all_each in Hs.
  set (all := map content (h :: rest)) in *. clearbody all.
  set (hits := h :: rest) in *. clearbody hits.
  pose proof (sort_desc_perm scored) as Hperm. split.
  - rewrite Hperm. symmetry. exact (Forall2_length _ _ _ Hs).
  - rewrite Hperm. clear Hperm.
    induction Hs as [|x r l l' Hr _ IH]; constructor.
    + rewrite (score_hit_hit _ _ _ _ _ _ Hr). split; [left|exact Hr].
    + eapply Forall_impl; [exact IH|]. intros r' [Hin Hr']. split; [by right|exact Hr'].
Qed.

Lemma length_slice_to {A : Type} (limit : Z) (l : list A) :
  (0 <= limit)%Z -> length (slice_to limit l) = Nat.min (Z.to_nat limit) (length l).
Proof.
  intros H. unfold slice_to. destruct (Z.leb_spec 0 limit); [|lia]. apply length_take.
Qed.

Lemma slice_to_subseteq {A : Type} (limit : Z) (l : list A) : slice_to limit l ⊆ l.
Proof.
  unfold slice_to. destruct (0 <=? limit)%Z; apply sublist_subseteq, sublist_take.
Qed.

(** X27: the number and the origin of the results.  For a limit that
    is not negative, [search] returns at most [limit] results, with or
    without ranking, and each of them is the formatted form of a document
    that the searcher returned for the cleaned query and twice the
    limit. *)
Theorem search_at_most_limit (whoosh : searcher) (w : weights) (now : R)
    (q : string) (limit : Z) (ranking : bool) :
  (0 <= limit)%Z ->
  (length (search whoosh w now q limit ranking) <= Z.to_nat limit)%nat /\
  Forall (fun res => exists found,
            whoosh (preprocess_query q) (limit * 2)%Z = Some found /\
            hit_of res ∈ map format_result found)
         (search whoosh w now q limit ranking).
Proof.
  intros Hlimit. unfold search, query_search.
  destruct (truthy (preprocess_query q)); [|split; [cbn; lia|constructor]].
  destruct (whoosh (preprocess_query q) (limit * 2)%Z) as [found|];
    [|split; [cbn; lia|constructor]].
  destruct (map format_result found) as [|h rest] eqn:Hfound;
    [split; [cbn; lia|constructor]|].
  rewrite <- Hfound. clear h rest Hfound.
  destruct ranking.
  - destruct (rank_results w now (map format_result found) q) as [rs|] eqn:Hrank;
      [|split; [cbn; lia|constructor]].
    apply rank_results_scored in Hrank as [_ Hrs]. split.
    + rewrite length_slice_to by done. lia.
    + apply Forall_forall. intros res Hres%slice_to_subseteq.
      apply list_elem_of_fmap in Hres as (r & -> & Hr).
      rewrite Forall_forall in Hrs. destruct (Hrs r Hr) as [Hin _].
      exists found. by split.
  - split.
    + rewrite length_slice_to by done. lia.
    + apply Forall_forall. intros res Hres%slice_to_subseteq.
      apply list_elem_of_fmap in Hres as (h & -> & Hh).
      exists found. by split.
Qed.

Lemma search_at_most_limit_one :
  (length (search (fun _ _ => Some [(page_doc, 1%R); (page_doc, 2%R)]) initial_weights 0
             "web page" 1 false) <= 1)%nat.
Proof.
  apply (search_at_most_limit (fun _ _ => Some [(page_doc, 1%R); (page_doc, 2%R)])
           initial_weights 0 "web page" 1 false).
  lia.
Defined.

Lemma score_hit_no_headings (w : weights) (now : R) (terms all : list string)
    (h : hit) (r : ranked) :
  headings h = "" -> score_hit w now terms all h = Ok r ->
  heading_score (score_breakdown r) = 0%Z.
Proof.
  unfold score_hit. intros Hh H.
  repeat (apply bind_ok in H as (? & _ & H)). injection H as <-.
  cbn [score_breakdown heading_score]. by rewrite Hh.
Qed.

(** X28: headings at search time.  A formatted result has no
    ['headings'] entry, so in every result that [search] ranks the
    heading score of the breakdown is 0, whatever the headings of the
    stored document and the query are. *)
Theorem search_heading_score_zero (whoosh : searcher) (w : weights) (now : R)
    (q : string) (limit : Z) (r : ranked) :
  Ranked r ∈ search whoosh w now q limit true ->
  headings (ranked_hit r) = "" /\ heading_score (score_breakdown r) = 0%Z.
Proof.
  unfold search, query_search.
  destruct (truthy (preprocess_query q)); [|by intros ?%elem_of_nil].
  destruct (whoosh (preprocess_query q) (limit * 2)%Z) as [found|];
    [|by intros ?%elem_of_nil].
  destruct (map format_result found) as [|h rest] eqn:Hfound; [by intros ?%elem_of_nil|].
  rewrite <- Hfound. clear h rest Hfound.
  destruct (rank_results w now (map format_result found) q) as [rs|] eqn:Hrank;
    [|by intros ?%elem_of_nil].
  intros Hres%slice_to_subseteq.
  apply list_elem_of_fmap in Hres as (r' & [= <-] & Hr).
  apply rank_results_scored in Hrank as [_ Hrs].
  rewrite Forall_forall in Hrs. destruct (Hrs r Hr) as [Hin Hscore].
  assert (headings (ranked_hit r) = "") as Hh.
  { apply list_elem_of_fmap in Hin as ([d x] & -> & _). reflexivity. }
  split; [exact Hh|]. exact (score_hit_no_headings _ _ _ _ _ _ Hh Hscore).
Qed.

Lemma parsed_content_not_blank (now : R) (found : list (Indexer.document * R)) :
  Forall (fun f => crawled_by now f.1) found ->
  Forall (fun h => rankable_at now h /\ blank (content h) = false) (map format_result found).
Proof.
  induction 1 as [|[d x] l ([raw Hraw] & Hdepth & Htime) _ IH]; [constructor|].
  cbn [map]. constructor; [|exact IH]. cbn [fst] in *. split.
  - split; [exact Hdepth|exact Htime].
  - cbn [format_result content]. rewrite Hraw.
    apply blank_snippet, blank_clean_text.
Qed.

(** X29: searching documents that came through the parser.  Take
    documents found whose bodies are texts cleaned by [clean_text], as
    the bodies that [parse_page] extracts are, whose depths have the 32
    signed bits of the schema and whose crawl times are not later than
    the clock, and weights under all eight names.  Then ranking raises
    nothing: for a limit that is not negative, [search] returns [limit]
    results, or all the searcher found if these are fewer, with ranking
    as without. *)
Theorem search_parsed_documents (whoosh : searcher) (w : weights) (now : R)
    (q : string) (limit : Z) (ranking : bool) (found : list (Indexer.document * R)) :
  has_weights w -> (0 <= limit)%Z ->
  truthy (preprocess_query q) = true ->
  whoosh (preprocess_query q) (limit * 2)%Z = Some found ->
  Forall (fun f => crawled_by now f.1) found ->
  length (search whoosh w now q limit ranking) = Nat.min (Z.to_nat limit) (length found).
Proof.
  intros Hw Hlimit Hq Hfound Hparsed%parsed_content_not_blank.
  unfold search, query_search. rewrite Hq, Hfound.
  destruct (map format_result found) as [|h rest] eqn:Hmap.
  { destruct found; [cbn; lia|done]. }
  rewrite <- Hmap in *. clear h rest Hmap.
  destruct ranking.
  - destruct (rank_results_zero_free w now (map format_result found) q Hw Hparsed)
      as [rs Hrank].
    rewrite Hrank. apply rank_results_scored in Hrank as [Hlen _].
    by rewrite length_slice_to, !length_map, Hlen, length_map.
  - by rewrite length_slice_to, !length_map.
Qed.

Lemma search_parsed_documents_one :
  length (search (fun _ _ => Some [(page_doc, 1%R)]) initial_weights 0 "search" 1 true) = 1%nat.
Proof.
  apply (search_parsed_documents (fun _ _ => Some [(page_doc, 1%R)]) initial_weights 0
           "search" 1 true [(page_doc, 1%R)]).
  - apply initial_weights_has_weights.
  - lia.
  - reflexivity.
  - reflexivity.
  - constructor; [|constructor]. split; [|split].
    + exists "  A web page
 about   search ". reflexivity.
    + reflexivity.
    + cbn. lra.
Defined.

Lemma search_ranked_first (whoosh : searcher) (w : weights) (now : R)
    (q : string) (limit : Z) (found : list (Indexer.document * R)) :
  has_weights w -> (0 < limit)%Z -> found <> [] ->
  truthy (preprocess_query q) = true ->
  whoosh (preprocess_query q) (limit * 2)%Z = Some found ->
  Forall (fun f => crawled_by now f.1) found ->
  exists r, Ranked r ∈ search whoosh w now q limit true.
Proof.
  intros Hw Hlimit Hne Hq Hfound Hparsed%parsed_content_not_blank.
  unfold search, query_search. rewrite Hq, Hfound.
  destruct (map format_result found) as [|h rest] eqn:Hmap; [by destruct found|].
  rewrite <- Hmap in *.
  destruct (rank_results_zero_free w now (map format_result found) q Hw Hparsed)
    as [rs Hrank].
  rewrite Hrank. apply rank_results_scored in Hrank as [Hlen _].
  destruct rs as [|r rs]; [by rewrite Hmap in Hlen|].
  exists r. unfold slice_to. destruct (Z.leb_spec 0 limit); [|lia].
  destruct (Z.to_nat limit) eqn:Hn; [lia|]. cbn [map take]. left.
Qed.

Lemma search_heading_score_zero_page :
  exists r, Ranked r ∈ search (fun _ _ => Some [(page_doc, 1%R)]) initial_weights 0
                         "search" 1 true /\
            heading_score (score_breakdown r) = 0%Z.
Proof.
  destruct (search_ranked_first (fun _ _ => Some [(page_doc, 1%R)]) initial_weights 0
              "search" 1 [(page_doc, 1%R)]) as [r Hr].
  - apply initial_weights_has_weights.
  - lia.
  - discriminate.
  - reflexivity.
  - reflexivity.
  - constructor; [|constructor]. split; [|split].
    + exists "A web page about search". reflexivity.
    + reflexivity.
    + cbn. lra.
  - exists r. split; [exact Hr|].
    apply (search_heading_score_zero (fun _ _ => Some [(page_doc, 1%R)]) initial_weights 0
             "search" 1 r Hr).
Defined.

Lemma split_go_blank_out (q : string) :
  Forall (fun c => punctuation c = true \/ isspace c = true) (list_ascii_of_string q) ->
  split_go None (blank_out q) = [].
Proof.
  induction q as [|c q IH]; [done|]. cbn [list_ascii_of_string blank_out split_go].
  intros [Hc Hq]%Forall_cons. specialize (IH Hq).
  destruct Hc as [Hc|Hc].
  - unfold punctuation in Hc. apply andb_true_iff in Hc as [_ Hc%negb_true_iff].
    rewrite Hc. change (isspace " ") with true. exact IH.
  - assert (kept_in_query c = true) as ->.
    { unfold kept_in_query. rewrite Hc. by rewrite orb_true_r. }
    rewrite Hc. exact IH.
Qed.

(** X30: a query without words.  When every character of the query is
    white space or an ASCII character that [preprocess_query] replaces
    by a blank (punctuation such as the question mark: anything but
    letters, digits, the underscore, the quotes and the operators), the
    cleaned query is empty and [search] returns no results, whatever is
    in the index: the searcher is not asked. *)
Theorem search_without_words (whoosh : searcher) (w : weights) (now : R)
    (q : string) (limit : Z) (ranking : bool) :
  Forall (fun c => punctuation c = true \/ isspace c = true) (list_ascii_of_string q) ->
  preprocess_query q = "" /\ search whoosh w now q limit ranking = [].
Proof.
  intros Hq.
  assert (preprocess_query q = "") as E.
  { change (preprocess_query q) with (clean_text (blank_out q)).
    rewrite clean_text_join. unfold split. by rewrite split_go_blank_out. }
  split; [exact E|]. unfold search, query_search. by rewrite E.
Qed.

Lemma search_without_words_marks :
  search (fun _ _ => Some [(page_doc, 1%R)]) initial_weights 0 " ?! " 10 true = [].
Proof.
  apply (search_without_words (fun _ _ => Some [(page_doc, 1%R)]) initial_weights 0
           " ?! " 10 true).
  cbn [list_ascii_of_string].
  repeat (constructor; [first [left; reflexivity|right; reflexivity]|]).
  constructor.
Defined.

End SearchMore.
